(** * basictool.py: the NeoBASIC tokeniser and lister, embedded in Rocq

    The development follows [src/basictool/basictool.py] class by class:
    [TokenSet], [IdentifierStore], [Tokeniser], [Program] (text to image)
    and [ProgramLister] (image to text).

    Conventions of the embedding.
    - Python integers are [Z]; list and buffer positions are [nat].
    - A Python [str] is a [string]; a character is a code point below 256.
      Case mapping is the ASCII one.  It is [str.upper] and [str.lower] on
      text of 7-bit characters, which is all the tokens are made of and all
      the pattern of the tokeniser lets into the identifier store.  Python
      maps the letters beyond as well, and not always to one character: the
      statements about [IdentifierStore.add] and [IdentifierStore.get] on
      names at large are therefore made for names of 7-bit characters.  In
      the test for a letter at the head of a word the sharp s, 0xDF, whose
      upper case SS compares as a letter, is the one character beyond that
      counts, and [upper_is_letter] accounts for it.
    - An exception aborts the run, so a computation returns a [result]:
      [Ok v], or [Raise e] for the exception class [e].  The three [while]
      loops whose progress is not structural (the tokeniser's line scan and
      the lister's two walks over the image) run on a step budget that the
      entry points set from the input length; [OutOfFuel] reports an
      exhausted budget and is shown unreachable, for the tokeniser and for
      the lister.
    - The walks of [Program.makelibrary], [IdentifierStore.dump] and
      [TokenSet.getRange] run on a budget as well.  Their positions are
      integers and are used as Python indexes, a negative one counting from
      the end; a run that ends is at no position twice, which bounds it by
      twice the length of the list. *)

From Stdlib Require Import ZArith List Ascii String Lia Bool DecimalString HexadecimalString.
From Stdlib Require Import DecimalZ HexadecimalN.
From stdpp Require Import base option list gmap strings.
From Equations Require Import Equations.

Local Open Scope Z_scope.

(* ===================================================================== *)
(** * Python primitives *)
(* ===================================================================== *)

Module Py.

Inductive exn := IndexError | AttributeError | AssertionError | ValueError | TypeError.

Inductive result (A : Type) : Type :=
| Ok (a : A)
| Raise (e : exn)
| OutOfFuel.
Arguments Ok {A} a.
Arguments Raise {A} e.
Arguments OutOfFuel {A}.

#[global] Instance result_ret : MRet result := fun A a => Ok a.
#[global] Instance result_bind : MBind result := fun A B f m =>
  match m with
  | Ok a => f a
  | Raise e => Raise e
  | OutOfFuel => OutOfFuel
  end.

#[global] Instance result_fmap : FMap result := fun A B f m =>
  match m with
  | Ok a => Ok (f a)
  | Raise e => Raise e
  | OutOfFuel => OutOfFuel
  end.

(** [x[i]] on an optional value: [None] is what an index out of range or
    a missing attribute gives. *)
Definition orRaise {A} (e : exn) (o : option A) : result A :=
  match o with Some a => Ok a | None => Raise e end.

(** [assert b] *)
Definition assert (b : bool) : result unit :=
  if b then Ok tt else Raise AssertionError.

(** ** Characters *)

Definition ord (c : ascii) : Z := Z.of_N (N_of_ascii c).
Definition chr (n : Z) : ascii := ascii_of_N (Z.to_N n).

Definition between (lo hi : Z) (c : ascii) : bool :=
  (lo <=? ord c) && (ord c <=? hi).

(** A character between '0' and '9', also the regular expression class [\d]. *)
Definition is_digit (c : ascii) : bool := between 48 57 c.
Definition is_upper (c : ascii) : bool := between 65 90 c.
Definition is_lower (c : ascii) : bool := between 97 122 c.
Definition is_alpha (c : ascii) : bool := is_upper c || is_lower c.

(** [str.isspace], which is also the class [\s] and what [strip] removes:
    tab, line feed, vertical tab, form feed, carriage return, the four
    separators 0x1c..0x1f, space, and in Latin-1 0x85 and 0xa0. *)
Definition is_space (c : ascii) : bool :=
  between 9 13 c || between 28 32 c || (ord c =? 133) || (ord c =? 160).

(** [[0-9A-Fa-f]] *)
Definition is_hexdigit (c : ascii) : bool :=
  is_digit c || between 65 70 c || between 97 102 c.

Definition upper_char (c : ascii) : ascii :=
  if is_lower c then chr (ord c - 32) else c.
Definition lower_char (c : ascii) : ascii :=
  if is_upper c then chr (ord c + 32) else c.

(** [c.upper() >= 'A' and c.upper() <= 'Z'] *)
Definition upper_is_letter (c : ascii) : bool :=
  is_upper (upper_char c) || (ord c =? 223).

Definition LF : ascii := "010"%char.
Definition dquote : ascii := "034"%char.

(** ** Strings *)

Fixpoint smap (f : ascii -> ascii) (s : string) : string :=
  match s with
  | EmptyString => EmptyString
  | String c r => String (f c) (smap f r)
  end.

(** [str.upper] and [str.lower], on text of 7-bit characters. *)
Definition upper : string -> string := smap upper_char.
Definition lower : string -> string := smap lower_char.

Definition is_empty (s : string) : bool :=
  match s with EmptyString => true | _ => false end.

(** The longest prefix whose characters satisfy [f], and the rest. *)
Fixpoint span (f : ascii -> bool) (s : string) : string * string :=
  match s with
  | EmptyString => (EmptyString, EmptyString)
  | String c r =>
      if f c then let '(a, b) := span f r in (String c a, b)
      else (EmptyString, s)
  end.

Definition lstrip (s : string) : string := snd (span is_space s).

Fixpoint rstrip (s : string) : string :=
  match s with
  | EmptyString => EmptyString
  | String c r =>
      let r' := rstrip r in
      if is_empty r' && is_space c then EmptyString else String c r'
  end.

Definition strip (s : string) : string := rstrip (lstrip s).

Fixpoint startswith (p s : string) : bool :=
  match p, s with
  | EmptyString, _ => true
  | String a p', String b s' => if ascii_dec a b then startswith p' s' else false
  | String _ _, EmptyString => false
  end.

Fixpoint endswith (p s : string) : bool :=
  match s with
  | EmptyString => is_empty p
  | String _ r => if string_dec s p then true else endswith p r
  end.

(** [s[-1]] *)
Fixpoint last (s : string) : option ascii :=
  match s with
  | EmptyString => None
  | String c EmptyString => Some c
  | String _ r => last r
  end.

(** [s[n:]] and [s[:n]] for [n >= 0] *)
Fixpoint sdrop (n : nat) (s : string) : string :=
  match n, s with
  | O, _ => s
  | S n', String _ r => sdrop n' r
  | S _, EmptyString => EmptyString
  end.

Fixpoint stake (n : nat) (s : string) : string :=
  match n, s with
  | O, _ => EmptyString
  | S n', String c r => String c (stake n' r)
  | S _, EmptyString => EmptyString
  end.

(** [s.find(c)] as an optional position *)
Fixpoint find_char (c : ascii) (s : string) : option nat :=
  match s with
  | EmptyString => None
  | String d r => if ascii_dec c d then Some O else S <$> find_char c r
  end.

(** [s.replace(c, '')] *)
Fixpoint remove_char (c : ascii) (s : string) : string :=
  match s with
  | EmptyString => EmptyString
  | String d r => if ascii_dec c d then remove_char c r else String d (remove_char c r)
  end.

(** [''.join(l)] *)
Definition join (l : list string) : string :=
  fold_right String.append EmptyString l.

(** [[ord(c) for c in s]] *)
Fixpoint ords (s : string) : list Z :=
  match s with
  | EmptyString => []
  | String c r => ord c :: ords r
  end.

Definition slen (s : string) : Z := Z.of_nat (String.length s).

(** [s.split()]: the maximal runs of characters that are not white space. *)
Fixpoint split_go (cur : option string) (s : string) : list string :=
  match s with
  | EmptyString => option_list cur
  | String c r =>
      if is_space c then option_list cur ++ split_go None r
      else split_go (Some (from_option (fun w => w +:+ String c EmptyString)
                                       (String c EmptyString) cur)) r
  end.
Definition split : string -> list string := split_go None.

(** ** Numbers and text *)

(** [str(n)] and ['{0}'.format(n)] *)
Definition str (n : Z) : string := DecimalString.NilZero.string_of_int (Z.to_int n).

(** ['{0:x}'.format(n)] for [n >= 0] *)
Definition hex (n : Z) : string :=
  HexadecimalString.NilZero.string_of_uint (N.to_hex_uint (Z.to_N n)).

(** ['{0:02x}'.format(n)] *)
Definition hex02 (n : Z) : string :=
  let h := hex n in
  if (String.length h <? 2)%nat then String "0"%char h else h.

(** [int(s)] and [int(s,16)] for a string of digits of the base *)
Definition digit_value (c : ascii) : Z :=
  if is_digit c then ord c - 48
  else if between 65 70 c then ord c - 55
  else ord c - 87.

Fixpoint int_go (base acc : Z) (s : string) : Z :=
  match s with
  | EmptyString => acc
  | String c r => int_go base (acc * base + digit_value c) r
  end.
Definition int (s : string) : Z := int_go 10 0 s.
Definition int16 (s : string) : Z := int_go 16 0 s.

(** ['{0:0Wx}'.format(n)] for the width [W]: the sign, zeros up to the
    width, the digits. *)
Definition hexpad (width : nat) (n : Z) : string :=
  let digits := hex (Z.abs n) in
  let sign := if n <? 0 then "-" else EmptyString in
  sign +:+ string_of_list_ascii
             (replicate (width - String.length sign - String.length digits) "0"%char)
       +:+ digits.

(** ** Lists *)

(** The place [l[i]] stands for: [i] itself, or [len(l) + i] for a
    negative [i]. *)
Definition index {A} (l : list A) (i : Z) : result nat :=
  let n := Z.of_nat (length l) in
  if (0 <=? i) && (i <? n) then Ok (Z.to_nat i)
  else if (i <? 0) && (0 <=? i + n) then Ok (Z.to_nat (i + n))
  else Raise IndexError.

(** [l[i]] *)
Definition getitem {A} (l : list A) (i : Z) : result A :=
  k ← index l i; orRaise IndexError (l !! k).

(** [l[i] = v] *)
Definition setitem {A} (l : list A) (i : Z) (v : A) : result (list A) :=
  k ← index l i; Ok (<[k := v]> l).

(** The elements [l[i]], [l[i+1]], ... as a loop that starts at [i] and
    steps by one meets them, up to the [IndexError] at [len(l)]: after
    [l[-1]] comes [l[0]]. *)
Definition from_ {A} (l : list A) (i : Z) : list A :=
  let n := Z.of_nat (length l) in
  if 0 <=? i then drop (Z.to_nat i) l
  else if 0 <=? i + n then drop (Z.to_nat (i + n)) l ++ l
  else [].

(** ** The regular expression fragments used by the tool *)

(** A final group [.*] that nothing anchors: up to the first line feed. *)
Fixpoint dot_star (s : string) : string :=
  match s with
  | EmptyString => EmptyString
  | String c r => if ascii_dec c LF then EmptyString else String c (dot_star r)
  end.

(** A final group [.*] followed by [$]: the whole string when it holds no
    line feed, all but a final line feed when that is the only one, and
    no match otherwise. *)
Fixpoint dot_star_end (s : string) : option string :=
  match s with
  | EmptyString => Some EmptyString
  | String c r =>
      if ascii_dec c LF then (if is_empty r then Some EmptyString else None)
      else String c <$> dot_star_end r
  end.

End Py.
Import Py.

(* ===================================================================== *)
(** * Integer constants in base 64 *)
(* ===================================================================== *)

Module NumberCodec.

(** [Tokeniser.renderConstant]: the bytes appended to [self.code]. *)
Equations? renderConstant (n : Z) : list Z by wf (Z.to_nat n) lt :=
  renderConstant n with Z_ge_dec n 64 => {
    | left _ => renderConstant (Z.shiftr n 6) ++ [Z.lor 64 (Z.land n 63)];
    | right _ => [Z.lor 64 (Z.land n 63)] }.
Proof.
  rewrite Z.shiftr_div_pow2 by lia.
  apply Z2Nat.inj_lt; [apply Z.div_pos; lia | lia |].
  apply Z.div_lt; lia.
Qed.

(** The loop of [ProgramLister.listOneElement] that reads a constant:
    [while self.bin[p] >= 0x40 and self.bin[p] < 0x80], run on the bytes
    from position [p] on.  It returns the value and the number of bytes
    consumed; running off the end of the buffer is an [IndexError]. *)
Fixpoint decodeInteger (v : Z) (rest : list Z) : result (Z * nat) :=
  match rest with
  | [] => Raise IndexError
  | b :: rest' =>
      if (64 <=? b) && (b <? 128)
      then '(v', k) ← decodeInteger (Z.shiftl v 6 + b - 64) rest'; Ok (v', S k)
      else Ok (v, O)
  end.

End NumberCodec.

(* ===================================================================== *)
(** * class Token, class TokenSet *)
(* ===================================================================== *)

Module Token.

Record t := mk {
  tokenID : Z;
  token : string;
  modifier : string
}.

(** [Token.__init__]: a name of the form [NAME:MOD], other than the
    colon itself, is cut at its first colon. *)
Definition init (tokenID : Z) (token : string) : t :=
  match (if string_dec token ":" then None else find_char ":"%char token) with
  | Some i => mk tokenID (stake i token) (sdrop (S i) token)
  | None => mk tokenID token EmptyString
  end.

Definition getName (tk : t) : string := token tk.
Definition getID (tk : t) : Z := tokenID tk.
Definition getModifier (tk : t) : string := modifier tk.

End Token.

Module TokenSet.

Record t := mk {
  nextToken : option Z;
  idToToken : gmap Z Token.t;
  nameToToken : gmap string Token.t
}.

Definition getByID (ts : t) (id : Z) : option Token.t := idToToken ts !! id.

Definition getByName (ts : t) (name : string) : option Token.t :=
  nameToToken ts !! lower (strip name).

(** [ts.getByName(name).getID()], an [AttributeError] on an unknown name:
    this is [Tokeniser.getTokenID], and the lister spells it out. *)
Definition getTokenID (ts : t) (name : string) : result Z :=
  Token.getID <$> orRaise AttributeError (getByName ts name).

(** The loop of [getRange], on a budget of iterations. *)
Fixpoint getRangeLoop (ts : t) (fuel : nat) (start : Z) : result (list Token.t) :=
  match idToToken ts !! start with
  | None => Ok []
  | Some tk =>
      match fuel with
      | O => OutOfFuel
      | S fuel' => ids ← getRangeLoop ts fuel' (start + 1); Ok (tk :: ids)
      end
  end.

(** [getRange]: the tokens of [start], [start + 1], ... up to the first
    identifier that has none.  The table holds as many identifiers as the
    loop can meet. *)
Definition getRange (ts : t) (start : Z) : result (list Token.t) :=
  _ ← assert (bool_decide (is_Some (idToToken ts !! start)));
  getRangeLoop ts (size (idToToken ts)) start.

(** [addToken]: both assertions, then both dictionaries are updated.  The
    second assertion looks the text up as written, the dictionary is
    keyed by the name left once the modifier is cut off. *)
Definition addToken (ts : t) (tokenID : Z) (tokenText : string) : result t :=
  let tokenText := lower (strip tokenText) in
  _ ← assert (bool_decide (idToToken ts !! tokenID = None));
  _ ← assert (is_empty tokenText || bool_decide (nameToToken ts !! tokenText = None));
  let token := Token.init tokenID tokenText in
  Ok (mk (nextToken ts)
                 (<[tokenID := token]> (idToToken ts))
                 (<[Token.getName token := token]> (nameToToken ts))).

(** [self.nextToken += 1] *)
Definition bump (ts : t) : result t :=
  n ← orRaise TypeError (nextToken ts);
  Ok (mk (Some (n + 1)) (idToToken ts) (nameToToken ts)).

(** The [for] loop of [add]. *)
Fixpoint addNames (ts : t) (names : list string) : result t :=
  match names with
  | [] => Ok ts
  | s :: names' =>
      n ← orRaise TypeError (nextToken ts);
      ts ← addToken ts n s;
      ts ← bump ts;
      addNames ts names'
  end.

(** The padding loop of [add], [k] being the number of slots still to
    fill: [start + padSize - self.nextToken] when that is positive. *)
Fixpoint addPadding (ts : t) (k : nat) : result t :=
  match k with
  | O => Ok ts
  | S k' =>
      n ← orRaise TypeError (nextToken ts);
      ts ← addToken ts n EmptyString;
      ts ← bump ts;
      addPadding ts k'
  end.

Definition add (ts : t) (start : option Z) (tokens : string)
           (padSize : option Z) : result t :=
  let ts := mk (match start with Some s => Some s | None => nextToken ts end)
                       (idToToken ts) (nameToToken ts) in
  let start := nextToken ts in
  ts ← addNames ts (split (strip (upper tokens)));
  match padSize with
  | None => Ok ts
  | Some pad =>
      s ← orRaise TypeError start;
      n ← orRaise TypeError (nextToken ts);
      addPadding ts (Z.to_nat (s + pad - n))
  end.

(** The fields as [create] first sets them. *)
Definition blank : t := mk None ∅ ∅.

(** [create], the seven blocks in the order of the source. *)
Definition create : result t :=
  (* Binary tokens between $20 and $3F *)
  ts ← add blank (Some 0x20) "
       +:3    -:3     *:4     /:4        >>:4    <<:4    %:4     \:4
       &:1    |:1        ^:1        >:2        >=:2    <:2        <=:2    <>:2
       =:2
      " None;
  (* Unary tokens from $80-$B0 *)
  ts ← add ts (Some 0x80) "
      !!STR     $         (        RAND(    RND(    JOYPAD(    INT(    TIME(    EVENT(
      INKEY$(    ASC(    CHR$(    POINT(     LEN(      ABS(      SGN(     HIT(    SPOINT(
      MID$(    LEFT$(     RIGHT$(    TRUE    FALSE    INSTR(    MOUSE(    !!UN6    !!UN7
      KEY(    PEEK(    DEEK(    ALLOC(    MAX(     MIN(
      " (Some 48);
  (* Structure tokens *)
  ts ← add ts None "
      WHILE:+    WEND:-        IF:+    ENDIF:-    DO:+    LOOP:-         REPEAT:+     UNTIL:-
      PROC:+     ENDPROC:-    FOR:+     NEXT:-     CASE:+     ENDCASE:-     !!UN1:+     THEN:-
       " (Some 16);
  (* Keyword tokens (major) *)
  ts ← add ts None "
      !!END     !!SH1    !!SH2    !!DEC     TO         LET     PRINT    INPUT
      SYS     EXIT    ,         ;         :         '         )        READ
      DATA     ELSE    WHEN    DOWNTO     POKE    DOKE     LOCAL    CALL
      #         .         LINE     RECT     MOVE     PLOT     ELLIPSE    TEXT
      IMAGE     SPRITE     FROM     [        ]         @         TILEDRAW REF
      " None;
  (* Keyword tokens (minor) *)
  ts ← add ts (Some 0x180) "
      CLEAR     NEW     RUN     STOP     END     ASSERT     LIST     SAVE
      LOAD    CAT     GOSUB     GOTO    RETURN     RESTORE    DIM        FKEY
      CLS     INK        FRAME    SOLID    BY         WHO     PALETTE DRAW
      HIDE     FLIP     SOUND     SFX     ANCHOR    GLOAD    DEFCHR  LEFT
      RIGHT     FORWARD    TURTLE     CLOSE     TILEMAP PENUP   PENDOWN FAST
      HOME     LOCALE     CURSOR     RENUMBER DELETE EDIT      MON     OLD
      ON         ERROR     PIN     OUTPUT    WAIT     IWRITE     ANALOG  ISEND
      SSEND     IRECEIVE SRECEIVE ITRANSMIT STRANSMIT OPEN LIBRARY
      USEND     URECEIVE UTRANSMIT UCONFIG MOS     MOUSE     SHOW     NOISE
      " None;
  (* Keyword tokens (assembler) *)
  ts ← add ts (Some 0x280) "
      ADC    AND    ASL    BCC    BCS    BEQ    BIT    BMI    BNE    BPL    BRA    BRK    BVC    BVS
      CLC    CLD    CLI    CLV    CMP    CPX    CPY    DEC    DEX    DEY    EOR    INC    INX    INY
      JMP    JSR    LDA    LDX    LDY    LSR    NOP    ORA    PHA    PHP    PHX    PHY    PLA    PLP
      PLX    PLY    ROL    ROR    RTI    RTS    SBC    SEC    SED    SEI    STA    STX    STY    STZ
      TAX    TAY    TRB    TSB    TSX    TXA    TXS    TYA

      " (Some 0x50);
  (* Additional Unary functions, less popular *)
  add ts (Some 0x2D0) "
      ATAN2( EOF( !!UU2 !!UU3 !!UU4 !!UU5 !!UU6 !!UU7
      !!UU8 !!UU9 !!UU10 !!UU11 !!UU12 !!UU13 !!UU14 !!UU15
      SIN(     COS(    TAN(    ATAN(     LOG(      EXP(      VAL(     STR$(
      ISVAL(     SQR(     PAGE     SPRITEX( SPRITEY( NOTES( HIMEM     VBLANKS(
      ERR     ERL        PIN(     IREAD(      ANALOG(  JOYCOUNT(  UPPER$(
      IDEVICE( SPC(     TAB(     UHASDATA( MOS(     HAVEMOUSE( LOWER$( POW(
      EXISTS(
      " None.

(** [TokenSet()]: the table every [Tokeniser], [Program] and
    [ProgramLister] builds for itself. *)
Definition tokens : t :=
  match create with
  | Ok ts => ts
  | _ => blank
  end.

End TokenSet.

(* ===================================================================== *)
(** * class IdentifierStore *)
(* ===================================================================== *)

Module IdentifierStore.

Record t := mk {
  store : list Z;
  identifiers : gmap string Z
}.

(** [__init__]: one page, no identifier. *)
Definition init : t := mk [1] ∅.

Definition render (st : t) : result (list Z) :=
  pages ← orRaise IndexError (head (store st));
  let reqLength := pages * 256 in
  Ok (store st ++ replicate (Z.to_nat (reqLength - Z.of_nat (length (store st)))) 0).

Definition get (st : t) (name : string) : option Z :=
  identifiers st !! upper name.

(** The control byte of a name that is already in upper case. *)
Definition controlByte (name : string) : Z :=
  let isString := endswith "$" name || endswith "$(" name in
  let isArray := endswith "(" name in
  let ctrl := if isString then 0x80 else 0x00 in
  if isArray then ctrl + 0x10 else ctrl.

(** [b[-1] |= 0x80] *)
Fixpoint markLast (b : list Z) : result (list Z) :=
  match b with
  | [] => Raise IndexError
  | [x] => Ok [Z.lor x 0x80]
  | x :: r => r' ← markLast r; Ok (x :: r')
  end.

(** [self.store[0] += 1] *)
Definition anotherPage (s : list Z) : result (list Z) :=
  match s with
  | [] => Raise IndexError
  | pages :: r => Ok (pages + 1 :: r)
  end.

Definition add (st : t) (name : string) : result t :=
  let name := upper name in
  let bAddress := Z.of_nat (length (store st)) in
  _ ← assert (bool_decide (identifiers st !! name = None));
  let ids := <[name := Z.of_nat (length (store st)) + 1]> (identifiers st) in
  let s := store st ++ [slen name + 6] in
  let s := s ++ [0; 0; 0; 0] in
  let s := s ++ [controlByte name] in
  b ← markLast (ords name);
  let s := s ++ b in
  let aAddress := Z.of_nat (length s) in
  if (Z.land bAddress 0x80 =? 0) && negb (Z.land aAddress 0x80 =? 0)
  then s ← anotherPage s; Ok (mk s ids)
  else Ok (mk s ids).

(** The inner loop of [dump], on the bytes from the first one of the
    name on: every byte gives a character, without its top bit, and the
    first byte that has the top bit is the last. *)
Fixpoint dumpName (rest : list Z) : result string :=
  match rest with
  | [] => Raise IndexError
  | b :: rest' =>
      let c := chr (Z.land b 0x7F) in
      if Z.land b 0x80 =? 0 then name ← dumpName rest'; Ok (String c name)
      else Ok (String c EmptyString)
  end.

(** The line [dump] prints for the record at [pos]. *)
Definition dumpRecord (data : list Z) (pos : Z) : result string :=
  name ← dumpName (from_ data (pos + 6));
  ctrl ← getitem data (pos + 5);
  flag ← getitem data (pos + 1);
  Ok ("Record $" +:+ hexpad 4 pos +:+ " : $" +:+ hexpad 2 ctrl +:+ " "
      +:+ lower name +:+ (if Z.land flag 0xC0 =? 0 then EmptyString else "$")).

(** The outer loop of [dump], on a budget of iterations: the lines
    printed, and how the loop ended. *)
Fixpoint dumpLoop (fuel : nat) (data : list Z) (pos : Z) : list string * result unit :=
  match fuel with
  | O => ([], OutOfFuel)
  | S fuel' =>
      match getitem data pos with
      | Ok len =>
          if len =? 0 then ([], Ok tt) else
          match dumpRecord data pos with
          | Ok line =>
              let '(lines, r) := dumpLoop fuel' data (pos + len) in (line :: lines, r)
          | Raise e => ([], Raise e)
          | OutOfFuel => ([], OutOfFuel)
          end
      | Raise e => ([], Raise e)
      | OutOfFuel => ([], OutOfFuel)
      end
  end.

(** [dump]: what is printed, line by line, and how the call ended. *)
Definition dump (st : t) : list string * result unit :=
  match render st with
  | Ok data => dumpLoop (S (length data + length data)) data 1
  | Raise e => ([], Raise e)
  | OutOfFuel => ([], OutOfFuel)
  end.

End IdentifierStore.

(* ===================================================================== *)
(** * class Tokeniser *)
(* ===================================================================== *)

Module Tokeniser.

(** The two mutable fields: the shared identifier store and the code of
    the line being tokenised. *)
Record t := mk {
  iStore : IdentifierStore.t;
  code : list Z
}.

(** [self.code.append(b)] and [self.code += l] *)
Definition emit (tw : t) (l : list Z) : t := mk (iStore tw) (code tw ++ l).

(** [renderConstant], on the object. *)
Definition renderConstant (tw : t) (n : Z) : t :=
  emit tw (NumberCodec.renderConstant n).

(** ** The regular expressions of [tokeniseOne], as (group 1, group 2).
    In the patterns quoted below REST stands for the last group, any run
    of characters other than line feed. *)

(** [[A-Za-z0-9_.]] *)
Definition is_wordchar (c : ascii) : bool :=
  is_alpha c || is_digit c || bool_decide (c = "_"%char) || bool_decide (c = "."%char).

(** [(\d+)\s*(REST)$] *)
Definition match_number (s : string) : option (string * string) :=
  let '(d, r) := span is_digit s in
  if is_empty d then None else
  g2 ← dot_star_end (lstrip r); Some (d, g2).

(** [\.(\d+)\s*(REST)] *)
Definition match_fraction (s : string) : option (string * string) :=
  match s with
  | String "."%char r =>
      let '(d, r') := span is_digit r in
      if is_empty d then None else Some (d, dot_star (lstrip r'))
  | _ => None
  end.

(** [\$([0-9A-Fa-f]+)\s*(REST)$] *)
Definition match_hex (s : string) : option (string * string) :=
  match s with
  | String "$"%char r =>
      let '(h, r') := span is_hexdigit r in
      if is_empty h then None else
      g2 ← dot_star_end (lstrip r'); Some (h, g2)
  | _ => None
  end.

(** The shortest run up to a double quote, which no line feed may
    precede: what the lazy group of the string pattern matches. *)
Fixpoint until_quote (s : string) : option (string * string) :=
  match s with
  | EmptyString => None
  | String c r =>
      if ascii_dec c dquote then Some (EmptyString, r)
      else if ascii_dec c LF then None
      else '(a, b) ← until_quote r; Some (String c a, b)
  end.

(** [\Q(.*?)\Q\s*(REST)], Q being the double quote *)
Definition match_string (s : string) : option (string * string) :=
  match s with
  | String c r =>
      if ascii_dec c dquote
      then '(body, r') ← until_quote r; Some (body, dot_star (lstrip r'))
      else None
  | EmptyString => None
  end.

(** An optional character [c] at the head of [s]. *)
Definition optional (c : ascii) (s : string) : string * string :=
  match s with
  | String d r => if ascii_dec c d then (String c EmptyString, r) else (EmptyString, s)
  | EmptyString => (EmptyString, s)
  end.

(** [^([A-Za-z0-9\_\.]+\$?\(?)\s*(REST)$] *)
Definition match_word (s : string) : option (string * string) :=
  let '(w, r) := span is_wordchar s in
  if is_empty w then None else
  let '(dollar, r) := optional "$"%char r in
  let '(paren, r) := optional "("%char r in
  g2 ← dot_star_end (lstrip r); Some (w +:+ dollar +:+ paren, g2).

(** ** Decimal fractions *)

(** [[int(x) for x in m.group(1)] + [0xF]], made even with one more
    [0xF] when needed. *)
Definition fractionDigits (digitChars : string) : list Z :=
  let digits := map digit_value (list_ascii_of_string digitChars) ++ [0xF] in
  if Nat.even (length digits) then digits else digits ++ [0xF].

(** The [while len(digits) > 0] loop: [digits[0]*16+digits[1]], then
    [digits = digits[2:]]. *)
Fixpoint packDigits (digits : list Z) : result (list Z) :=
  match digits with
  | [] => Ok []
  | [_] => Raise IndexError
  | hi :: lo :: r => p ← packDigits r; Ok (hi * 16 + lo :: p)
  end.

(** What follows the [!!dec] token: the length byte and the packed
    digits. *)
Definition encodeFraction (digitChars : string) : result (list Z) :=
  let digits := fractionDigits digitChars in
  p ← packDigits digits;
  Ok (Z.shiftr (Z.of_nat (length digits)) 1 :: p).

Section WithTokens.
Variable ts : TokenSet.t.

Definition getTokenID (name : string) : result Z := TokenSet.getTokenID ts name.

Definition tokeniseOne (tw : t) (s : string) : result (t * string) :=
  match s with
  | EmptyString => Raise IndexError
  | String c0 s1 =>
      (* Numbers, compiled in base 64 *)
      if is_digit c0 then
        '(g1, g2) ← orRaise AttributeError (match_number s);
        let tw := renderConstant tw (int g1) in
        let s := g2 in
        match match_fraction s with
        | Some (g1, g2) =>
            dec ← getTokenID "!!dec";
            let tw := emit tw [dec] in
            frac ← encodeFraction g1;
            Ok (emit tw frac, g2)
        | None => Ok (tw, s)
        end
      (* Hexadecimal numbers also in base 64 *)
      else if ascii_dec c0 "$"%char then
        dollar ← getTokenID "$";
        let tw := emit tw [dollar] in
        '(g1, g2) ← orRaise AttributeError (match_hex s);
        Ok (renderConstant tw (int16 g1), g2)
      (* Quoted string : [!!str] [length] [characters] *)
      else if ascii_dec c0 dquote then
        str ← getTokenID "!!str";
        '(g1, g2) ← orRaise AttributeError (match_string s);
        let tw := emit tw [str] in
        let tw := emit tw [slen g1] in
        Ok (emit tw (ords g1), g2)
      (* Comment *)
      else if ascii_dec c0 "'"%char then
        let s := strip s1 in
        quote ← getTokenID "'";
        let tw := emit tw [quote] in
        if is_empty s then Ok (tw, EmptyString) else
        let s := remove_char dquote s in
        str ← getTokenID "!!str";
        let tw := emit tw [str] in
        let tw := emit tw [slen s] in
        Ok (emit tw (ords s), EmptyString)
      (* Identifier or Token *)
      else if upper_is_letter c0 then
        '(g1, g2) ← orRaise AttributeError (match_word s);
        match TokenSet.getByName ts g1 with
        | Some tk =>
            let id := Token.getID tk in
            tw ← (if id >=? 0x100
                  then sh ← getTokenID ("!!sh" +:+ str (Z.shiftr id 8)); Ok (emit tw [sh])
                  else Ok tw);
            Ok (emit tw [Z.land id 0xFF], g2)
        | None =>
            st ← match IdentifierStore.get (iStore tw) g1 with
                 | None => IdentifierStore.add (iStore tw) g1
                 | Some _ => Ok (iStore tw)
                 end;
            let tw := mk st (code tw) in
            id ← orRaise TypeError (IdentifierStore.get (iStore tw) g1);
            let tw := emit tw [Z.shiftr id 8] in
            Ok (emit tw [Z.land id 0xFF], g2)
        end
      (* Punctuation *)
      else
        match (if (2 <=? String.length s)%nat
               then TokenSet.getByName ts (stake 2 s) else None) with
        | Some id => Ok (emit tw [Token.getID id], sdrop 2 s)
        | None =>
            id ← orRaise AssertionError (TokenSet.getByName ts (String c0 EmptyString));
            Ok (emit tw [Token.getID id], s1)
        end
  end.

(** The loop of [tokenise], on a budget of iterations. *)
Fixpoint tokeniseLoop (fuel : nat) (tw : t) (s : string) : result t :=
  if is_empty s || startswith "//" s then Ok tw else
  match fuel with
  | O => OutOfFuel
  | S fuel' =>
      '(tw, s) ← tokeniseOne tw s;
      tokeniseLoop fuel' tw (strip s)
  end.

(** [tokenise]: the code of one line, and the store as the line left
    it.  Every iteration consumes a character, so the length of the
    line bounds their number. *)
Definition tokenise (st : IdentifierStore.t) (s : string)
  : result (IdentifierStore.t * list Z) :=
  let s := strip s in
  tw ← tokeniseLoop (String.length s) (mk st []) s;
  Ok (iStore tw, code tw).

End WithTokens.

End Tokeniser.

(* ===================================================================== *)
(** * class Program *)
(* ===================================================================== *)

Module Program.

Record t := mk {
  nextLine : Z;
  lineStep : Z;
  code : list Z;
  store : IdentifierStore.t;
  identifiers : gmap string string;
  libraryMode : bool
}.

(** [__init__]: the five variables of the runtime are added first. *)
Definition init : result t :=
  st ← IdentifierStore.add IdentifierStore.init "A";
  st ← IdentifierStore.add st "O";
  st ← IdentifierStore.add st "P";
  st ← IdentifierStore.add st "X";
  st ← IdentifierStore.add st "Y";
  Ok (mk 100 10 [] st ∅ false).

(** [s[:-1]] *)
Fixpoint dropLast (s : string) : string :=
  match s with
  | EmptyString => EmptyString
  | String _ EmptyString => EmptyString
  | String c r => String c (dropLast r)
  end.

(** Handle #commands. *)
Definition command (p : t) (c : string) : result t :=
  if startswith "define" c then
    let c := strip (sdrop 6 c) in
    let '(name, value) :=
      match find_char " "%char c with
      | Some n => (stake n c, strip (sdrop (S n) c))
      | None => (dropLast c, strip c)     (* n = -1 *)
      end in
    Ok (mk (nextLine p) (lineStep p) (code p) (store p)
           (<[name := value]> (identifiers p)) (libraryMode p))
  else if string_dec c "library" then
    Ok (mk (nextLine p) (lineStep p) (code p) (store p) (identifiers p) true)
  else if string_dec c "nolibrary" then
    Ok (mk 1000 (lineStep p) (code p) (store p) (identifiers p) false)
  else Raise AssertionError.

(** [[A-Za-z0-9\._]] *)
Definition is_identchar (c : ascii) : bool :=
  is_alpha c || is_digit c || bool_decide (c = "."%char) || bool_decide (c = "_"%char).

(** Put [c] in front of the first piece. *)
Definition consFirst (c : ascii) (l : list string) : list string :=
  match l with
  | [] => [String c EmptyString]
  | w :: l' => String c w :: l'
  end.

(** [re.split] on the pattern [([A-Za-z][A-Za-z0-9\._]* )]: the text between the
    matches and the matches, in turn; [inword] says that the scan is
    inside a match. *)
Fixpoint splitGo (inword : bool) (s : string) : list string :=
  match s with
  | EmptyString => if inword then [EmptyString; EmptyString] else [EmptyString]
  | String c r =>
      if inword then
        if is_identchar c then consFirst c (splitGo true r)
        else EmptyString :: consFirst c (splitGo false r)
      else
        if is_alpha c then EmptyString :: consFirst c (splitGo true r)
        else consFirst c (splitGo false r)
  end.
Definition reSplit (s : string) : list string := splitGo false s.

(** [src[i] = self.identifiers[src[i]]] where [src[i]] is a key *)
Definition substitute (ids : gmap string string) (w : string) : string :=
  default w (ids !! w).

(** Process identifiers, making define substitutions. *)
Definition processIdentifiers (p : t) (s : string) : string :=
  join (map (substitute (identifiers p)) (reSplit s)).

(** [^(\d+)(REST)$], REST being any run of characters other than line
    feed. *)
Definition match_lineNumber (s : string) : option (string * string) :=
  let '(d, r) := span is_digit s in
  if is_empty d then None else
  g2 ← dot_star_end r; Some (d, g2).

(** [line[0] = len(line)] *)
Definition setLength (line : list Z) : list Z :=
  <[0%nat := Z.of_nat (length line)]> line.

(** [readlines()]: the text cut after each line feed. *)
Fixpoint readlinesGo (cur : string) (s : string) : list string :=
  match s with
  | EmptyString => if is_empty cur then [] else [cur]
  | String c r =>
      if ascii_dec c LF then (cur +:+ String c EmptyString) :: readlinesGo EmptyString r
      else readlinesGo (cur +:+ String c EmptyString) r
  end.
Definition readlines : string -> list string := readlinesGo EmptyString.

Section WithTokens.
Variable ts : TokenSet.t.

(** Add a line with an optional line number.  The tokeniser works on
    the store of the program. *)
Definition addLine (p : t) (number : option Z) (text : string) : result t :=
  if is_empty (strip text) then Ok p else
  let nextLine := default (nextLine p) number in
  let lineNo := if libraryMode p then 0 else nextLine in
  let line := [0; Z.land lineNo 0xFF; Z.shiftr lineNo 8] in
  '(st, toks) ← Tokeniser.tokenise ts (store p) text;
  let line := line ++ toks in
  e ← TokenSet.getTokenID ts "!!end";
  let line := line ++ [e] in
  let line := setLength line in
  Ok (mk (nextLine + lineStep p) (lineStep p) (code p ++ line) st
         (identifiers p) (libraryMode p)).

(** The body of the loop of [addFile], for one line of the file. *)
Definition addSourceLine (p : t) (s : string) : result t :=
  let s := strip s in
  '(p, s) ← (if startswith "#" s
             then p ← command p (sdrop 1 s); Ok (p, EmptyString)
             else Ok (p, s));
  let s := strip s in
  let s := processIdentifiers p s in
  match s with
  | EmptyString => Ok p
  | String c0 _ =>
      if is_digit c0 then
        '(g1, g2) ← orRaise AttributeError (match_lineNumber s);
        addLine p (Some (int g1)) g2
      else addLine p None s
  end.

Fixpoint addLines (p : t) (lines : list string) : result t :=
  match lines with
  | [] => Ok p
  | s :: lines' => p ← addSourceLine p s; addLines p lines'
  end.

(** [addFile], given the text of the file as the file object returns
    it, every line end being a line feed. *)
Definition addFile (p : t) (text : string) : result t :=
  addLines p (readlines text).

End WithTokens.

(** The loop of [makelibrary], on a budget of iterations: the code as
    the loop leaves it. *)
Fixpoint makelibraryLoop (fuel : nat) (code : list Z) (p : Z) : result (list Z) :=
  if p =? Z.of_nat (length code) then Ok code else
  match fuel with
  | O => OutOfFuel
  | S fuel' =>
      code ← setitem code (p + 1) 0;
      code ← setitem code (p + 2) 0;
      step ← getitem code p;
      makelibraryLoop fuel' code (p + step)
  end.

(** Make program a library *)
Definition makelibrary (p : t) : result t :=
  c ← makelibraryLoop (S (length (code p) + length (code p))) (code p) 0;
  Ok (mk (nextLine p) (lineStep p) c (store p) (identifiers p) (libraryMode p)).

(** [bytes(l)]: every element has to be a byte. *)
Definition bytes (l : list Z) : result (list Z) :=
  if forallb (fun b => (0 <=? b) && (b <? 256)) l then Ok l else Raise ValueError.

(** [render]: the bytes written to the file. *)
Definition render (p : t) : result (list Z) :=
  r ← IdentifierStore.render (store p);
  bytes (r ++ code p ++ [0]).

End Program.

(* ===================================================================== *)
(** * class ProgramLister *)
(* ===================================================================== *)

Module ProgramLister.

(** [self.bin[i]] *)
Definition at_ (bin : list Z) (i : nat) : result Z := orRaise IndexError (bin !! i).

(** [type]: a space is its own class, letters, digits and the underscore
    are ['I'], everything else is ['N']. *)
Definition type (c : ascii) : ascii :=
  let u := upper_char c in
  if ascii_dec u " "%char then u
  else if is_digit u || upper_is_letter c || bool_decide (u = "_"%char) then "I"%char
  else "N"%char.

(** [append], on the text of the line: the new text. *)
Definition append (text s : string) : result string :=
  match last text with
  | None => Ok (text +:+ s)
  | Some l =>
      match s with
      | EmptyString => Raise IndexError
      | String c _ =>
          if ascii_dec (type l) (type c)
          then Ok ((text +:+ " ") +:+ s)
          else Ok (text +:+ s)
      end
  end.

(** [decode]: the two digits of a packed byte, [0xF] standing for none. *)
Definition decode (d : Z) : string :=
  (if Z.land d 240 =? 240 then EmptyString else str (Z.shiftr d 4))
  +:+ (if Z.land d 15 =? 15 then EmptyString else str (Z.land d 15)).

(** [[self.bin[p+c] for c in range(0,n)]] *)
Fixpoint slice (bin : list Z) (p : nat) (n : nat) : result (list Z) :=
  match n with
  | O => Ok []
  | S n' => b ← at_ bin p; r ← slice bin (S p) n'; Ok (b :: r)
  end.

(** The name of an identifier, read from its first byte on: the bytes
    below 0x80, then the one that carries the end mark. *)
Fixpoint readName (rest : list Z) : result string :=
  match rest with
  | [] => Raise IndexError
  | b :: rest' =>
      if b <? 0x80 then name ← readName rest'; Ok (String (chr b) name)
      else Ok (String (chr (Z.land b 0x7F)) EmptyString)
  end.

Definition chars (l : list Z) : string :=
  fold_right (fun b s => String (chr b) s) EmptyString l.

Section WithImage.
Variable ts : TokenSet.t.
Variable bin : list Z.
Variable showLineNumbers : bool.

Definition getTokenID (name : string) : result Z := TokenSet.getTokenID ts name.

(** [listOneElement], from the text of the line so far and the
    position: the new text and the new position. *)
Definition listOneElement (text : string) (p : nat) : result (string * nat) :=
  n ← at_ bin p;
  if (0 <=? n) && (n <? 0x20) then
    lo ← at_ bin (p + 1);
    let va := Z.to_nat (Z.shiftl n 8 + lo + 5) in
    name ← readName (drop va bin);
    text ← append text (lower name);
    Ok (text, (p + 2)%nat)
  else
  str_id ← getTokenID "!!STR";
  if n =? str_id then
    len ← at_ bin (p + 1);
    body ← slice bin (p + 2) (Z.to_nat len);
    text ← append text (String dquote (chars body +:+ String dquote EmptyString));
    Ok (text, (p + Z.to_nat len + 2)%nat)
  else
  dec_id ← getTokenID "!!DEC";
  if n =? dec_id then
    len ← at_ bin (p + 1);
    body ← slice bin (p + 2) (Z.to_nat len);
    text ← append text (String "."%char (join (map decode body)));
    Ok (text, (p + Z.to_nat len + 2)%nat)
  else if (0x40 <=? n) && (n <? 0x80) then
    '(v, k) ← NumberCodec.decodeInteger 0 (drop p bin);
    text ← append text (str v);
    Ok (text, (p + k)%nat)
  else
  dollar ← getTokenID "$";   (* self.dollar *)
  if n =? dollar then
    text ← append text " $";
    '(v, k) ← NumberCodec.decodeInteger 0 (drop (p + 1) bin);
    text ← append text (hex v);
    Ok (text, (p + 1 + k)%nat)
  else if (0x80 <=? n) || ((0x20 <=? n) && (n <? 0x40)) then
    let p := (p + 1)%nat in
    sh1 ← getTokenID "!!SH1";
    '(n, p) ← (if n =? sh1 then b ← at_ bin p; Ok (b + 0x100, (p + 1)%nat)
               else Ok (n, p));
    sh2 ← getTokenID "!!SH2";
    '(n, p) ← (if n =? sh2 then b ← at_ bin p; Ok (b + 0x200, (p + 1)%nat)
               else Ok (n, p));
    tk ← orRaise AttributeError (TokenSet.getByID ts n);
    text ← append text (Token.getName tk);
    Ok (text, p)
  else
    b ← at_ bin p;
    Ok (text +:+ "[" +:+ hex02 b +:+ "]", (p + 1)%nat).

(** The loop of [listLine], on a budget of iterations. *)
Fixpoint listElements (fuel : nat) (text : string) (p : nat) : result string :=
  match fuel with
  | O => OutOfFuel
  | S fuel' =>
      b ← at_ bin p;
      e ← getTokenID "!!END";
      if b =? e then Ok text else
      '(text, p) ← listOneElement text p;
      listElements fuel' text p
  end.

(** [listLine]: the text of the line that starts at [lineStart].  Every
    element is at least one byte long, so the length of the image
    bounds their number. *)
Definition listLine (lineStart : nat) : result string :=
  text ← (if showLineNumbers
          then lo ← at_ bin (lineStart + 1);
               hi ← at_ bin (lineStart + 2);
               Ok (str (lo + hi * 256) +:+ " ")
          else Ok EmptyString);
  listElements (S (length bin)) text (lineStart + 3).

(** The loop of [list_code], on a budget of iterations; [listing] is
    [self.code_listing]. *)
Fixpoint listLines (fuel : nat) (listing : string) (code : nat) : result string :=
  match fuel with
  | O => OutOfFuel
  | S fuel' =>
      b ← at_ bin code;
      if b =? 0 then Ok listing else
      text ← listLine code;
      listLines fuel' (listing +:+ text +:+ String LF EmptyString)
                (code + Z.to_nat b)%nat
  end.

(** [list_code]: the listing.  Every line record is at least one byte
    long. *)
Definition list_code : result string :=
  pages ← at_ bin 0;
  listLines (S (length bin)) EmptyString (Z.to_nat (Z.shiftl pages 8)).

End WithImage.

End ProgramLister.

(* ===================================================================== *)
(** * Vocabulary of the statements *)
(* ===================================================================== *)

(** A byte that continues a constant in base 64. *)
Definition digit_byte (b : Z) : Prop := 64 <= b < 128.

(** What the loop of the lister accumulates over a run of digit bytes. *)
Definition accumulate (v : Z) (l : list Z) : Z :=
  fold_left (fun v b => Z.shiftl v 6 + b - 64) l v.

(** A name made of 7-bit characters, which is what the end mark in the
    top bit of the last byte presupposes. *)
Definition ascii_name (name : string) : Prop :=
  Forall (fun b => b < 128) (ords name).

(** [st'] holds every record and every name of [st], at the same place:
    only the page count in front may differ. *)
Definition grows (st st' : IdentifierStore.t) : Prop :=
  IdentifierStore.store st' <> [] /\
  (exists ext, tail (IdentifierStore.store st') = tail (IdentifierStore.store st) ++ ext) /\
  IdentifierStore.identifiers st ⊆ IdentifierStore.identifiers st'.

(** The records of A, O, P, X and Y, as [Program.__init__] leaves them
    behind the page count. *)
Definition seeded_records : list Z :=
  [7; 0; 0; 0; 0; 0; 0xC1;  7; 0; 0; 0; 0; 0; 0xCF;  7; 0; 0; 0; 0; 0; 0xD0;
   7; 0; 0; 0; 0; 0; 0xD8;  7; 0; 0; 0; 0; 0; 0xD9].

Definition seeded_pointers (st : IdentifierStore.t) : list (option Z) :=
  map (IdentifierStore.get st) ["A"; "O"; "P"; "X"; "Y"].

(** The store of a program in which thirteen more variables were used: its
    length is 127, the last offset of the first half page. *)
Definition store_at_127 : result IdentifierStore.t :=
  p ← Program.init;
  foldl (fun st name => st ← st; IdentifierStore.add st name) (Ok (Program.store p))
    (split "B C D E F G H I J K L M Q").

(** The store of a program in which thirty more variables were used: its
    length is 255, so the next record starts with bit 0x80 set. *)
Definition store_at_255 : result IdentifierStore.t :=
  p ← Program.init;
  foldl (fun st name => st ← st; IdentifierStore.add st name) (Ok (Program.store p))
    (split "B C D E F G H I J K L M N Q R S T U V W Z AA AB AC AD AE AF AG AH AI").

(** The store after the string variable a$ was added to an empty one. *)
Definition store_with_string : IdentifierStore.t :=
  IdentifierStore.mk [1; 8; 0; 0; 0; 0; 0x80; 65; 164] {[ "A$" := 2 ]}.

(** A string of the characters 0 to 9. *)
Definition digit_string (s : string) : Prop :=
  Forall (fun c => is_digit c = true) (list_ascii_of_string s).

(** The two halves of every byte, high half first. *)
Definition nibbles (l : list Z) : list Z :=
  flat_map (fun b => [Z.shiftr b 4; Z.land b 15]) l.

(** The identifiers of the control tokens, as [TokenSet.create] assigns
    them. *)
Record control_ids (ts : TokenSet.t) : Prop := {
  id_str : TokenSet.getTokenID ts "!!STR" = Ok 0x80;
  id_dollar : TokenSet.getTokenID ts "$" = Ok 0x81;
  id_end : TokenSet.getTokenID ts "!!END" = Ok 0xC0;
  id_sh1 : TokenSet.getTokenID ts "!!SH1" = Ok 0xC1;
  id_sh2 : TokenSet.getTokenID ts "!!SH2" = Ok 0xC2;
  id_dec : TokenSet.getTokenID ts "!!DEC" = Ok 0xC3
}.

(** The three classes [type] tells apart. *)
Inductive char_class := SpaceClass | IdentClass | OtherClass.

(** ASCII letter of either case, digit or underscore; and the sharp s,
    which [type] takes for a letter. *)
Definition ident_char (c : ascii) : bool :=
  is_alpha c || is_digit c || bool_decide (c = "_"%char) || (ord c =? 223).

Definition class_of (c : ascii) : char_class :=
  if bool_decide (c = " "%char) then SpaceClass
  else if ident_char c then IdentClass else OtherClass.

Definition class_letter (k : char_class) : ascii :=
  match k with
  | SpaceClass => " "%char
  | IdentClass => "I"%char
  | OtherClass => "N"%char
  end.

#[global] Instance char_class_eq_dec : EqDecision char_class.
Proof. solve_decision. Defined.

(** The source line PRINT followed by HI in double quotes. *)
Definition print_hi : string :=
  "PRINT " +:+ String dquote ("HI" +:+ String dquote EmptyString).

(** A name the pattern of [processIdentifiers] matches as a whole: a
    letter, then letters, digits, points and underscores. *)
Definition define_name (w : string) : Prop :=
  match w with
  | EmptyString => False
  | String c r =>
      is_alpha c = true /\
      Forall (fun x => Program.is_identchar x = true) (list_ascii_of_string r)
  end.

(** A replacement text that can stand in a string literal as it is: no
    double quote, no line feed. *)
Definition plain_text (s : string) : Prop :=
  Forall (fun c => c <> dquote /\ c <> LF) (list_ascii_of_string s).



(** A line record whose length byte is its length. *)
Definition exact_record (r : list Z) : Prop :=
  head r = Some (Z.of_nat (length r)).

(** What follows the last exact record when the chain of records runs off
    the end of the image: nothing at all, the final 0x00 being missing, or
    a record whose length byte leads to the end of the image or beyond. *)
Definition runs_off (rest : list Z) : Prop :=
  match rest with
  | [] => True
  | len :: _ => (length rest <= Z.to_nat len)%nat
  end.

(** The identifier region of a program that uses no variable of its own:
    one page. *)
Definition region_one_page : list Z := 1 :: seeded_records ++ replicate 220 0.

(** The line records of 10 A=5 and 20 A=6. *)
Definition record_a_is_5 : list Z := [8; 10; 0; 0; 2; 0x30; 0x45; 0xC0].
Definition record_a_is_6 : list Z := [8; 20; 0; 0; 2; 0x30; 0x46; 0xC0].

(** The image of the program of these two lines. *)
Definition two_line_image : list Z :=
  region_one_page ++ record_a_is_5 ++ record_a_is_6 ++ [0].

(** The bytes the tokeniser writes for the token of identifier [id]: the
    identifier itself below 0x100, and above that the shift token of its
    high byte followed by its low byte. *)
Definition token_bytes (id : Z) : list Z :=
  if id <? 0x100 then [id] else [0xC0 + Z.shiftr id 8; Z.land id 0xFF].

(** The identifiers the lister does not take for a plain token: !!STR, $,
    !!SH1, !!SH2 and !!DEC. *)
Definition is_control (id : Z) : bool :=
  (id =? 0x80) || (id =? 0x81) || (id =? 0xC1) || (id =? 0xC2) || (id =? 0xC3).

#[global] Instance token_eq_dec : EqDecision Token.t.
Proof. solve_decision. Defined.

(** What a table has to satisfy at every identifier: the token carries the
    identifier, which is a byte that starts neither a pointer nor a
    constant, or such a byte behind a shift; a name other than the empty
    one leads back to the token. *)
Definition check_id (ts : TokenSet.t) (id : Z) (tk : Token.t) : bool :=
  (Token.getID tk =? id) && (0x20 <=? id) && (id <? 0x300)
  && negb ((0x40 <=? id) && (id <? 0x80))
  && (is_empty (Token.getName tk)
      || bool_decide (TokenSet.getByName ts (Token.getName tk) = Some tk)).

(** What a table has to satisfy at every name: it is in lower case and has
    no white space around it, the token carries it, the identifier of the
    token leads back to the token, and a name that starts with a letter has
    an identifier from 0x80 on that is not a control token. *)
Definition check_name (ts : TokenSet.t) (name : string) (tk : Token.t) : bool :=
  bool_decide (lower (strip name) = name)
  && (is_empty name || bool_decide (Token.getName tk = name))
  && bool_decide (TokenSet.getByID ts (Token.getID tk) = Some tk)
  && match name with
     | String c _ =>
         negb (is_alpha c)
         || (0x80 <=? Token.getID tk) && negb (is_control (Token.getID tk))
     | EmptyString => true
     end.

Definition ids_ok (ts : TokenSet.t) : bool :=
  forallb (fun '(id, tk) => check_id ts id tk) (map_to_list (TokenSet.idToToken ts)).

Definition names_ok (ts : TokenSet.t) : bool :=
  forallb (fun '(name, tk) => check_name ts name tk) (map_to_list (TokenSet.nameToToken ts)).

(** A text without white space. *)
Definition no_space (s : string) : Prop :=
  Forall (fun c => is_space c = false) (list_ascii_of_string s).

(** A string of hexadecimal digits, of either case. *)
Definition hex_string (s : string) : Prop :=
  Forall (fun c => is_hexdigit c = true) (list_ascii_of_string s).

(** A number written as [str] and the hexadecimal format write it: no zero
    in front of another digit. *)
Definition no_leading_zero (s : string) : Prop :=
  match s with
  | String "0"%char (String _ _) => False
  | _ => True
  end.

(** The store after the names were added to [st], one after the other. *)
Fixpoint addAll (st : IdentifierStore.t) (names : list string) : result IdentifierStore.t :=
  match names with
  | [] => Ok st
  | name :: names' => st ← IdentifierStore.add st name; addAll st names'
  end.

(** Every pointer of the store is positive, and its name is read back from
    the pointer plus 5, which is where the lister starts, whatever the page
    count in front and whatever follows the store in the image. *)
Definition readable (st : IdentifierStore.t) : Prop :=
  IdentifierStore.store st <> [] /\
  forall key ptr,
    IdentifierStore.identifiers st !! key = Some ptr ->
    0 < ptr /\
    forall pages rest,
      ProgramLister.readName
        (drop (Z.to_nat (ptr + 5)) (pages :: tail (IdentifierStore.store st) ++ rest))
      = Ok key.

(** The page count that goes with a store of [len] bytes: one more for
    every half page the store has reached. *)
Definition pages_for (len : Z) : Z := (len + 128) / 256 + 1.

Definition paged (st : IdentifierStore.t) : Prop :=
  head (IdentifierStore.store st)
  = Some (pages_for (Z.of_nat (length (IdentifierStore.store st)))).

(** A name of [n] letters A. *)
Definition long_name (n : nat) : string := string_of_list_ascii (replicate n "A"%char).

(** [st'] is [st] after some names of 7-bit characters were added. *)
Definition extends (st st' : IdentifierStore.t) : Prop :=
  exists names, Forall ascii_name names /\ addAll st names = Ok st'.

(** A line record as [addLine] builds it: the length, the two bytes of the
    line number, the tokens, the end token. *)
Definition line_record (r : list Z) : Prop :=
  exists lo hi toks, r = Z.of_nat (length toks + 4) :: lo :: hi :: toks ++ [0xC0].

(** Where the records of a chain start, the first one at [start]. *)
Fixpoint offsets (start : nat) (records : list (list Z)) : list nat :=
  match records with
  | [] => []
  | r :: records' => start :: offsets (start + length r) records'
  end.

(** A line record with its line number set to zero. *)
Definition zero_number (r : list Z) : list Z := <[2%nat := 0]> (<[1%nat := 0]> r).

(** The record [add] appends for a name. *)
Definition name_record (name : string) (rec : list Z) : Prop :=
  exists b,
    IdentifierStore.markLast (ords (upper name)) = Ok b /\
    rec = slen (upper name) + 6 :: 0 :: 0 :: 0 :: 0
          :: IdentifierStore.controlByte (upper name) :: b.

(** The lines [dump] prints for the records of the names, the first of
    them at [pos]: the offset of the record in four hexadecimal digits, the
    control byte in two, the name in lower case. *)
Fixpoint dump_lines (pos : Z) (names : list string) : list string :=
  match names with
  | [] => []
  | name :: names' =>
      ("Record $" +:+ hexpad 4 pos +:+ " : $"
       +:+ hexpad 2 (IdentifierStore.controlByte (upper name)) +:+ " "
       +:+ lower (upper name))
      :: dump_lines (pos + (slen name + 6)) names'
  end.

(** A program with one define and nothing else. *)
Definition program_defining (key value : string) : Program.t :=
  Program.mk 100 10 [] IdentifierStore.init {[ key := value ]} false.

(** The program [p] after a define of [key] as [value]. *)
Definition defining (p : Program.t) (key value : string) : Program.t :=
  Program.mk (Program.nextLine p) (Program.lineStep p) (Program.code p) (Program.store p)
             (<[key := value]> (Program.identifiers p)) (Program.libraryMode p).

(** The identifiers on which the table has to be silent: the rest of the
    block of the operators, the end of the one-byte identifiers, and the
    two halves of the shifted blocks that [TokenSet.create] leaves
    alone. *)
Definition unused_ids : list Z :=
  seqZ 0x31 15 ++ seqZ 0xE8 24 ++ seqZ 0x100 128 ++ seqZ 0x1C7 57 ++ seqZ 0x200 128.

Definition unused_ok (ts : TokenSet.t) : bool :=
  forallb (fun id => match TokenSet.idToToken ts !! id with None => true | Some _ => false end)
          unused_ids.





(* ===================================================================== *)
(** * Proofs: integer constants *)
(* ===================================================================== *)

Section IntegerConstants.
Import NumberCodec.

Lemma low_digit_lor (n : Z) : Z.lor 64 (Z.land n 63) = 64 + n mod 64.
Proof.
  change 63 with (Z.ones 6). rewrite Z.land_ones by lia.
  change (2 ^ 6) with 64.
  assert (Hd : Z.land 64 (n mod 64) = 0).
  { apply Z.bits_inj'. intros i Hi. rewrite Z.land_spec, Z.bits_0.
    change 64 with (2 ^ 6). rewrite Z.pow2_bits_eqb by lia.
    destruct (Z.eqb_spec 6 i) as [<- | Hne]; [|reflexivity].
    rewrite Z.mod_pow2_bits_high by lia. reflexivity. }
  rewrite <- Z.lxor_lor by exact Hd.
  symmetry. apply Z.add_nocarry_lxor. exact Hd.
Qed.

Lemma low_digit_range (n : Z) : digit_byte (Z.lor 64 (Z.land n 63)).
Proof.
  rewrite low_digit_lor. unfold digit_byte.
  pose proof (Z.mod_pos_bound n 64). lia.
Qed.

Lemma renderConstant_unfold (n : Z) :
  renderConstant n =
    if Z_ge_dec n 64
    then renderConstant (Z.shiftr n 6) ++ [Z.lor 64 (Z.land n 63)]
    else [Z.lor 64 (Z.land n 63)].
Proof.
  rewrite renderConstant_equation_1. destruct (Z_ge_dec n 64); reflexivity.
Qed.

(** Induction along the recursion of [renderConstant]. *)
Lemma renderConstant_rect (P : Z -> list Z -> Prop) :
  (forall n, n < 64 -> P n [Z.lor 64 (Z.land n 63)]) ->
  (forall n, 64 <= n -> P (Z.shiftr n 6) (renderConstant (Z.shiftr n 6)) ->
             P n (renderConstant (Z.shiftr n 6) ++ [Z.lor 64 (Z.land n 63)])) ->
  forall n, P n (renderConstant n).
Proof.
  intros Hbase Hstep n.
  destruct (Z_lt_le_dec n 0) as [Hneg | Hpos].
  { rewrite renderConstant_unfold. destruct (Z_ge_dec n 64); [lia|].
    apply Hbase. lia. }
  revert n Hpos. apply (Z_lt_induction (fun n => P n (renderConstant n))).
  intros n IH. rewrite renderConstant_unfold.
  destruct (Z_ge_dec n 64) as [Hge | Hlt].
  - apply Hstep; [lia|]. apply IH.
    rewrite Z.shiftr_div_pow2 by lia. change (2 ^ 6) with 64.
    split; [apply Z.div_pos; lia | apply Z.div_lt; lia].
  - apply Hbase. lia.
Qed.

Lemma renderConstant_digits (n : Z) : Forall digit_byte (renderConstant n).
Proof.
  apply (renderConstant_rect (fun _ l => Forall digit_byte l)).
  - intros m _. constructor; [apply low_digit_range | constructor].
  - intros m _ IH. apply Forall_app. split; [exact IH|].
    constructor; [apply low_digit_range | constructor].
Qed.

Lemma renderConstant_nonempty (n : Z) : renderConstant n <> [].
Proof.
  rewrite renderConstant_unfold. destruct (Z_ge_dec n 64).
  - intros H. apply app_eq_nil in H as [_ H]. discriminate.
  - discriminate.
Qed.

Lemma accumulate_app v l1 l2 :
  accumulate v (l1 ++ l2) = accumulate (accumulate v l1) l2.
Proof. unfold accumulate. apply fold_left_app. Qed.

Lemma accumulate_renderConstant (n : Z) :
  0 <= n -> accumulate 0 (renderConstant n) = n.
Proof.
  apply (renderConstant_rect (fun n l => 0 <= n -> accumulate 0 l = n)).
  - intros m Hm Hpos. unfold accumulate. simpl. rewrite low_digit_lor.
    rewrite Z.mod_small by lia. rewrite Z.shiftl_0_l. lia.
  - intros m Hm IH Hpos. rewrite accumulate_app, IH.
    + unfold accumulate. simpl. rewrite low_digit_lor.
      rewrite Z.shiftl_mul_pow2, Z.shiftr_div_pow2 by lia.
      change (2 ^ 6) with 64. pose proof (Z.div_mod m 64 ltac:(lia)). lia.
    + apply Z.shiftr_nonneg. lia.
Qed.

Lemma decodeInteger_digits (l rest : list Z) (v : Z) :
  Forall digit_byte l ->
  decodeInteger v (l ++ rest) =
    '(v', k) ← decodeInteger (accumulate v l) rest; Ok (v', (length l + k)%nat).
Proof.
  intros Hl. revert v. induction Hl as [| b l Hb Hl IH]; intros v; simpl.
  - destruct (decodeInteger v rest) as [[v' k] | |]; reflexivity.
  - unfold digit_byte in Hb.
    replace ((64 <=? b) && (b <? 128)) with true
      by (symmetry; apply andb_true_iff; split; [apply Z.leb_le | apply Z.ltb_lt]; lia).
    rewrite IH. unfold accumulate; simpl.
    destruct (decodeInteger _ rest) as [[v' k] | |]; reflexivity.
Qed.

Lemma decodeInteger_stop (v b : Z) (rest : list Z) :
  ~ digit_byte b -> decodeInteger v (b :: rest) = Ok (v, O).
Proof.
  intros Hb. simpl.
  destruct ((64 <=? b) && (b <? 128)) eqn:E; [|reflexivity].
  apply andb_true_iff in E as [E1 E2].
  apply Z.leb_le in E1. apply Z.ltb_lt in E2. exfalso. apply Hb. split; assumption.
Qed.

End IntegerConstants.

(** C1. For every n with 0 <= n < 2^31 the bytes written by renderConstant
    are a non-empty run of bytes in [0x40,0x80), and the lister's loop, run
    on these bytes followed by any byte outside that range, consumes exactly
    them and accumulates n again. *)
Theorem C1_integer_round_trip (n b : Z) (rest : list Z) :
  0 <= n < 2 ^ 31 ->
  ~ digit_byte b ->
  NumberCodec.renderConstant n <> [] /\
  Forall digit_byte (NumberCodec.renderConstant n) /\
  NumberCodec.decodeInteger 0 (NumberCodec.renderConstant n ++ b :: rest)
    = Ok (n, length (NumberCodec.renderConstant n)).
Proof.
  intros Hn Hb. split; [apply renderConstant_nonempty|].
  split; [apply renderConstant_digits|].
  rewrite decodeInteger_digits by apply renderConstant_digits.
  rewrite accumulate_renderConstant by lia.
  rewrite decodeInteger_stop by assumption. simpl.
  rewrite Nat.add_0_r. reflexivity.
Qed.

Lemma C1_integer_round_trip_witness :
  NumberCodec.renderConstant 100 = [65; 100] /\
  NumberCodec.decodeInteger 0 (NumberCodec.renderConstant 100 ++ [192]) = Ok (100, 2%nat).
Proof.
  split; [reflexivity|].
  refine (proj2 (proj2 (C1_integer_round_trip 100 192 [] _ _))).
  - lia.
  - unfold digit_byte. lia.
Defined.

(* ===================================================================== *)
(** * Proofs: strings and the result type *)
(* ===================================================================== *)

Section Basics.

Lemma bind_Ok {A B} (m : result A) (f : A -> result B) (b : B) :
  m ≫= f = Ok b -> exists a, m = Ok a /\ f a = Ok b.
Proof. destruct m as [a | e |]; simpl; intros H; [eauto | discriminate..]. Qed.

Lemma Ok_bind {A B} (a : A) (f : A -> result B) : Ok a ≫= f = f a.
Proof. reflexivity. Qed.

Lemma assert_Ok (b : bool) (u : unit) : assert b = Ok u -> b = true.
Proof. destruct b; [reflexivity | discriminate]. Qed.

Lemma orRaise_Ok {A} (e : exn) (o : option A) (a : A) :
  orRaise e o = Ok a -> o = Some a.
Proof. destruct o; simpl; congruence. Qed.

Lemma sapp_nil_l (s : string) : EmptyString +:+ s = s.
Proof. reflexivity. Qed.

Lemma sapp_cons (c : ascii) (a b : string) : String c a +:+ b = String c (a +:+ b).
Proof. reflexivity. Qed.

Lemma sapp_nil_r (s : string) : s +:+ EmptyString = s.
Proof. induction s as [| c s IH]; [reflexivity | now rewrite sapp_cons, IH]. Qed.

Lemma sapp_assoc (a b c : string) : (a +:+ b) +:+ c = a +:+ (b +:+ c).
Proof. induction a as [| x a IH]; [reflexivity | now rewrite !sapp_cons, IH]. Qed.

Lemma slength_app (a b : string) :
  String.length (a +:+ b) = (String.length a + String.length b)%nat.
Proof.
  induction a as [| x a IH]; [reflexivity|].
  rewrite sapp_cons. simpl. now rewrite IH.
Qed.

Lemma length_ords (s : string) : length (ords s) = String.length s.
Proof. induction s as [| c s IH]; simpl; [reflexivity | now rewrite IH]. Qed.

Lemma length_smap f (s : string) : String.length (smap f s) = String.length s.
Proof. induction s as [| c s IH]; simpl; [reflexivity | now rewrite IH]. Qed.

Lemma ord_range (c : ascii) : 0 <= ord c < 256.
Proof.
  unfold ord. pose proof (N_ascii_bounded c) as H.
  split; [apply N2Z.is_nonneg | lia].
Qed.

Lemma chr_ord (c : ascii) : chr (ord c) = c.
Proof. unfold chr, ord. rewrite N2Z.id. apply ascii_N_embedding. Qed.

Lemma ord_chr (n : Z) : 0 <= n < 256 -> ord (chr n) = n.
Proof.
  intros H. unfold chr, ord. rewrite N_ascii_embedding by lia. lia.
Qed.

End Basics.

(** Take a successful monadic computation apart, binding by binding. *)
Ltac inv_ok H :=
  repeat match type of H with
  | (?m ≫= ?f) = Ok _ =>
      let a := fresh "a" in let Ha := fresh "Ha" in
      apply bind_Ok in H as (a & Ha & H)
  end.

(* ===================================================================== *)
(** * Proofs: the identifier store *)
(* ===================================================================== *)

Section IdentifierStoreFacts.
Import IdentifierStore.

Lemma upper_char_ascii (c : ascii) : ord c < 128 -> ord (upper_char c) < 128.
Proof.
  intros H. unfold upper_char, is_lower, between.
  destruct ((97 <=? ord c) && (ord c <=? 122)) eqn:E; [|exact H].
  apply andb_true_iff in E as [E1 E2].
  apply Z.leb_le in E1. apply Z.leb_le in E2.
  rewrite ord_chr by lia. lia.
Qed.

Lemma upper_ascii (name : string) : ascii_name name -> ascii_name (upper name).
Proof.
  unfold ascii_name. induction name as [| c s IH]; simpl; intros H; [constructor|].
  inversion H; subst. constructor; [now apply upper_char_ascii | now apply IH].
Qed.

Lemma markLast_length (b b' : list Z) : markLast b = Ok b' -> length b' = length b.
Proof.
  revert b'. induction b as [| x r IH]; intros b' H; [discriminate|].
  destruct r as [| y r].
  - simpl in H. injection H as <-. reflexivity.
  - change (markLast (x :: y :: r)) with (r' ← markLast (y :: r); Ok (x :: r')) in H.
    inv_ok H. injection H as <-. simpl. f_equal. now apply IH.
Qed.

Lemma lor_end_mark (x : Z) : 0 <= x < 128 -> Z.lor x 128 = x + 128.
Proof.
  intros Hx.
  assert (Hl : Z.land x 128 = 0).
  { change 128 with (2 ^ 7). apply Z.bits_inj'. intros i Hi.
    rewrite Z.land_spec, Z.bits_0, Z.pow2_bits_eqb by lia.
    destruct (Z.eqb_spec 7 i) as [<- | ?]; [|apply andb_false_r].
    rewrite andb_true_r. apply Z.bits_above_log2; [lia|].
    destruct (Z.eq_dec x 0) as [-> | ?]; [simpl; lia|].
    apply Z.log2_lt_pow2; lia. }
  rewrite <- Z.lxor_lor by exact Hl.
  symmetry. apply Z.add_nocarry_lxor. exact Hl.
Qed.

(** Reading a marked name back gives the name. *)
Lemma readName_markLast (name : string) (b rest : list Z) :
  ascii_name name ->
  markLast (ords name) = Ok b ->
  ProgramLister.readName (b ++ rest) = Ok name.
Proof.
  unfold ascii_name. revert b.
  induction name as [| c s IH]; intros b Hascii H; [discriminate|].
  inversion Hascii as [| ? ? Hc Hs]; subst.
  pose proof (ord_range c) as Hr.
  destruct s as [| d s].
  - simpl in H. injection H as <-. simpl.
    rewrite lor_end_mark by lia.
    replace (ord c + 128 <? 128) with false by (symmetry; apply Z.ltb_ge; lia).
    f_equal. f_equal. rewrite <- (chr_ord c) at 2. f_equal.
    change 127 with (Z.ones 7). rewrite Z.land_ones by lia.
    change (2 ^ 7) with 128.
    rewrite <- (Z.mul_1_l 128) at 1. rewrite Z.mod_add by lia.
    apply Z.mod_small. lia.
  - change (markLast (ords (String c (String d s))))
      with (r' ← markLast (ords (String d s)); Ok (ord c :: r')) in H.
    inv_ok H. injection H as <-. simpl.
    replace (ord c <? 128) with true by (symmetry; apply Z.ltb_lt; exact Hc).
    rewrite (IH a Hs Ha). simpl. rewrite chr_ord. reflexivity.
Qed.

(** The shape of the store after [add]: the record is appended, and only
    the page count in front may change. *)
Lemma add_shape (st st' : t) (name : string) :
  add st name = Ok st' ->
  exists b,
    markLast (ords (upper name)) = Ok b /\
    identifiers st !! upper name = None /\
    identifiers st' = <[upper name := Z.of_nat (length (store st)) + 1]> (identifiers st) /\
    let s := store st ++ slen (upper name) + 6 :: 0 :: 0 :: 0 :: 0 :: controlByte (upper name) :: b in
    let crossed := (Z.land (Z.of_nat (length (store st))) 0x80 =? 0)
                   && negb (Z.land (Z.of_nat (length s)) 0x80 =? 0) in
    if crossed
    then exists pages r, s = pages :: r /\ store st' = pages + 1 :: r
    else store st' = s.
Proof.
  unfold add. intros H. inv_ok H.
  apply assert_Ok, bool_decide_eq_true in Ha.
  exists a0. split; [exact Ha0|]. split; [exact Ha|].
  repeat rewrite <- app_assoc in H. simpl in H.
  destruct (_ && _) eqn:E.
  - inv_ok H. injection H as <-. simpl. split; [reflexivity|].
    destruct (store st ++ _) as [| pages r] eqn:Es; [discriminate|].
    simpl in Ha1. injection Ha1 as <-. eauto.
  - injection H as <-. simpl. split; reflexivity.
Qed.

(** What [add] leaves in the store, whichever way the page test goes:
    the length, the dictionary and every byte but the first. *)
Lemma add_result (st st' : t) (name : string) :
  add st name = Ok st' ->
  exists b pages pages',
    markLast (ords (upper name)) = Ok b /\
    identifiers st !! upper name = None /\
    identifiers st' = <[upper name := Z.of_nat (length (store st)) + 1]> (identifiers st) /\
    store st ++ slen (upper name) + 6 :: 0 :: 0 :: 0 :: 0 :: controlByte (upper name) :: b
      = pages :: tail (store st') /\
    store st' = pages' :: tail (store st') /\
    pages' = (if (Z.land (Z.of_nat (length (store st))) 0x80 =? 0)
                 && negb (Z.land (Z.of_nat (length (store st'))) 0x80 =? 0)
              then pages + 1 else pages).
Proof.
  intros H. apply add_shape in H as (b & Hb & Hfresh & Hids & H).
  cbv zeta in H.
  destruct (store st ++ _) as [| pages r] eqn:Es.
  { apply app_eq_nil in Es as [_ Es]. discriminate. }
  destruct (_ && _) eqn:E.
  - destruct H as (pages0 & r0 & Hs & Hst'). injection Hs as <- <-.
    exists b, pages, (pages + 1). rewrite Hst'.
    change (length (pages + 1 :: r)) with (length (pages :: r)).
    rewrite E. repeat split; auto.
  - exists b, pages, pages. rewrite H, E. repeat split; auto.
Qed.

Lemma add_length (st st' : t) (name : string) :
  add st name = Ok st' ->
  length (store st') = (length (store st) + 6 + String.length name)%nat.
Proof.
  intros H. apply add_result in H as (b & pages & pages' & Hb & _ & _ & Hs & Hst' & _).
  rewrite Hst'. apply (f_equal length) in Hs. simpl in *.
  rewrite length_app in Hs. simpl in Hs.
  apply markLast_length in Hb. rewrite length_ords in Hb.
  unfold upper in Hb. rewrite length_smap in Hb. lia.
Qed.

End IdentifierStoreFacts.

(** C2 (amended). The page count, the first byte of the store, starts at 1,
    and [add] increments it exactly when bit 0x80 of the length of the store
    is clear before the record is appended and set after it; an append that
    takes the bit from set to clear leaves the count as it is. *)
Theorem C2_page_count (st st' : IdentifierStore.t) (name : string) (pages : Z) :
  head (IdentifierStore.store st) = Some pages ->
  IdentifierStore.add st name = Ok st' ->
  let before := Z.of_nat (length (IdentifierStore.store st)) in
  let after := Z.of_nat (length (IdentifierStore.store st')) in
  head (IdentifierStore.store IdentifierStore.init) = Some 1 /\
  head (IdentifierStore.store st') =
    Some (if (Z.land before 0x80 =? 0) && negb (Z.land after 0x80 =? 0)
          then pages + 1 else pages).
Proof.
  intros Hhead Hadd before after. split; [reflexivity|].
  apply add_result in Hadd as (b & pg & pg' & _ & _ & _ & Hs & Hst' & Hpg).
  assert (Hh : head (IdentifierStore.store st') = Some pg') by (rewrite Hst'; reflexivity).
  rewrite Hh, Hpg. subst before after.
  destruct (IdentifierStore.store st) as [| x r] eqn:Est; [discriminate|].
  injection Hhead as ->. injection Hs as <- _. reflexivity.
Qed.

Lemma C2_page_count_witness :
  exists st st',
    store_at_127 = Ok st /\
    IdentifierStore.add st "N" = Ok st' /\
    length (IdentifierStore.store st) = 127%nat /\
    length (IdentifierStore.store st') = 134%nat /\
    head (IdentifierStore.store st) = Some 1 /\
    head (IdentifierStore.store st') = Some 2.
Proof.
  assert (H : exists st st',
             store_at_127 = Ok st /\
             IdentifierStore.add st "N" = Ok st' /\
             length (IdentifierStore.store st) = 127%nat /\
             length (IdentifierStore.store st') = 134%nat /\
             head (IdentifierStore.store st) = Some 1).
  { eexists _, _. split; [vm_compute; reflexivity|].
    split; [vm_compute; reflexivity|]. split; [vm_compute; reflexivity|].
    split; vm_compute; reflexivity. }
  destruct H as (st & st' & E0 & E1 & E2 & E3 & E4).
  pose proof (C2_page_count st st' "N" 1 E4 E1) as (_ & Hhd).
  rewrite E2, E3 in Hhd.
  exists st, st'. repeat (split; [assumption|]). exact Hhd.
Defined.

(** C2, as stated, fails: appending the record of AJ takes the length of
    the store from 255 (bit 0x80 set) to 263 (bit 0x80 clear), the bit
    differs, and the page count stays 2. *)
Lemma C2_counterexample :
  (st ← store_at_255;
   st' ← IdentifierStore.add st "AJ";
   Ok (length (IdentifierStore.store st), head (IdentifierStore.store st),
       length (IdentifierStore.store st'), head (IdentifierStore.store st')))
    = Ok (255%nat, Some 2, 263%nat, Some 2)
  /\ Z.land 255 0x80 <> Z.land 263 0x80.
Proof. split; [vm_compute; reflexivity | discriminate]. Qed.

Section PointerFormat.
Import IdentifierStore.

(** The two bytes the tokeniser writes for a pointer give the pointer
    back, and with it the address the lister starts reading at. *)
Lemma pointer_bytes (ptr : Z) :
  0 <= ptr -> Z.shiftl (Z.shiftr ptr 8) 8 + Z.land ptr 0xFF = ptr.
Proof.
  intros H. rewrite Z.shiftl_mul_pow2, Z.shiftr_div_pow2 by lia.
  change 0xFF with (Z.ones 8). rewrite Z.land_ones by lia.
  change (2 ^ 8) with 256. pose proof (Z.div_mod ptr 256 ltac:(lia)). lia.
Qed.

Lemma pointer_high_byte (ptr : Z) :
  0 <= ptr < 0x2000 -> 0 <= Z.shiftr ptr 8 < 0x20.
Proof.
  intros H. rewrite Z.shiftr_div_pow2 by lia. change (2 ^ 8) with 256.
  split; [apply Z.div_pos; lia | apply Z.div_lt_upper_bound; lia].
Qed.


End PointerFormat.

(* ===================================================================== *)
(** * Proofs: the store only grows *)
(* ===================================================================== *)

Section StoreGrowth.
Import IdentifierStore.

Lemma grows_refl (st : t) : store st <> [] -> grows st st.
Proof.
  intros H. split; [exact H|]. split; [|reflexivity].
  exists []. now rewrite app_nil_r.
Qed.

Lemma grows_trans (a b c : t) : grows a b -> grows b c -> grows a c.
Proof.
  intros (_ & [e1 H1] & S1) (Hc & [e2 H2] & S2).
  split; [exact Hc|]. split; [| now transitivity (identifiers b)].
  exists (e1 ++ e2). rewrite H2, H1. now rewrite app_assoc.
Qed.

Lemma add_grows (st st' : t) (name : string) :
  store st <> [] -> add st name = Ok st' -> grows st st'.
Proof.
  intros Hne H.
  apply add_result in H as (b & pg & pg' & _ & Hfresh & Hids & Hs & Hst' & _).
  split; [rewrite Hst'; discriminate|]. split.
  - destruct (store st) as [| x r]; [congruence|].
    injection Hs as _ Hs. rewrite <- Hs. simpl. eauto.
  - rewrite Hids. now apply insert_subseteq.
Qed.

Lemma grows_get (st st' : t) (name : string) (ptr : Z) :
  grows st st' -> get st name = Some ptr -> get st' name = Some ptr.
Proof.
  intros (_ & _ & Hsub) H. unfold get in *.
  eapply lookup_weaken; eassumption.
Qed.

Section WithTokens.
Variable ts : TokenSet.t.

(** One step of the tokeniser touches the store through [add] only. *)
Lemma tokeniseOne_store (tw tw' : Tokeniser.t) (s r : string) :
  Tokeniser.tokeniseOne ts tw s = Ok (tw', r) ->
  Tokeniser.iStore tw' = Tokeniser.iStore tw \/
  exists name, add (Tokeniser.iStore tw) name = Ok (Tokeniser.iStore tw').
Proof.
  unfold Tokeniser.tokeniseOne. intros H.
  destruct s as [| c0 s1]; [discriminate|].
  repeat match type of H with
         | (if ?b then _ else _) = _ => destruct b eqn:?
         | (match ?x with _ => _ end) = _ => destruct x eqn:?
         | (?m ≫= _) = Ok _ =>
             let a := fresh "a" in let Ha := fresh "Ha" in
             apply bind_Ok in H as (a & Ha & H)
         | Ok _ = Ok _ => injection H as <- <-
         | Raise _ = Ok _ => discriminate H
         | OutOfFuel = Ok _ => discriminate H
         end;
    try (left; reflexivity).
  all: simpl.
  all: repeat match goal with
         | Hx : (if ?b then _ else _) = Ok _ |- _ => destruct b eqn:?
         | Hx : (?m ≫= _) = Ok _ |- _ =>
             let a := fresh "a" in let Ha := fresh "Ha" in
             apply bind_Ok in Hx as (a & Ha & Hx)
         | Hx : Ok _ = Ok _ |- _ => injection Hx as <-
         end;
    try (left; reflexivity); try (right; eauto).
Qed.

Lemma tokeniseOne_grows (tw tw' : Tokeniser.t) (s r : string) :
  store (Tokeniser.iStore tw) <> [] ->
  Tokeniser.tokeniseOne ts tw s = Ok (tw', r) ->
  grows (Tokeniser.iStore tw) (Tokeniser.iStore tw').
Proof.
  intros Hne H. apply tokeniseOne_store in H as [-> | [name H]].
  - now apply grows_refl.
  - now apply add_grows in H.
Qed.

Lemma tokeniseLoop_unfold (fuel : nat) (tw : Tokeniser.t) (s : string) :
  Tokeniser.tokeniseLoop ts fuel tw s =
    if is_empty s || startswith "//" s then Ok tw else
    match fuel with
    | O => OutOfFuel
    | S fuel' =>
        '(tw, s) ← Tokeniser.tokeniseOne ts tw s;
        Tokeniser.tokeniseLoop ts fuel' tw (strip s)
    end.
Proof. destruct fuel; reflexivity. Qed.

Lemma tokeniseLoop_grows (fuel : nat) (tw tw' : Tokeniser.t) (s : string) :
  store (Tokeniser.iStore tw) <> [] ->
  Tokeniser.tokeniseLoop ts fuel tw s = Ok tw' ->
  grows (Tokeniser.iStore tw) (Tokeniser.iStore tw').
Proof.
  revert tw s. induction fuel as [| fuel IH]; intros tw s Hne H;
    rewrite tokeniseLoop_unfold in H;
    (destruct (is_empty s || startswith "//" s);
     [injection H as <-; now apply grows_refl|]).
  - discriminate.
  - apply bind_Ok in H as ([tw1 r] & H1 & H).
    pose proof (tokeniseOne_grows _ _ _ _ Hne H1) as G1.
    eapply grows_trans; [exact G1|].
    eapply IH; [|exact H]. apply G1.
Qed.

Lemma tokenise_grows (st st' : t) (s : string) (toks : list Z) :
  store st <> [] ->
  Tokeniser.tokenise ts st s = Ok (st', toks) ->
  grows st st'.
Proof.
  unfold Tokeniser.tokenise. intros Hne H.
  apply bind_Ok in H as (tw & Hl & H). injection H as <- <-.
  apply (tokeniseLoop_grows _ (Tokeniser.mk st []) _ _ Hne Hl).
Qed.

Lemma addLine_grows (p p' : Program.t) (number : option Z) (text : string) :
  store (Program.store p) <> [] ->
  Program.addLine ts p number text = Ok p' ->
  grows (Program.store p) (Program.store p').
Proof.
  unfold Program.addLine. intros Hne H.
  destruct (is_empty (strip text)).
  { injection H as <-. now apply grows_refl. }
  apply bind_Ok in H as ([st toks] & Ht & H).
  apply bind_Ok in H as (e & _ & H). injection H as <-. simpl.
  apply (tokenise_grows _ _ _ _ Hne Ht).
Qed.

Lemma command_store (p p' : Program.t) (c : string) :
  Program.command p c = Ok p' -> Program.store p' = Program.store p.
Proof.
  unfold Program.command. intros H.
  destruct (startswith "define" c).
  { destruct (find_char " " (strip (sdrop 6 c))); simpl in H;
      injection H as <-; reflexivity. }
  destruct (string_dec c "library"); [injection H as <-; reflexivity|].
  destruct (string_dec c "nolibrary"); [injection H as <-; reflexivity|].
  discriminate.
Qed.

Lemma addSourceLine_grows (p p' : Program.t) (s : string) :
  store (Program.store p) <> [] ->
  Program.addSourceLine ts p s = Ok p' ->
  grows (Program.store p) (Program.store p').
Proof.
  unfold Program.addSourceLine. intros Hne H.
  apply bind_Ok in H as ([p1 s1] & H1 & H).
  assert (Hst : Program.store p1 = Program.store p).
  { destruct (startswith "#" (strip s)).
    - apply bind_Ok in H1 as (p2 & Hc & H1). injection H1 as <- _.
      apply (command_store _ _ _ Hc).
    - injection H1 as <- _. reflexivity. }
  rewrite <- Hst in *.
  destruct (Program.processIdentifiers p1 (strip s1)) as [| c0 s2].
  { injection H as <-. now apply grows_refl. }
  destruct (is_digit c0).
  - apply bind_Ok in H as ([g1 g2] & _ & H). now apply addLine_grows in H.
  - now apply addLine_grows in H.
Qed.

Lemma addLines_grows (lines : list string) (p p' : Program.t) :
  store (Program.store p) <> [] ->
  Program.addLines ts p lines = Ok p' ->
  grows (Program.store p) (Program.store p').
Proof.
  revert p. induction lines as [| s lines IH]; intros p Hne H; simpl in H.
  - injection H as <-. now apply grows_refl.
  - apply bind_Ok in H as (p1 & H1 & H).
    pose proof (addSourceLine_grows _ _ _ Hne H1) as G1.
    eapply grows_trans; [exact G1|]. apply IH; [apply G1 | exact H].
Qed.

(** The variable A, once in the store, is tokenised as its pointer, and
    nothing is added. *)
Lemma tokenise_variable_A (st : t) (ptr : Z) :
  TokenSet.getByName ts "A" = None ->
  get st "A" = Some ptr ->
  Tokeniser.tokenise ts st "A" = Ok (st, [Z.shiftr ptr 8; Z.land ptr 0xFF]).
Proof.
  intros Hnot Hget.
  unfold Tokeniser.tokenise. change (strip "A") with "A".
  change (String.length "A") with 1%nat.
  unfold Tokeniser.tokeniseLoop.
  change (is_empty "A" || startswith "//" "A") with false. cbv iota.
  unfold Tokeniser.tokeniseOne.
  change (is_digit "A") with false. cbv iota.
  destruct (ascii_dec "A" "$") as [E|_]; [discriminate E|].
  destruct (ascii_dec "A" dquote) as [E|_]; [discriminate E|].
  destruct (ascii_dec "A" "'") as [E|_]; [discriminate E|].
  change (upper_is_letter "A") with true. cbv iota.
  change (Tokeniser.match_word "A") with (Some ("A", EmptyString)).
  simpl orRaise. simpl mbind. rewrite Hnot.
  cbn [Tokeniser.iStore Tokeniser.code]. rewrite Hget, Ok_bind.
  cbn [Tokeniser.iStore]. rewrite Hget. reflexivity.
Qed.

End WithTokens.

End StoreGrowth.

Lemma init_seeded (p0 : Program.t) :
  Program.init = Ok p0 ->
  IdentifierStore.store (Program.store p0) = 1 :: seeded_records /\
  seeded_pointers (Program.store p0) = [Some 2; Some 9; Some 16; Some 23; Some 30].
Proof.
  intros H. vm_compute in H. injection H as <-.
  split; vm_compute; reflexivity.
Qed.

Lemma grows_pointers (st st' : IdentifierStore.t) (l : list (option Z)) :
  grows st st' ->
  Forall is_Some l ->
  seeded_pointers st = l -> seeded_pointers st' = l.
Proof.
  unfold seeded_pointers. intros G Hl H.
  revert l Hl H.
  induction ["A"; "O"; "P"; "X"; "Y"] as [| n ns IH]; intros l Hl H; simpl in *.
  - exact H.
  - destruct l as [| o l]; [discriminate|]. injection H as <- <-.
    inversion Hl as [| ? ? [ptr Hp] Hl']; subst.
    rewrite (grows_get _ _ _ _ G Hp), Hp. f_equal. now apply IH.
Qed.

(** C9. Whatever the source text, the image of a program that was built
    and rendered begins, after the page count, with the records of A, O, P,
    X and Y that the constructor added, A has pointer 2 (and the others 9,
    16, 23 and 30), and a line that uses the variable A is tokenised as the
    pointer 2 without a record being added. *)
Theorem C9_seeded_identifiers (text : string) (p0 p : Program.t) (img : list Z) :
  Program.init = Ok p0 ->
  Program.addFile TokenSet.tokens p0 text = Ok p ->
  Program.render p = Ok img ->
  (exists pages rest, img = pages :: seeded_records ++ rest) /\
  seeded_pointers (Program.store p) = [Some 2; Some 9; Some 16; Some 23; Some 30] /\
  Tokeniser.tokenise TokenSet.tokens (Program.store p) "A" = Ok (Program.store p, [0; 2]).
Proof.
  intros Hinit Hadd Hrender.
  apply init_seeded in Hinit as [Hst0 Hptr0].
  assert (G : grows (Program.store p0) (Program.store p)).
  { apply (addLines_grows TokenSet.tokens _ _ _ ltac:(rewrite Hst0; discriminate) Hadd). }
  pose proof (grows_pointers _ _ [Some 2; Some 9; Some 16; Some 23; Some 30] G
                ltac:(repeat constructor; eauto) Hptr0) as Hptr.
  split; [| split; [exact Hptr|]].
  - destruct G as (Hne & [ext Hext] & _).
    unfold Program.render, IdentifierStore.render in Hrender.
    apply bind_Ok in Hrender as (r0 & Hr & Hrender).
    apply bind_Ok in Hr as (pg & _ & Hr). injection Hr as <-.
    unfold Program.bytes in Hrender.
    destruct (forallb _ _); [|discriminate]. injection Hrender as <-.
    destruct (IdentifierStore.store (Program.store p)) as [| pages r]; [congruence|].
    simpl in Hext. rewrite Hst0 in Hext. simpl in Hext. subst r.
    exists pages. eexists. simpl. rewrite <- !app_assoc. reflexivity.
  - apply (tokenise_variable_A TokenSet.tokens (Program.store p) 2).
    + vm_compute. reflexivity.
    + unfold seeded_pointers in Hptr. simpl in Hptr. now injection Hptr.
Qed.

Lemma C9_seeded_identifiers_witness :
  exists p0 p img,
    Program.init = Ok p0 /\
    Program.addFile TokenSet.tokens p0 "10 PRINT 1" = Ok p /\
    Program.render p = Ok img /\
    (exists pages rest, img = pages :: seeded_records ++ rest) /\
    Tokeniser.tokenise TokenSet.tokens (Program.store p) "A" = Ok (Program.store p, [0; 2]).
Proof.
  assert (H : exists p0 p img,
             Program.init = Ok p0 /\
             Program.addFile TokenSet.tokens p0 "10 PRINT 1" = Ok p /\
             Program.render p = Ok img).
  { eexists _, _, _.
    split; [vm_compute; reflexivity|].
    split; vm_compute; reflexivity. }
  destruct H as (p0 & p & img & E0 & E1 & E2).
  pose proof (C9_seeded_identifiers _ _ _ _ E0 E1 E2) as (Himg & _ & Htok).
  exists p0, p, img. auto.
Defined.

(* ===================================================================== *)
(** * Proofs: decimal fractions *)
(* ===================================================================== *)

Section Fractions.
Import Tokeniser.

Lemma string_pair_ind (P : string -> Prop) :
  P EmptyString ->
  (forall c, P (String c EmptyString)) ->
  (forall c d s, P s -> P (String c (String d s))) ->
  forall s, P s.
Proof.
  intros H0 H1 H2 s.
  assert (H : P s /\ forall c, P (String c s)).
  { induction s as [| d s [IH1 IH2]]; [split; auto|].
    split; [apply IH2|]. intros c. apply H2. exact IH1. }
  apply H.
Qed.

Lemma small_cases (k : Z) :
  0 <= k <= 9 ->
  k = 0 \/ k = 1 \/ k = 2 \/ k = 3 \/ k = 4 \/ k = 5 \/ k = 6 \/ k = 7 \/ k = 8 \/ k = 9.
Proof. lia. Qed.

(** The ten digits, one by one. *)
Lemma digit_cases (c : ascii) :
  is_digit c = true -> exists k, 0 <= k <= 9 /\ c = chr (48 + k).
Proof.
  intros H. unfold is_digit, between in H. apply andb_true_iff in H as [H1 H2].
  apply Z.leb_le in H1. apply Z.leb_le in H2.
  exists (ord c - 48). split; [lia|].
  replace (48 + (ord c - 48)) with (ord c) by lia. symmetry. apply chr_ord.
Qed.

Ltac each_digit c H :=
  let k := fresh "k" in let Hk := fresh "Hk" in
  apply digit_cases in H as (k & Hk & ->);
  apply small_cases in Hk;
  destruct Hk as [-> | [-> | [-> | [-> | [-> | [-> | [-> | [-> | [-> | ->]]]]]]]]].

Lemma digit_value_range (c : ascii) : is_digit c = true -> 0 <= digit_value c <= 9.
Proof. intros H. each_digit c H; vm_compute; split; discriminate. Qed.

Lemma decode_pair (c d : ascii) :
  is_digit c = true -> is_digit d = true ->
  ProgramLister.decode (digit_value c * 16 + digit_value d) = String c (String d EmptyString).
Proof. intros Hc Hd. each_digit c Hc; each_digit d Hd; vm_compute; reflexivity. Qed.

Lemma decode_last (c : ascii) :
  is_digit c = true ->
  ProgramLister.decode (digit_value c * 16 + 15) = String c EmptyString.
Proof. intros Hc. each_digit c Hc; vm_compute; reflexivity. Qed.

Lemma nibbles_pair (hi lo : Z) :
  0 <= hi < 16 -> 0 <= lo < 16 ->
  Z.shiftr (hi * 16 + lo) 4 = hi /\ Z.land (hi * 16 + lo) 15 = lo.
Proof.
  intros Hhi Hlo. rewrite Z.shiftr_div_pow2 by lia.
  change 15 with (Z.ones 4). rewrite Z.land_ones by lia. change (2 ^ 4) with 16.
  split.
  - rewrite Z.div_add_l by lia. rewrite Z.div_small by lia. lia.
  - rewrite Z.add_comm, Z.mod_add by lia. apply Z.mod_small. lia.
Qed.

Lemma fractionDigits_pair (c d : ascii) (s : string) :
  fractionDigits (String c (String d s))
  = digit_value c :: digit_value d :: fractionDigits s.
Proof.
  unfold fractionDigits. simpl list_ascii_of_string. simpl map.
  rewrite <- !app_comm_cons. simpl length.
  change (Nat.even (S (S ?n))) with (Nat.even n).
  destruct (Nat.even _); reflexivity.
Qed.

(** What [encodeFraction] produces for a string of digits, two digits at
    a time: the packed bytes, their number, their halves and their
    decoding. *)
Lemma packDigits_fraction (s : string) :
  digit_string s ->
  exists packed,
    packDigits (fractionDigits s) = Ok packed /\
    length packed = (String.length s / 2 + 1)%nat /\
    length (fractionDigits s) = (2 * length packed)%nat /\
    nibbles packed = map digit_value (list_ascii_of_string s)
                       ++ (if Nat.even (String.length s) then [15; 15] else [15]) /\
    join (map ProgramLister.decode packed) = s.
Proof.
  unfold digit_string.
  induction s as [| c | c d s IH] using string_pair_ind; intros Hs.
  - exists [255]. repeat split; reflexivity.
  - inversion Hs as [| ? ? Hc _]; subst.
    exists [digit_value c * 16 + 15]. split; [reflexivity|].
    split; [reflexivity|]. split; [reflexivity|]. split.
    + unfold nibbles. simpl.
      pose proof (digit_value_range c Hc) as Hr.
      destruct (nibbles_pair (digit_value c) 15) as [-> ->]; [lia | lia | reflexivity].
    + simpl. rewrite decode_last by exact Hc. reflexivity.
  - simpl list_ascii_of_string in Hs.
    inversion Hs as [| ? ? Hc Hs']; subst. inversion Hs' as [| ? ? Hd Hs'']; subst.
    destruct (IH Hs'') as (packed & Hp & Hlen & Hfd & Hnib & Hdec).
    exists (digit_value c * 16 + digit_value d :: packed).
    rewrite fractionDigits_pair.
    split; [simpl; rewrite Hp; reflexivity|].
    split.
    { simpl length. rewrite Hlen.
      replace (String.length (String c (String d s)))
        with (String.length s + 1 * 2)%nat by (simpl; lia).
      rewrite Nat.div_add by lia. lia. }
    split; [simpl length; rewrite Hfd; simpl; lia|].
    split.
    + unfold nibbles in *. simpl flat_map. rewrite Hnib.
      pose proof (digit_value_range c Hc) as Hrc.
      pose proof (digit_value_range d Hd) as Hrd.
      destruct (nibbles_pair (digit_value c) (digit_value d)) as [-> ->]; [lia | lia |].
      reflexivity.
    + simpl map. simpl join. rewrite Hdec, decode_pair by assumption. reflexivity.
Qed.

End Fractions.

(** The length byte is the number of packed bytes. *)
Lemma encodeFraction_length_byte (s : string) :
  digit_string s ->
  forall packed,
    Tokeniser.packDigits (Tokeniser.fractionDigits s) = Ok packed ->
    length packed = (String.length s / 2 + 1)%nat ->
    Tokeniser.encodeFraction s = Ok (Z.of_nat (String.length s / 2 + 1) :: packed) /\
    length (Tokeniser.fractionDigits s) = (2 * length packed)%nat.
Proof.
  intros Hs packed Hp Hlen.
  destruct (packDigits_fraction s Hs) as (packed' & Hp' & _ & Hfd & _).
  rewrite Hp in Hp'. injection Hp' as <-. split; [| exact Hfd].
  unfold Tokeniser.encodeFraction. rewrite Hp. simpl. f_equal. f_equal.
  rewrite Hfd, Hlen, Z.shiftr_div_pow2 by lia. change (2 ^ 1) with 2.
  rewrite Nat2Z.inj_mul. change (Z.of_nat 2) with 2.
  rewrite Z.mul_comm, Z.div_mul by lia. reflexivity.
Qed.

(** C4 (amended). For a string of n digits, [encodeFraction] gives the
    length byte n div 2 + 1 and as many packed bytes, whose halves are the
    digits followed by the sentinel 15, which is always written, and by a
    second 15 when n is even. *)
Theorem C4_fraction_encoding (s : string) :
  digit_string s ->
  exists packed,
    Tokeniser.encodeFraction s = Ok (Z.of_nat (String.length s / 2 + 1) :: packed) /\
    length packed = (String.length s / 2 + 1)%nat /\
    nibbles packed = map digit_value (list_ascii_of_string s)
                       ++ (if Nat.even (String.length s) then [15; 15] else [15]).
Proof.
  intros Hs.
  destruct (packDigits_fraction s Hs) as (packed & Hp & Hlen & Hfd & Hnib & _).
  exists packed. split; [| split; assumption].
  apply (encodeFraction_length_byte s Hs packed Hp Hlen).
Qed.

Lemma C4_fraction_encoding_witness :
  exists packed,
    Tokeniser.encodeFraction "123" = Ok (2 :: packed) /\
    length packed = 2%nat /\ nibbles packed = [1; 2; 3; 15].
Proof.
  apply (C4_fraction_encoding "123"). repeat constructor.
Defined.

(** C4, as stated, fails: for the two digits 12 the sentinel is written all
    the same, twice, and the length byte is 2. *)
Lemma C4_counterexample :
  Tokeniser.encodeFraction "12" = Ok [2; 0x12; 0xFF] /\
  Tokeniser.encodeFraction "12" <> Ok [1; 0x12].
Proof. split; [reflexivity | discriminate]. Qed.

(* ===================================================================== *)
(** * Proofs: the lister, element by element *)
(* ===================================================================== *)

Section ListerFacts.
Import ProgramLister.

Lemma at_app (pre post : list Z) (b : Z) :
  at_ (pre ++ b :: post) (length pre) = Ok b.
Proof.
  unfold at_. rewrite lookup_app_r by lia. rewrite Nat.sub_diag. reflexivity.
Qed.

Lemma slice_app (l pre post : list Z) :
  slice (pre ++ l ++ post) (length pre) (length l) = Ok l.
Proof.
  revert pre. induction l as [| x l IH]; intros pre; [reflexivity|].
  simpl slice. change ((x :: l) ++ post) with (x :: l ++ post).
  rewrite at_app. simpl.
  replace (pre ++ x :: l ++ post) with ((pre ++ [x]) ++ l ++ post)
    by (rewrite <- app_assoc; reflexivity).
  replace (S (length pre)) with (length (pre ++ [x])) by (rewrite length_app; simpl; lia).
  rewrite IH. reflexivity.
Qed.

Lemma tokens_control_ids : control_ids TokenSet.tokens.
Proof. split; vm_compute; reflexivity. Qed.

Section WithTokens.
Variable ts : TokenSet.t.
Hypothesis Hids : control_ids ts.

(** A decimal fraction in the image: the token, the length byte, the
    packed bytes. *)
Lemma listOneElement_fraction (pre packed post : list Z) (text : string) :
  listOneElement ts (pre ++ 0xC3 :: Z.of_nat (length packed) :: packed ++ post)
                 text (length pre)
  = (text' ← append text (String "." (join (map decode packed)));
     Ok (text', (length pre + length packed + 2)%nat)).
Proof.
  unfold listOneElement. rewrite at_app. rewrite Ok_bind.
  change ((0 <=? 195) && (195 <? 32)) with false. cbv iota.
  unfold getTokenID. rewrite (id_str _ Hids), Ok_bind.
  change (195 =? 128) with false. cbv iota.
  rewrite (id_dec _ Hids), Ok_bind.
  change (195 =? 195) with true. cbv iota.
  replace (pre ++ 195 :: Z.of_nat (length packed) :: packed ++ post)
    with ((pre ++ [195]) ++ Z.of_nat (length packed) :: packed ++ post)
    by (rewrite <- app_assoc; reflexivity).
  replace (length pre + 1)%nat with (length (pre ++ [195]))
    by (rewrite length_app; reflexivity).
  rewrite at_app, Ok_bind, Nat2Z.id.
  replace ((pre ++ [195]) ++ Z.of_nat (length packed) :: packed ++ post)
    with ((pre ++ [195; Z.of_nat (length packed)]) ++ packed ++ post)
    by (rewrite <- !app_assoc; reflexivity).
  replace (length pre + 2)%nat with (length (pre ++ [195; Z.of_nat (length packed)]))
    by (rewrite length_app; reflexivity).
  rewrite slice_app, Ok_bind. reflexivity.
Qed.

End WithTokens.

End ListerFacts.

(* ===================================================================== *)
(** * Proofs: spacing of the listing *)
(* ===================================================================== *)

Section Spacing.
Import ProgramLister.

Lemma type_class (c : ascii) : type c = class_letter (class_of c).
Proof. destruct c as [[] [] [] [] [] [] [] []]; vm_compute; reflexivity. Qed.

Lemma class_letter_inj (j k : char_class) : class_letter j = class_letter k -> j = k.
Proof. destruct j, k; simpl; intros H; try reflexivity; discriminate H. Qed.

Lemma type_eq_class (l c : ascii) : type l = type c <-> class_of l = class_of c.
Proof.
  rewrite !type_class. split; [apply class_letter_inj | intros ->; reflexivity].
Qed.

Section WithTokens.
Variable ts : TokenSet.t.
Hypothesis Hids : control_ids ts.

(** The hexadecimal marker is rendered as a fragment of its own that
    starts with a space; the constant follows as another fragment. *)
Lemma listOneElement_dollar (pre post : list Z) (text : string) :
  listOneElement ts (pre ++ 0x81 :: post) text (length pre)
  = (text ← append text " $";
     '(v, k) ← NumberCodec.decodeInteger 0 post;
     text ← append text (hex v);
     Ok (text, (length pre + 1 + k)%nat)).
Proof.
  unfold listOneElement. rewrite at_app, Ok_bind.
  change ((0 <=? 129) && (129 <? 32)) with false. cbv iota.
  unfold getTokenID. rewrite (id_str _ Hids), Ok_bind.
  change (129 =? 128) with false. cbv iota.
  rewrite (id_dec _ Hids), Ok_bind.
  change (129 =? 195) with false. cbv iota.
  change ((64 <=? 129) && (129 <? 128)) with false. cbv iota.
  rewrite (id_dollar _ Hids), Ok_bind.
  change (129 =? 129) with true. cbv iota.
  replace (drop (length pre + 1) (pre ++ 129 :: post)) with post.
  - reflexivity.
  - replace (pre ++ 129 :: post) with ((pre ++ [129]) ++ post)
      by (rewrite <- app_assoc; reflexivity).
    rewrite drop_app_length'; [reflexivity | rewrite length_app; reflexivity].
Qed.

End WithTokens.

End Spacing.

(** C5 (amended). [append] puts a single space between the text so far and
    the new fragment exactly when the text is not empty and its last
    character and the first character of the fragment are of the same
    class, the classes being the space, the identifier characters (ASCII
    letter of either case, digit, underscore, and the sharp s, whose upper
    case SS compares as a letter) and all other characters: two
    punctuation fragments are separated as two identifier fragments are.
    In every other case the fragment is appended as it is.  The fragment of
    the token $ is a space followed by $, whatever precedes it. *)
Theorem C5_fragment_spacing (text rest : string) (c : ascii) :
  ProgramLister.append text (String c rest) =
    Ok (match Py.last text with
        | Some l =>
            if decide (class_of l = class_of c)
            then (text +:+ " ") +:+ String c rest
            else text +:+ String c rest
        | None => text +:+ String c rest
        end)
  /\ (Py.last text = None <-> text = EmptyString)
  /\ (forall pre post text',
        ProgramLister.listOneElement TokenSet.tokens (pre ++ 0x81 :: post) text' (length pre)
        = (text' ← ProgramLister.append text' " $";
           '(v, k) ← NumberCodec.decodeInteger 0 post;
           text' ← ProgramLister.append text' (hex v);
           Ok (text', (length pre + 1 + k)%nat))).
Proof.
  split; [| split].
  - unfold ProgramLister.append. destruct (Py.last text) as [l |]; [|reflexivity].
    destruct (ascii_dec _ _) as [E | E]; destruct (decide _) as [D | D];
      try reflexivity; apply type_eq_class in E || apply type_eq_class in D; contradiction.
  - split; [| intros ->; reflexivity].
    destruct text as [| x r]; [reflexivity|]. intros H. exfalso.
    revert x H. induction r as [| y r IH]; intros x H; [discriminate|].
    apply (IH y). exact H.
  - intros pre post text'. apply (listOneElement_dollar _ tokens_control_ids).
Qed.

(** C5, as stated, fails.  Between the fragments = and - , neither of them
    of the identifier class, a space is inserted; and the fragment of $
    brings a leading space of its own.  Both show in the listing of the
    program whose two lines are A=-5 and A=$FF. *)
Lemma C5_counterexample :
  ProgramLister.append "a=" "-" = Ok "a= -" /\
  ident_char "=" = false /\ ident_char "-" = false /\
  (p ← Program.init;
   p ← Program.addFile TokenSet.tokens p ("10 A=-5" +:+ String LF "20 A=$FF");
   image ← Program.render p;
   ProgramLister.list_code TokenSet.tokens image true)
  = Ok ("10 a= -5" +:+ String LF ("20 a= $ff" +:+ String LF EmptyString)).
Proof.
  split; [vm_compute; reflexivity|]. split; [vm_compute; reflexivity|].
  split; vm_compute; reflexivity.
Qed.

(* ===================================================================== *)
(** * Proofs: a line, tokenised *)
(* ===================================================================== *)

Lemma create_tokens : TokenSet.create = Ok TokenSet.tokens.
Proof.
  assert (H : match TokenSet.create with Ok _ => true | _ => false end = true)
    by (vm_compute; reflexivity).
  unfold TokenSet.tokens. destruct TokenSet.create; [reflexivity | discriminate H..].
Qed.

(** C8. The line PRINT followed by HI in double quotes is tokenised as
    the five bytes id(PRINT),
    id(!!STR), 2, 'H', 'I': the table, built block after block, gives !!STR
    the identifier 0x80 and PRINT the identifier 0xC6, below 0x100, so no
    shift byte is written. *)
Theorem C8_print_hi (st : IdentifierStore.t) :
  TokenSet.create = Ok TokenSet.tokens /\
  TokenSet.getTokenID TokenSet.tokens "PRINT" = Ok 0xC6 /\
  TokenSet.getTokenID TokenSet.tokens "!!STR" = Ok 0x80 /\
  Tokeniser.tokenise TokenSet.tokens st print_hi
    = Ok (st, [0xC6; 0x80; 2; ord "H"; ord "I"]).
Proof.
  split; [exact create_tokens|]. split; [vm_compute; reflexivity|].
  split; vm_compute; reflexivity.
Qed.

(* ===================================================================== *)
(** * Proofs: define substitution *)
(* ===================================================================== *)

Section DefineSubstitution.
Import Program.

Lemma splitGo_nonempty (w : bool) (s : string) : splitGo w s <> [].
Proof.
  destruct s as [| c r]; simpl; [destruct w; discriminate|].
  destruct w; [destruct (is_identchar c) | destruct (is_alpha c)];
    try discriminate; destruct (splitGo _ r); discriminate.
Qed.

Lemma consFirst_app (c : ascii) (l k : list string) :
  l <> [] -> consFirst c (l ++ k) = consFirst c l ++ k.
Proof. destruct l; [congruence | reflexivity]. Qed.

Lemma alpha_identchar (c : ascii) : is_alpha c = true -> is_identchar c = true.
Proof. unfold is_identchar. intros ->. reflexivity. Qed.

(** Inside a name the scan goes on to the end of the name. *)
Lemma splitGo_name_tail (r : string) (q : ascii) (post : string) :
  Forall (fun x => is_identchar x = true) (list_ascii_of_string r) ->
  is_identchar q = false ->
  splitGo true (r +:+ String q post) = r :: splitGo false (String q post).
Proof.
  intros Hr Hq. assert (Hqa : is_alpha q = false).
  { destruct (is_alpha q) eqn:E; [|reflexivity].
    apply alpha_identchar in E. congruence. }
  induction r as [| c r IH].
  - rewrite sapp_nil_l. simpl. rewrite Hq, Hqa. reflexivity.
  - simpl in Hr. inversion Hr as [| ? ? Hc Hr']; subst.
    rewrite sapp_cons. simpl splitGo at 1. rewrite Hc, (IH Hr'). reflexivity.
Qed.

Lemma splitGo_name (w : string) (q : ascii) (post : string) :
  define_name w ->
  is_identchar q = false ->
  splitGo false (w +:+ String q post) = EmptyString :: w :: splitGo false (String q post).
Proof.
  intros Hw Hq. destruct w as [| c r]; [destruct Hw|]. destruct Hw as [Hc Hr].
  rewrite sapp_cons. simpl splitGo at 1.
  rewrite Hc, (splitGo_name_tail _ _ _ Hr Hq). reflexivity.
Qed.

Lemma not_identchar_not_alpha (q : ascii) : is_identchar q = false -> is_alpha q = false.
Proof.
  intros Hq. destruct (is_alpha q) eqn:E; [|reflexivity].
  apply alpha_identchar in E. congruence.
Qed.

(** A name between two characters that cannot be part of a name is a
    piece of its own, whatever comes before and after. *)
Lemma splitGo_delimited (pre : string) (inword : bool) (w : string) (a b : ascii)
      (post : string) :
  define_name w ->
  is_identchar a = false ->
  is_identchar b = false ->
  splitGo inword (pre +:+ String a (w +:+ String b post))
  = splitGo inword (pre +:+ String a EmptyString) ++ w :: splitGo false (String b post).
Proof.
  intros Hw Ha Hb. pose proof (not_identchar_not_alpha a Ha) as Haa.
  revert inword. induction pre as [| c pre IH]; intros inword.
  - rewrite !sapp_nil_l. simpl splitGo at 1 2.
    rewrite Ha, Haa, (splitGo_name _ _ _ Hw Hb).
    destruct inword; reflexivity.
  - rewrite !sapp_cons. simpl splitGo at 1 2.
    destruct inword; [destruct (is_identchar c) | destruct (is_alpha c)];
      rewrite IH, consFirst_app by apply splitGo_nonempty; reflexivity.
Qed.


Lemma until_quote_plain (body rest : string) :
  plain_text body ->
  Tokeniser.until_quote (body +:+ String dquote rest) = Some (body, rest).
Proof.
  unfold plain_text. induction body as [| c body IH]; intros H.
  - rewrite sapp_nil_l. simpl. destruct (ascii_dec dquote dquote); [reflexivity | congruence].
  - simpl in H. inversion H as [| ? ? [Hq Hlf] H']; subst.
    rewrite sapp_cons. simpl.
    destruct (ascii_dec c dquote); [congruence|].
    destruct (ascii_dec c LF); [congruence|].
    rewrite (IH H'). reflexivity.
Qed.

(** A string literal is tokenised as the string token, the length and
    the characters. *)
Lemma tokeniseOne_string (ts : TokenSet.t) (tw : Tokeniser.t) (id : Z) (body rest : string) :
  TokenSet.getTokenID ts "!!str" = Ok id ->
  plain_text body ->
  Tokeniser.tokeniseOne ts tw (String dquote (body +:+ String dquote rest))
  = Ok (Tokeniser.mk (Tokeniser.iStore tw) (Tokeniser.code tw ++ id :: slen body :: ords body),
        dot_star (lstrip rest)).
Proof.
  intros Hid Hbody. unfold Tokeniser.tokeniseOne.
  change (is_digit dquote) with false. cbv iota.
  destruct (ascii_dec dquote "$") as [E | _]; [discriminate E|].
  destruct (ascii_dec dquote dquote) as [_ | E]; [| congruence].
  unfold Tokeniser.getTokenID. rewrite Hid, Ok_bind.
  unfold Tokeniser.match_string.
  destruct (ascii_dec dquote dquote) as [_ | E]; [| congruence].
  rewrite (until_quote_plain _ _ Hbody). simpl.
  unfold Tokeniser.emit. simpl. rewrite <- !app_assoc. reflexivity.
Qed.

End DefineSubstitution.

(* ===================================================================== *)
(** * Proofs: the lister always returns or raises *)
(* ===================================================================== *)

Section ListerProgress.
Import ProgramLister.

Variable ts : TokenSet.t.
Variable bin : list Z.
Variable showLineNumbers : bool.

Lemma at_drop (p : nat) (n : Z) :
  at_ bin p = Ok n -> drop p bin = n :: drop (S p) bin.
Proof. intros H. apply orRaise_Ok in H. now apply drop_S. Qed.

Lemma at_length (p : nat) (n : Z) : at_ bin p = Ok n -> (p < length bin)%nat.
Proof. intros H. apply orRaise_Ok in H. now apply lookup_lt_Some in H. Qed.

Lemma at_beyond (p : nat) : (length bin <= p)%nat -> at_ bin p = Raise IndexError.
Proof. intros H. unfold at_. now rewrite lookup_ge_None_2. Qed.

Lemma at_fuel (p : nat) : at_ bin p <> OutOfFuel.
Proof. unfold at_. destruct (bin !! p); discriminate. Qed.

Lemma getTokenID_fuel (name : string) : getTokenID ts name <> OutOfFuel.
Proof.
  unfold getTokenID, TokenSet.getTokenID.
  destruct (TokenSet.getByName ts name); discriminate.
Qed.

Lemma append_fuel (text s : string) : append text s <> OutOfFuel.
Proof.
  unfold append. destruct (Py.last text); [|discriminate].
  destruct s; [discriminate|]. destruct (ascii_dec _ _); discriminate.
Qed.

Lemma slice_fuel (p n : nat) : slice bin p n <> OutOfFuel.
Proof.
  revert p. induction n as [| n IH]; intros p; simpl; [discriminate|].
  destruct (at_ bin p) eqn:E; [| discriminate | now apply at_fuel in E].
  rewrite Ok_bind. destruct (slice bin (S p) n) eqn:E'; [discriminate.. |].
  now apply IH in E'.
Qed.

Lemma readName_fuel (rest : list Z) : readName rest <> OutOfFuel.
Proof.
  induction rest as [| b rest IH]; simpl; [discriminate|].
  destruct (b <? 128); [|discriminate].
  destruct (readName rest); [discriminate.. | congruence].
Qed.

Lemma decodeInteger_fuel (v : Z) (rest : list Z) :
  NumberCodec.decodeInteger v rest <> OutOfFuel.
Proof.
  revert v. induction rest as [| b rest IH]; intros v; simpl; [discriminate|].
  destruct ((64 <=? b) && (b <? 128)); [|discriminate].
  destruct (NumberCodec.decodeInteger _ rest) as [[v' k] | |] eqn:E;
    [discriminate.. |]. now apply IH in E.
Qed.

(** A constant that starts with a digit byte is at least one byte long. *)
Lemma decodeInteger_progress (n v v' : Z) (rest : list Z) (k : nat) :
  (64 <=? n) && (n <? 128) = true ->
  NumberCodec.decodeInteger v (n :: rest) = Ok (v', k) -> (0 < k)%nat.
Proof.
  intros Hn H. simpl in H. rewrite Hn in H.
  apply bind_Ok in H as ([v1 k1] & _ & H). injection H as _ <-. lia.
Qed.

(** Every element moves the position forward. *)
Lemma listOneElement_progress (text text' : string) (p p' : nat) :
  listOneElement ts bin text p = Ok (text', p') -> (p < p')%nat.
Proof.
  unfold listOneElement. intros H.
  apply bind_Ok in H as (n & Hn & H).
  destruct ((0 <=? n) && (n <? 32)).
  { inv_ok H. injection H as _ <-. lia. }
  apply bind_Ok in H as (str_id & _ & H).
  destruct (n =? str_id).
  { inv_ok H. injection H as _ <-. lia. }
  apply bind_Ok in H as (dec_id & _ & H).
  destruct (n =? dec_id).
  { inv_ok H. injection H as _ <-. lia. }
  destruct ((64 <=? n) && (n <? 128)) eqn:Hdigit.
  { apply bind_Ok in H as ([v k] & Hk & H). inv_ok H. injection H as _ <-.
    rewrite (at_drop _ _ Hn) in Hk.
    pose proof (decodeInteger_progress _ _ _ _ _ Hdigit Hk). lia. }
  apply bind_Ok in H as (dollar & _ & H).
  destruct (n =? dollar).
  { apply bind_Ok in H as (t1 & _ & H).
    apply bind_Ok in H as ([v k] & _ & H). inv_ok H. injection H as _ <-. lia. }
  destruct ((128 <=? n) || (32 <=? n) && (n <? 64)).
  - apply bind_Ok in H as (sh1 & _ & H).
    apply bind_Ok in H as ([n1 p1] & H1 & H).
    apply bind_Ok in H as (sh2 & _ & H).
    apply bind_Ok in H as ([n2 p2] & H2 & H).
    inv_ok H. injection H as _ <-.
    assert (p + 1 <= p1)%nat.
    { destruct (n =? sh1); [inv_ok H1; injection H1 as _ <- | injection H1 as _ <-]; lia. }
    assert (p1 <= p2)%nat.
    { destruct (n1 =? sh2); [inv_ok H2; injection H2 as _ <- | injection H2 as _ <-]; lia. }
    lia.
  - inv_ok H. injection H as _ <-. lia.
Qed.

Lemma bind_fuel {A B} (m : result A) (f : A -> result B) :
  m <> OutOfFuel -> (forall a, f a <> OutOfFuel) -> m ≫= f <> OutOfFuel.
Proof. intros Hm Hf. destruct m; [apply Hf | discriminate | congruence]. Qed.

(** No element uses up a budget: there is none. *)
Lemma listOneElement_fuel (text : string) (p : nat) :
  listOneElement ts bin text p <> OutOfFuel.
Proof.
  unfold listOneElement.
  repeat first
    [ discriminate
    | apply at_fuel | apply getTokenID_fuel | apply append_fuel
    | apply slice_fuel | apply readName_fuel | apply decodeInteger_fuel
    | match goal with
      | |- orRaise _ ?o <> _ => destruct o; discriminate
      | |- (if ?b then _ else _) <> _ => destruct b
      | |- (let '(a, b) := ?x in _) <> _ => destruct x
      | |- (?m ≫= _) <> OutOfFuel => apply bind_fuel; [| intros ?]
      end ].
Qed.

Lemma listElements_unfold (fuel : nat) (text : string) (p : nat) :
  listElements ts bin fuel text p =
    match fuel with
    | O => OutOfFuel
    | S fuel' =>
        b ← at_ bin p;
        e ← getTokenID ts "!!END";
        if b =? e then Ok text else
        '(text, p) ← listOneElement ts bin text p;
        listElements ts bin fuel' text p
    end.
Proof. destruct fuel; reflexivity. Qed.

(** The budget of [listLine] is never used up. *)
Lemma listElements_fuel (fuel : nat) (text : string) (p : nat) :
  (length bin - p < fuel)%nat -> listElements ts bin fuel text p <> OutOfFuel.
Proof.
  revert text p. induction fuel as [| fuel IH]; intros text p Hf; [lia|].
  rewrite listElements_unfold.
  destruct (at_ bin p) as [b | e |] eqn:Hb; [| discriminate | now apply at_fuel in Hb].
  rewrite Ok_bind. pose proof (at_length _ _ Hb) as Hp.
  destruct (getTokenID ts "!!END") as [e | e |] eqn:He;
    [| discriminate | now apply getTokenID_fuel in He].
  rewrite Ok_bind. destruct (b =? e); [discriminate|].
  destruct (listOneElement ts bin text p) as [[text' p'] | e' |] eqn:H1.
  - rewrite Ok_bind. apply listOneElement_progress in H1. apply IH. lia.
  - discriminate.
  - now apply listOneElement_fuel in H1.
Qed.

Lemma listLine_fuel (lineStart : nat) :
  listLine ts bin showLineNumbers lineStart <> OutOfFuel.
Proof.
  unfold listLine.
  destruct showLineNumbers.
  - destruct (at_ bin (lineStart + 1)) eqn:E1; [| discriminate | now apply at_fuel in E1].
    rewrite Ok_bind.
    destruct (at_ bin (lineStart + 2)) eqn:E2; [| discriminate | now apply at_fuel in E2].
    rewrite !Ok_bind. apply listElements_fuel. lia.
  - rewrite Ok_bind. apply listElements_fuel. lia.
Qed.

Lemma listLines_unfold (fuel : nat) (listing : string) (code : nat) :
  listLines ts bin showLineNumbers fuel listing code =
    match fuel with
    | O => OutOfFuel
    | S fuel' =>
        b ← at_ bin code;
        if b =? 0 then Ok listing else
        text ← listLine ts bin showLineNumbers code;
        listLines ts bin showLineNumbers fuel'
                  (listing +:+ text +:+ String LF EmptyString) (code + Z.to_nat b)%nat
    end.
Proof. destruct fuel; reflexivity. Qed.

(** Nor is the budget of [list_code], the image being made of bytes. *)
Lemma listLines_fuel (fuel : nat) (listing : string) (code : nat) :
  Forall (fun b => 0 <= b < 256) bin ->
  (length bin - code < fuel)%nat ->
  listLines ts bin showLineNumbers fuel listing code <> OutOfFuel.
Proof.
  intros Hbytes. revert listing code.
  induction fuel as [| fuel IH]; intros listing code Hf; [lia|].
  rewrite listLines_unfold.
  destruct (at_ bin code) as [b | e |] eqn:Hb; [| discriminate | now apply at_fuel in Hb].
  rewrite Ok_bind. pose proof (at_length _ _ Hb) as Hp.
  destruct (Z.eqb_spec b 0) as [| Hnz]; [discriminate|].
  destruct (listLine ts bin showLineNumbers code) as [text | e |] eqn:Hl;
    [| discriminate | now apply listLine_fuel in Hl].
  rewrite Ok_bind. apply IH.
  apply orRaise_Ok in Hb. rewrite Forall_lookup in Hbytes.
  specialize (Hbytes _ _ Hb). lia.
Qed.

Lemma list_code_fuel :
  Forall (fun b => 0 <= b < 256) bin ->
  list_code ts bin showLineNumbers <> OutOfFuel.
Proof.
  intros Hbytes. unfold list_code.
  destruct (at_ bin 0) as [pages | e |] eqn:E; [| discriminate | now apply at_fuel in E].
  rewrite Ok_bind. apply listLines_fuel; [exact Hbytes | lia].
Qed.

End ListerProgress.

(* ===================================================================== *)
(** * Proofs: images whose chain of line records runs off the end *)
(* ===================================================================== *)

Section RunsOff.
Import ProgramLister.

Variable ts : TokenSet.t.
Variable showLineNumbers : bool.

Lemma listLines_runs_off (records : list (list Z)) (rest : list Z) :
  Forall exact_record records ->
  runs_off rest ->
  forall (fuel : nat) (listing : string) (pre : list Z),
    (length (concat records ++ rest) < fuel)%nat ->
    exists e,
      listLines ts (pre ++ concat records ++ rest) showLineNumbers fuel listing (length pre)
      = Raise e.
Proof.
  intros Hrec Hrest. induction Hrec as [| r rs Hr Hrs IH]; intros fuel listing pre Hf.
  - simpl concat in *. rewrite app_nil_l in *.
    destruct fuel as [| fuel]; [lia|]. rewrite listLines_unfold.
    destruct rest as [| len rest'].
    { rewrite app_nil_r, at_beyond by lia. eauto. }
    rewrite at_app, Ok_bind. simpl in Hrest, Hf.
    destruct (Z.eqb_spec len 0) as [-> | Hnz]; [simpl in Hrest; lia|].
    destruct (listLine ts (pre ++ len :: rest') showLineNumbers (length pre))
      as [text | e |] eqn:Hl; [| eauto | now apply listLine_fuel in Hl].
    rewrite Ok_bind. destruct fuel as [| fuel]; [lia|]. rewrite listLines_unfold.
    rewrite at_beyond by (rewrite length_app; simpl; lia). eauto.
  - destruct r as [| len r']; [discriminate Hr|].
    unfold exact_record in Hr. simpl in Hr. injection Hr as Hlen.
    simpl concat in *.
    change ((len :: r' ++ concat rs) ++ rest) with (len :: (r' ++ concat rs) ++ rest) in *.
    rewrite <- (app_assoc r') in *.
    destruct fuel as [| fuel]; [lia|]. rewrite listLines_unfold.
    rewrite at_app, Ok_bind.
    destruct (Z.eqb_spec len 0) as [-> | Hnz]; [lia|].
    destruct (listLine ts _ showLineNumbers (length pre))
      as [text | e |] eqn:Hl; [| eauto | now apply listLine_fuel in Hl].
    rewrite Ok_bind.
    replace (pre ++ len :: r' ++ concat rs ++ rest)
      with ((pre ++ len :: r') ++ concat rs ++ rest)
      by (rewrite <- app_assoc; reflexivity).
    replace (length pre + Z.to_nat len)%nat with (length (pre ++ len :: r'))
      by (rewrite length_app; simpl; lia).
    apply IH. simpl in Hf. rewrite !length_app in *. simpl in Hf. lia.
Qed.

End RunsOff.

(** C6 (amended). The lister has no decode error of its own and checks
    only that each read is inside the image.  When the chain of line
    records runs off the end of the image, the final 0x00 being missing or
    a length byte leading to the end or beyond, [list_code] raises an
    exception and gives no listing; it never exhausts its budget. *)
Theorem C6_chain_runs_off (showLineNumbers : bool) (pages : Z) (region : list Z)
        (records : list (list Z)) (rest : list Z) :
  head region = Some pages ->
  length region = Z.to_nat (Z.shiftl pages 8) ->
  Forall exact_record records ->
  runs_off rest ->
  exists e,
    ProgramLister.list_code TokenSet.tokens (region ++ concat records ++ rest) showLineNumbers
    = Raise e.
Proof.
  intros Hhead Hlen Hrec Hrest. unfold ProgramLister.list_code.
  destruct region as [| x region']; [discriminate|]. injection Hhead as ->.
  change (ProgramLister.at_ ((pages :: region') ++ concat records ++ rest) 0) with (Ok pages).
  rewrite Ok_bind, <- Hlen.
  apply listLines_runs_off; [assumption.. |].
  rewrite !length_app. simpl. lia.
Qed.

Lemma C6_chain_runs_off_witness :
  (p ← Program.init; p ← Program.addFile TokenSet.tokens p "10 A=5"; Program.render p)
    = Ok (region_one_page ++ record_a_is_5 ++ [0]) /\
  (exists e, ProgramLister.list_code TokenSet.tokens
               (region_one_page ++ concat [record_a_is_5] ++ []) true = Raise e) /\
  (exists e, ProgramLister.list_code TokenSet.tokens
               (region_one_page ++ concat [] ++ [200; 10; 0; 0; 2; 0x30; 0x45; 0xC0; 0]) true
             = Raise e).
Proof.
  split; [vm_compute; reflexivity|]. split.
  - apply (C6_chain_runs_off true 1 region_one_page [record_a_is_5] []).
    + reflexivity.
    + reflexivity.
    + repeat constructor.
    + exact I.
  - apply (C6_chain_runs_off true 1 region_one_page []
             [200; 10; 0; 0; 2; 0x30; 0x45; 0xC0; 0]).
    + reflexivity.
    + reflexivity.
    + constructor.
    + simpl. lia.
Defined.

(** C6, as stated, fails: a corrupt image is listed without any error when
    its reads stay inside the buffer.  With the length byte of the first
    record of the two-line image changed from 8 to 16 the second line is
    skipped in silence; with the pointer of the first line changed from 2
    to 3, which is the pointer of no record, a name is made up from the
    bytes of the record of O. *)
Lemma C6_counterexample :
  (p ← Program.init;
   p ← Program.addFile TokenSet.tokens p ("10 A=5" +:+ String LF "20 A=6");
   Program.render p) = Ok two_line_image /\
  ProgramLister.list_code TokenSet.tokens two_line_image true
    = Ok ("10 a=5" +:+ String LF ("20 a=6" +:+ String LF EmptyString)) /\
  ProgramLister.list_code TokenSet.tokens (<[256%nat := 16]> two_line_image) true
    = Ok ("10 a=5" +:+ String LF EmptyString) /\
  ProgramLister.list_code TokenSet.tokens (<[260%nat := 3]> two_line_image) true
    = Ok ("10 " +:+ ProgramLister.chars [7; 0; 0; 0; 0; 0] +:+ "o=5"
          +:+ String LF ("20 a=6" +:+ String LF EmptyString)).
Proof.
  split; [vm_compute; reflexivity|]. split; [vm_compute; reflexivity|].
  split; vm_compute; reflexivity.
Qed.

(* ===================================================================== *)
(** * Proofs: the tokeniser always returns or raises *)
(* ===================================================================== *)

Section StringLengths.

Lemma span_length (f : ascii -> bool) (s : string) :
  (String.length (fst (span f s)) + String.length (snd (span f s)))%nat = String.length s.
Proof.
  induction s as [| c s IH]; [reflexivity|]. simpl.
  destruct (f c); [| reflexivity]. destruct (span f s) as [a b]. simpl in *. lia.
Qed.

Lemma span_rest_shorter (f : ascii -> bool) (s a b : string) :
  span f s = (a, b) -> is_empty a = false -> (String.length b < String.length s)%nat.
Proof.
  intros H Ha. pose proof (span_length f s) as Hl. rewrite H in Hl. simpl in Hl.
  destruct a; [discriminate | simpl in Hl; lia].
Qed.

Lemma span_rest_length (f : ascii -> bool) (s : string) :
  (String.length (snd (span f s)) <= String.length s)%nat.
Proof. pose proof (span_length f s). lia. Qed.

Lemma lstrip_length (s : string) : (String.length (lstrip s) <= String.length s)%nat.
Proof. apply span_rest_length. Qed.

Lemma rstrip_length (s : string) : (String.length (rstrip s) <= String.length s)%nat.
Proof.
  induction s as [| c s IH]; [reflexivity|]. simpl.
  destruct (is_empty (rstrip s) && is_space c); simpl; lia.
Qed.

Lemma strip_length (s : string) : (String.length (strip s) <= String.length s)%nat.
Proof.
  unfold strip. pose proof (rstrip_length (lstrip s)). pose proof (lstrip_length s). lia.
Qed.

Lemma dot_star_length (s : string) : (String.length (dot_star s) <= String.length s)%nat.
Proof.
  induction s as [| c s IH]; [reflexivity|]. simpl.
  destruct (ascii_dec c LF); simpl; lia.
Qed.

Lemma dot_star_end_length (s r : string) :
  dot_star_end s = Some r -> (String.length r <= String.length s)%nat.
Proof.
  revert r. induction s as [| c s IH]; intros r H; simpl in H.
  - injection H as <-. reflexivity.
  - destruct (ascii_dec c LF).
    + destruct (is_empty s); [injection H as <-; simpl; lia | discriminate].
    + destruct (dot_star_end s) as [r' |]; [| discriminate].
      injection H as <-. specialize (IH r' eq_refl). simpl. lia.
Qed.

Lemma sdrop_length (n : nat) (s : string) :
  String.length (sdrop n s) = (String.length s - n)%nat.
Proof.
  revert s. induction n as [| n IH]; intros s; [simpl; lia|].
  destruct s as [| c s]; [reflexivity|]. simpl. apply IH.
Qed.

End StringLengths.

Section TokeniserTotal.
Import Tokeniser.

Lemma match_number_shorter (s g1 g2 : string) :
  match_number s = Some (g1, g2) -> (String.length g2 < String.length s)%nat.
Proof.
  unfold match_number. destruct (span is_digit s) as [d r] eqn:Hs.
  destruct (is_empty d) eqn:Hd; [discriminate|].
  destruct (dot_star_end (lstrip r)) as [g |] eqn:Hg; [| discriminate].
  intros H. injection H as _ <-.
  pose proof (span_rest_shorter _ _ _ _ Hs Hd).
  pose proof (dot_star_end_length _ _ Hg). pose proof (lstrip_length r). lia.
Qed.

Lemma match_fraction_shorter (s g1 g2 : string) :
  match_fraction s = Some (g1, g2) -> (String.length g2 < String.length s)%nat.
Proof.
  unfold match_fraction. destruct s as [| c r]; [discriminate|].
  destruct (ascii_dec c ".") as [-> | Hc].
  - destruct (span is_digit r) as [d r'] eqn:Hs.
    destruct (is_empty d); [discriminate|].
    intros H. injection H as _ <-.
    pose proof (span_rest_length is_digit r) as Hl. rewrite Hs in Hl. simpl in Hl.
    pose proof (dot_star_length (lstrip r')). pose proof (lstrip_length r'). simpl. lia.
  - destruct c as [[] [] [] [] [] [] [] []]; try discriminate. congruence.
Qed.

Lemma match_hex_shorter (s g1 g2 : string) :
  match_hex s = Some (g1, g2) -> (String.length g2 < String.length s)%nat.
Proof.
  unfold match_hex. destruct s as [| c r]; [discriminate|].
  destruct (ascii_dec c "$") as [-> | Hc].
  - destruct (span is_hexdigit r) as [d r'] eqn:Hs.
    destruct (is_empty d); [discriminate|].
    destruct (dot_star_end (lstrip r')) as [g |] eqn:Hg; [| discriminate].
    intros H. injection H as _ <-.
    pose proof (span_rest_length is_hexdigit r) as Hl. rewrite Hs in Hl. simpl in Hl.
    pose proof (dot_star_end_length _ _ Hg). pose proof (lstrip_length r'). simpl. lia.
  - destruct c as [[] [] [] [] [] [] [] []]; try discriminate. congruence.
Qed.

Lemma until_quote_shorter (s a b : string) :
  until_quote s = Some (a, b) -> (String.length b < String.length s)%nat.
Proof.
  revert a. induction s as [| c s IH]; intros a H; simpl in H; [discriminate|].
  destruct (ascii_dec c dquote); [injection H as _ <-; simpl; lia|].
  destruct (ascii_dec c LF); [discriminate|].
  destruct (until_quote s) as [[a' b'] |]; [| discriminate].
  injection H as _ <-. specialize (IH a' eq_refl). simpl. lia.
Qed.

Lemma match_string_shorter (s g1 g2 : string) :
  match_string s = Some (g1, g2) -> (String.length g2 < String.length s)%nat.
Proof.
  unfold match_string. destruct s as [| c r]; [discriminate|].
  destruct (ascii_dec c dquote); [| discriminate].
  destruct (until_quote r) as [[body r'] |] eqn:Hu; [| discriminate].
  intros H. injection H as _ <-.
  pose proof (until_quote_shorter _ _ _ Hu).
  pose proof (dot_star_length (lstrip r')). pose proof (lstrip_length r'). simpl. lia.
Qed.

Lemma optional_length (c : ascii) (s a b : string) :
  optional c s = (a, b) -> (String.length b <= String.length s)%nat.
Proof.
  unfold optional. destruct s as [| d r]; [intros H; injection H as _ <-; lia|].
  destruct (ascii_dec c d); intros H; injection H as _ <-; simpl; lia.
Qed.

Lemma match_word_shorter (s g1 g2 : string) :
  match_word s = Some (g1, g2) -> (String.length g2 < String.length s)%nat.
Proof.
  unfold match_word. destruct (span is_wordchar s) as [w r] eqn:Hs.
  destruct (is_empty w) eqn:Hw; [discriminate|].
  destruct (optional "$" r) as [dollar r1] eqn:H1.
  destruct (optional "(" r1) as [paren r2] eqn:H2.
  destruct (dot_star_end (lstrip r2)) as [g |] eqn:Hg; [| discriminate].
  intros H. injection H as _ <-.
  pose proof (span_rest_shorter _ _ _ _ Hs Hw).
  pose proof (optional_length _ _ _ _ H1). pose proof (optional_length _ _ _ _ H2).
  pose proof (dot_star_end_length _ _ Hg). pose proof (lstrip_length r2). lia.
Qed.

Variable ts : TokenSet.t.

(** Every step of the tokeniser consumes at least one character. *)
Lemma tokeniseOne_shorter (tw tw' : t) (s r : string) :
  tokeniseOne ts tw s = Ok (tw', r) -> (String.length r < String.length s)%nat.
Proof.
  unfold tokeniseOne. intros H. destruct s as [| c0 s1]; [discriminate|].
  destruct (is_digit c0).
  { apply bind_Ok in H as ([g1 g2] & Hm & H). apply orRaise_Ok in Hm.
    apply match_number_shorter in Hm.
    destruct (match_fraction g2) as [[f1 f2] |] eqn:Hf.
    - apply match_fraction_shorter in Hf. inv_ok H. injection H as _ <-. lia.
    - injection H as _ <-. exact Hm. }
  destruct (ascii_dec c0 "$").
  { inv_ok H. destruct a0 as [g1 g2]. injection H as _ <-.
    apply orRaise_Ok in Ha0. now apply match_hex_shorter in Ha0. }
  destruct (ascii_dec c0 dquote).
  { inv_ok H. destruct a0 as [g1 g2]. injection H as _ <-.
    apply orRaise_Ok in Ha0. now apply match_string_shorter in Ha0. }
  destruct (ascii_dec c0 "'").
  { apply bind_Ok in H as (q & _ & H).
    destruct (is_empty (strip s1)); [injection H as _ <-; simpl; lia|].
    inv_ok H. injection H as _ <-. simpl. lia. }
  destruct (upper_is_letter c0).
  { apply bind_Ok in H as ([g1 g2] & Hm & H). apply orRaise_Ok in Hm.
    apply match_word_shorter in Hm.
    destruct (TokenSet.getByName ts g1); inv_ok H; injection H as _ <-; exact Hm. }
  destruct (2 <=? String.length (String c0 s1))%nat eqn:Hlen.
  - destruct (TokenSet.getByName ts (stake 2 (String c0 s1))).
    + injection H as _ <-. destruct s1 as [| c1 s2]; [discriminate Hlen|]. simpl. lia.
    + inv_ok H. injection H as _ <-. simpl. lia.
  - inv_ok H. injection H as _ <-. simpl. lia.
Qed.

Lemma packDigits_fuel (digits : list Z) : packDigits digits <> OutOfFuel.
Proof.
  assert (H : packDigits digits <> OutOfFuel /\
              forall x, packDigits (x :: digits) <> OutOfFuel).
  { induction digits as [| lo r [IH1 IH2]]; [split; [| intros x]; discriminate|].
    split; [apply IH2|]. intros hi. simpl.
    apply bind_fuel; [exact IH1 | discriminate]. }
  apply H.
Qed.

Lemma markLast_fuel (b : list Z) : IdentifierStore.markLast b <> OutOfFuel.
Proof.
  induction b as [| x [| y r] IH]; try discriminate.
  change (IdentifierStore.markLast (x :: y :: r))
    with (r' ← IdentifierStore.markLast (y :: r); Ok (x :: r')).
  apply bind_fuel; [exact IH | discriminate].
Qed.

Lemma add_fuel (st : IdentifierStore.t) (name : string) :
  IdentifierStore.add st name <> OutOfFuel.
Proof.
  unfold IdentifierStore.add.
  apply bind_fuel; [unfold assert; destruct (bool_decide _); discriminate | intros _].
  apply bind_fuel; [apply markLast_fuel | intros b].
  destruct (_ && _); [| discriminate].
  apply bind_fuel; [| discriminate].
  unfold IdentifierStore.anotherPage. destruct (_ ++ _); discriminate.
Qed.

(** A step has no budget of its own to use up. *)
Lemma tokeniseOne_fuel (tw : t) (s : string) : tokeniseOne ts tw s <> OutOfFuel.
Proof.
  unfold tokeniseOne, encodeFraction.
  repeat first
    [ discriminate
    | apply (getTokenID_fuel ts) | apply add_fuel | apply packDigits_fuel
    | match goal with
      | |- orRaise _ ?o <> _ => destruct o; discriminate
      | |- (if ?b then _ else _) <> _ => destruct b
      | |- (let '(a, b) := ?x in _) <> _ => destruct x
      | |- match ?x with _ => _ end <> _ => destruct x
      | |- (?m ≫= _) <> OutOfFuel => apply bind_fuel; [| intros ?]
      end ].
Qed.

(** The budget of [tokenise] is never used up. *)
Lemma tokeniseLoop_fuel (fuel : nat) (tw : t) (s : string) :
  (String.length s <= fuel)%nat -> tokeniseLoop ts fuel tw s <> OutOfFuel.
Proof.
  revert tw s. induction fuel as [| fuel IH]; intros tw s Hf;
    rewrite tokeniseLoop_unfold.
  - destruct s; [discriminate | simpl in Hf; lia].
  - destruct (is_empty s || startswith "//" s); [discriminate|].
    destruct (tokeniseOne ts tw s) as [[tw1 r] | e |] eqn:H1.
    + rewrite Ok_bind. apply IH. apply tokeniseOne_shorter in H1.
      pose proof (strip_length r). lia.
    + discriminate.
    + now apply tokeniseOne_fuel in H1.
Qed.

Lemma tokenise_fuel (st : IdentifierStore.t) (s : string) : tokenise ts st s <> OutOfFuel.
Proof.
  unfold tokenise. apply bind_fuel; [| discriminate].
  apply tokeniseLoop_fuel. lia.
Qed.

(** Building a program and rendering it returns or raises. *)
Lemma addLine_fuel (p : Program.t) (number : option Z) (text : string) :
  Program.addLine ts p number text <> OutOfFuel.
Proof.
  unfold Program.addLine. destruct (is_empty (strip text)); [discriminate|].
  apply bind_fuel; [apply tokenise_fuel | intros [st toks]].
  apply bind_fuel; [apply (getTokenID_fuel ts) | discriminate].
Qed.

Lemma command_fuel (p : Program.t) (c : string) : Program.command p c <> OutOfFuel.
Proof.
  unfold Program.command. destruct (startswith "define" c).
  { destruct (find_char " " (strip (sdrop 6 c))); discriminate. }
  destruct (string_dec c "library"); [discriminate|].
  destruct (string_dec c "nolibrary"); discriminate.
Qed.

Lemma addSourceLine_fuel (p : Program.t) (s : string) :
  Program.addSourceLine ts p s <> OutOfFuel.
Proof.
  unfold Program.addSourceLine. apply bind_fuel.
  - destruct (startswith "#" (strip s)); [| discriminate].
    apply bind_fuel; [apply command_fuel | discriminate].
  - intros [p1 s1]. destruct (Program.processIdentifiers p1 (strip s1)); [discriminate|].
    destruct (is_digit a).
    + apply bind_fuel; [destruct (Program.match_lineNumber _); discriminate|].
      intros [g1 g2]. apply addLine_fuel.
    + apply addLine_fuel.
Qed.

Lemma addFile_fuel (p : Program.t) (text : string) : Program.addFile ts p text <> OutOfFuel.
Proof.
  unfold Program.addFile. revert p.
  induction (Program.readlines text) as [| s lines IH]; intros p; simpl; [discriminate|].
  apply bind_fuel; [apply addSourceLine_fuel | exact IH].
Qed.

End TokeniserTotal.

(* ===================================================================== *)
(** * Proofs: the token table *)
(* ===================================================================== *)

Lemma tokens_ids_ok : ids_ok TokenSet.tokens = true.
Proof. vm_compute. reflexivity. Qed.

Lemma tokens_names_ok : names_ok TokenSet.tokens = true.
Proof. vm_compute. reflexivity. Qed.

(** What a letter is not, for the dispatch of [tokeniseOne]. *)
Lemma alpha_dispatch (c : ascii) :
  is_alpha c = true ->
  is_digit c = false /\ c <> "$"%char /\ c <> dquote /\ c <> "'"%char /\
  upper_is_letter c = true /\ is_space c = false /\ is_alpha (lower_char c) = true.
Proof.
  destruct c as [[] [] [] [] [] [] [] []]; intros H; vm_compute in H;
    try discriminate H; repeat split; try reflexivity; discriminate.
Qed.

Lemma wordchar_not_space (c : ascii) : Tokeniser.is_wordchar c = true -> is_space c = false.
Proof.
  destruct c as [[] [] [] [] [] [] [] []]; intros H; vm_compute in H;
    try discriminate H; reflexivity.
Qed.

Section NoSpace.

Lemma rstrip_no_space (s : string) : no_space s -> rstrip s = s.
Proof.
  induction s as [| c r IH]; intros H; [reflexivity|].
  inversion H as [| ? ? Hc Hr]; subst. simpl.
  rewrite Hc, andb_false_r, IH by assumption. reflexivity.
Qed.

Lemma lstrip_no_space (s : string) : no_space s -> lstrip s = s.
Proof.
  destruct s as [| c r]; intros H; [reflexivity|].
  inversion H as [| ? ? Hc Hr]; subst. unfold lstrip. simpl. rewrite Hc. reflexivity.
Qed.

Lemma strip_no_space (s : string) : no_space s -> strip s = s.
Proof.
  intros H. unfold strip. rewrite lstrip_no_space, rstrip_no_space by assumption.
  reflexivity.
Qed.

Lemma no_space_app (a b : string) : no_space a -> no_space b -> no_space (a +:+ b).
Proof.
  intros Ha Hb. induction a as [| c a IH]; [rewrite sapp_nil_l; exact Hb|].
  rewrite sapp_cons. inversion Ha; subst. constructor; [assumption | apply IH; assumption].
Qed.

Lemma span_all (f : ascii -> bool) (s a b : string) :
  span f s = (a, b) -> Forall (fun c => f c = true) (list_ascii_of_string a).
Proof.
  revert a b. induction s as [| c r IH]; intros a b H; simpl in H.
  - injection H as <- <-. constructor.
  - destruct (f c) eqn:Hc.
    + destruct (span f r) as [a' b'] eqn:E. injection H as <- <-.
      constructor; [assumption | eapply IH; reflexivity].
    + injection H as <- <-. constructor.
Qed.

Lemma optional_no_space (c : ascii) (s a b : string) :
  is_space c = false -> Tokeniser.optional c s = (a, b) -> no_space a.
Proof.
  intros Hc H. unfold Tokeniser.optional in H.
  destruct s as [| d r]; [injection H as <- <-; constructor|].
  destruct (ascii_dec c d); injection H as <- <-; repeat constructor. assumption.
Qed.

(** The first group of the word pattern holds no white space, and
    starts with the character the text starts with. *)
Lemma match_word_no_space (s w rest : string) :
  Tokeniser.match_word s = Some (w, rest) -> no_space w.
Proof.
  unfold Tokeniser.match_word. intros H.
  destruct (span Tokeniser.is_wordchar s) as [w0 r0] eqn:E.
  destruct (is_empty w0); [discriminate|].
  destruct (Tokeniser.optional "$" r0) as [d r1] eqn:E1.
  destruct (Tokeniser.optional "(" r1) as [p r2] eqn:E2.
  destruct (dot_star_end (lstrip r2)); [|discriminate].
  injection H as <- <-.
  apply no_space_app; [| apply no_space_app].
  - apply span_all in E. eapply Forall_impl; [exact E|].
    intros c Hc. simpl in Hc. apply wordchar_not_space. exact Hc.
  - eapply optional_no_space; [|exact E1]. reflexivity.
  - eapply optional_no_space; [|exact E2]. reflexivity.
Qed.

Lemma match_word_head (c : ascii) (s1 w rest : string) :
  Tokeniser.match_word (String c s1) = Some (w, rest) -> exists w', w = String c w'.
Proof.
  unfold Tokeniser.match_word. intros H. simpl in H.
  destruct (Tokeniser.is_wordchar c).
  - destruct (span Tokeniser.is_wordchar s1) as [w0 r0].
    simpl in H.
    destruct (Tokeniser.optional "$" r0) as [d r1].
    destruct (Tokeniser.optional "(" r1) as [p r2].
    destruct (dot_star_end (lstrip r2)); [|discriminate].
    injection H as <- <-. eexists. rewrite !sapp_cons. reflexivity.
  - discriminate.
Qed.

End NoSpace.

Section TokenTable.
Import TokenSet.

Variable ts : TokenSet.t.
Hypothesis Hids : ids_ok ts = true.
Hypothesis Hnames : names_ok ts = true.
Hypothesis Hctl : control_ids ts.

Lemma table_id (id : Z) (tk : Token.t) :
  getByID ts id = Some tk -> check_id ts id tk = true.
Proof.
  intros H. unfold getByID in H.
  apply elem_of_map_to_list, list_elem_of_In in H.
  exact (proj1 (forallb_forall _ _) Hids _ H).
Qed.

Lemma table_name (name : string) (tk : Token.t) :
  nameToToken ts !! name = Some tk -> check_name ts name tk = true.
Proof.
  intros H. apply elem_of_map_to_list, list_elem_of_In in H.
  exact (proj1 (forallb_forall _ _) Hnames _ H).
Qed.

(** The identifiers of the table, as the encoding needs them. *)
Lemma table_id_facts (id : Z) (tk : Token.t) :
  getByID ts id = Some tk ->
  Token.getID tk = id /\ 0x20 <= id < 0x300 /\ ~ (0x40 <= id < 0x80) /\
  (Token.getName tk <> EmptyString -> getByName ts (Token.getName tk) = Some tk).
Proof.
  intros H. apply table_id in H. unfold check_id in H.
  apply andb_prop in H as [H Hname]. apply andb_prop in H as [H Hdig].
  apply andb_prop in H as [H Hhi]. apply andb_prop in H as [Hid Hlo].
  apply negb_true_iff, andb_false_iff in Hdig.
  split; [lia|]. split; [lia|]. split; [lia|].
  intros Hne. apply orb_prop in Hname as [Ho | Ho].
  - destruct (Token.getName tk); [congruence | discriminate].
  - apply bool_decide_eq_true in Ho. exact Ho.
Qed.

Lemma table_name_facts (name : string) (tk : Token.t) :
  getByName ts name = Some tk ->
  lower (strip name) <> EmptyString ->
  Token.getName tk = lower (strip name) /\ getByID ts (Token.getID tk) = Some tk.
Proof.
  unfold getByName. intros H Hne. apply table_name in H. unfold check_name in H.
  apply andb_prop in H as [H _]. apply andb_prop in H as [H Hback].
  apply andb_prop in H as [_ Hname].
  split.
  - apply orb_prop in Hname as [Ho | Ho].
    + destruct (lower (strip name)); [congruence | discriminate].
    + apply bool_decide_eq_true in Ho. exact Ho.
  - apply bool_decide_eq_true in Hback. exact Hback.
Qed.

Lemma table_word_facts (c : ascii) (r : string) (tk : Token.t) :
  nameToToken ts !! String c r = Some tk ->
  is_alpha c = true ->
  0x80 <= Token.getID tk /\ is_control (Token.getID tk) = false.
Proof.
  intros H Hc. apply table_name in H. unfold check_name in H.
  apply andb_prop in H as [_ Ho]. apply orb_prop in Ho as [Ho | Ho].
  - rewrite Hc in Ho. discriminate.
  - apply andb_prop in Ho as [Ha Hb]. apply negb_true_iff in Hb. split; [lia | exact Hb].
Qed.

Lemma is_control_false (id : Z) :
  is_control id = false ->
  id <> 0x80 /\ id <> 0x81 /\ id <> 0xC1 /\ id <> 0xC2 /\ id <> 0xC3.
Proof.
  unfold is_control. intros H.
  apply orb_false_elim in H as [H c5]. apply orb_false_elim in H as [H c4].
  apply orb_false_elim in H as [H c3]. apply orb_false_elim in H as [c1 c2].
  repeat split; apply Z.eqb_neq; assumption.
Qed.

Lemma high_byte (id : Z) :
  0x100 <= id < 0x300 ->
  (Z.shiftr id 8 = 1 \/ Z.shiftr id 8 = 2) /\ Z.land id 0xFF + Z.shiftr id 8 * 256 = id.
Proof.
  intros H. change 0xFF with (Z.ones 8). rewrite Z.land_ones, Z.shiftr_div_pow2 by lia.
  change (2 ^ 8) with 256. Z.div_mod_to_equations. lia.
Qed.

Ltac decide_tests :=
  repeat match goal with
  | |- context [Z.eqb ?a ?b] =>
      first [ replace (Z.eqb a b) with true by (symmetry; apply Z.eqb_eq; lia)
            | replace (Z.eqb a b) with false by (symmetry; apply Z.eqb_neq; lia) ]
  | |- context [Z.leb ?a ?b] =>
      first [ replace (Z.leb a b) with true by (symmetry; apply Z.leb_le; lia)
            | replace (Z.leb a b) with false by (symmetry; apply Z.leb_gt; lia) ]
  | |- context [Z.ltb ?a ?b] =>
      first [ replace (Z.ltb a b) with true by (symmetry; apply Z.ltb_lt; lia)
            | replace (Z.ltb a b) with false by (symmetry; apply Z.ltb_ge; lia) ]
  end; cbn [andb orb negb].

(** The lister turns the bytes of a token into its name. *)
Lemma listOneElement_token (id : Z) (tk : Token.t) (pre post : list Z) (text : string) :
  getByID ts id = Some tk ->
  is_control id = false ->
  ProgramLister.listOneElement ts (pre ++ token_bytes id ++ post) text (length pre)
  = (text' ← ProgramLister.append text (Token.getName tk);
     Ok (text', (length pre + length (token_bytes id))%nat)).
Proof.
  intros Hid Hc. pose proof (table_id_facts _ _ Hid) as (_ & Hr & Hd & _).
  apply is_control_false in Hc as (c1 & c2 & c3 & c4 & c5).
  unfold token_bytes. destruct (Z.ltb_spec id 0x100) as [Hlow | Hhigh].
  - change ([id] ++ post) with (id :: post).
    unfold ProgramLister.listOneElement. rewrite at_app, Ok_bind.
    unfold ProgramLister.getTokenID.
    rewrite (id_str _ Hctl), (id_dec _ Hctl), (id_dollar _ Hctl),
      (id_sh1 _ Hctl), (id_sh2 _ Hctl), !Ok_bind.
    assert (Hside : id < 64 \/ 128 <= id) by lia.
    destruct Hside; decide_tests; rewrite !Ok_bind; decide_tests;
      rewrite !Ok_bind; cbv beta iota; rewrite Hid; reflexivity.
  - destruct (high_byte id ltac:(lia)) as [Hh Hsum].
    change ([192 + Z.shiftr id 8; Z.land id 255] ++ post)
      with (192 + Z.shiftr id 8 :: Z.land id 255 :: post).
    unfold ProgramLister.listOneElement. rewrite at_app, Ok_bind.
    unfold ProgramLister.getTokenID.
    rewrite (id_str _ Hctl), (id_dec _ Hctl), (id_dollar _ Hctl),
      (id_sh1 _ Hctl), (id_sh2 _ Hctl), !Ok_bind.
    replace (pre ++ 192 + Z.shiftr id 8 :: Z.land id 255 :: post)
      with ((pre ++ [192 + Z.shiftr id 8]) ++ Z.land id 255 :: post)
      by (rewrite <- app_assoc; reflexivity).
    replace (length pre + 1)%nat with (length (pre ++ [192 + Z.shiftr id 8]))
      by (rewrite length_app; reflexivity).
    rewrite at_app.
    destruct Hh as [Hh | Hh]; rewrite Hh in *;
      repeat first [ rewrite Ok_bind | rewrite at_app | progress cbv beta iota
                   | progress decide_tests ].
    + replace (Z.land id 255 + 256) with id by lia. rewrite Hid. simpl.
      rewrite length_app. simpl.
      replace (length pre + 1 + 1)%nat with (length pre + 2)%nat by lia. reflexivity.
    + replace (Z.land id 255 + 512) with id by lia. rewrite Hid. simpl.
      rewrite length_app. simpl.
      replace (length pre + 1 + 1)%nat with (length pre + 2)%nat by lia. reflexivity.
Qed.

Lemma emit_emit (tw : Tokeniser.t) (a b : list Z) :
  Tokeniser.emit (Tokeniser.emit tw a) b = Tokeniser.emit tw (a ++ b).
Proof. unfold Tokeniser.emit. simpl. rewrite app_assoc. reflexivity. Qed.

(** The tokeniser writes the bytes of the token a word names. *)
Lemma tokeniseOne_keyword (tw : Tokeniser.t) (c : ascii) (s1 w rest : string)
      (tk : Token.t) :
  is_alpha c = true ->
  Tokeniser.match_word (String c s1) = Some (w, rest) ->
  getByName ts w = Some tk ->
  Tokeniser.tokeniseOne ts tw (String c s1)
    = Ok (Tokeniser.emit tw (token_bytes (Token.getID tk)), rest)
  /\ Token.getName tk = lower w
  /\ getByID ts (Token.getID tk) = Some tk
  /\ is_control (Token.getID tk) = false.
Proof.
  intros Hc Hm Hw.
  pose proof (alpha_dispatch c Hc) as (Hd & n1 & n2 & n3 & Hu & Hsp & Hl).
  pose proof (match_word_no_space _ _ _ Hm) as Hns.
  destruct (match_word_head _ _ _ _ Hm) as [w' ->].
  pose proof Hw as Hw'. unfold getByName in Hw'.
  rewrite (strip_no_space _ Hns) in Hw'. simpl lower in Hw'.
  pose proof (table_word_facts _ _ _ Hw' Hl) as [Hge Hnc].
  assert (Hne : lower (strip (String c w')) <> EmptyString).
  { rewrite (strip_no_space _ Hns). discriminate. }
  pose proof (table_name_facts _ _ Hw Hne) as [Hname Hback].
  rewrite (strip_no_space _ Hns) in Hname.
  pose proof (table_id_facts _ _ Hback) as (_ & Hr & _ & _).
  split; [| split; [exact Hname | split; [exact Hback | exact Hnc]]].
  unfold Tokeniser.tokeniseOne. rewrite Hd.
  destruct (ascii_dec c "$"); [contradiction|].
  destruct (ascii_dec c dquote); [contradiction|].
  destruct (ascii_dec c "'"); [contradiction|].
  rewrite Hu, Hm. cbn [orRaise]. rewrite Ok_bind, Hw.
  unfold token_bytes. destruct (Z.ltb_spec (Token.getID tk) 0x100) as [Hlow | Hhigh].
  - replace (Token.getID tk >=? 256) with false by (rewrite Z.geb_leb; symmetry; apply Z.leb_gt; lia).
    rewrite Ok_bind. change 0xFF with (Z.ones 8).
    rewrite Z.land_ones by lia. rewrite Z.mod_small by lia. reflexivity.
  - replace (Token.getID tk >=? 256) with true by (rewrite Z.geb_leb; symmetry; apply Z.leb_le; lia).
    destruct (high_byte (Token.getID tk) ltac:(lia)) as [[Hh | Hh] _]; rewrite Hh.
    + change (Tokeniser.getTokenID ts ("!!sh" +:+ str 1)) with (getTokenID ts "!!SH1").
      rewrite (id_sh1 _ Hctl), !Ok_bind, emit_emit. reflexivity.
    + change (Tokeniser.getTokenID ts ("!!sh" +:+ str 2)) with (getTokenID ts "!!SH2").
      rewrite (id_sh2 _ Hctl), !Ok_bind, emit_emit. reflexivity.
Qed.

End TokenTable.

(** X1. For every token of the table other than the control tokens, the
    lister turns the bytes the tokeniser writes for it, the identifier
    itself or a shift byte and the low byte, into the name of the token,
    and moves on by as many bytes. *)
Theorem X1_lister_names_token (id : Z) (tk : Token.t) (pre post : list Z) (text : string) :
  TokenSet.getByID TokenSet.tokens id = Some tk ->
  is_control id = false ->
  ProgramLister.listOneElement TokenSet.tokens (pre ++ token_bytes id ++ post) text (length pre)
  = (text' ← ProgramLister.append text (Token.getName tk);
     Ok (text', (length pre + length (token_bytes id))%nat)).
Proof.
  exact (listOneElement_token TokenSet.tokens tokens_ids_ok tokens_control_ids
           id tk pre post text).
Qed.

Lemma X1_lister_names_token_witness :
  ProgramLister.listOneElement TokenSet.tokens ([8; 100; 0] ++ token_bytes 0x182 ++ [0xC0])
                               "100 " 3
  = Ok ("100 run", 5%nat).
Proof.
  refine (eq_trans (X1_lister_names_token 0x182 (Token.mk 0x182 "run" EmptyString)
                      [8; 100; 0] [0xC0] "100 " _ _) _);
    vm_compute; reflexivity.
Defined.

(** X2. A word that names a token is tokenised as the bytes of that token,
    whatever its case: the identifier below 0x100, the shift token of the
    high byte and the low byte above.  The token is found again by its
    identifier, is no control token, and its name is the word in lower
    case, which is what the lister prints for these bytes. *)
Theorem X2_keyword_tokenised (tw : Tokeniser.t) (c : ascii) (s1 w rest : string)
        (tk : Token.t) :
  is_alpha c = true ->
  Tokeniser.match_word (String c s1) = Some (w, rest) ->
  TokenSet.getByName TokenSet.tokens w = Some tk ->
  Tokeniser.tokeniseOne TokenSet.tokens tw (String c s1)
    = Ok (Tokeniser.emit tw (token_bytes (Token.getID tk)), rest)
  /\ Token.getName tk = lower w
  /\ TokenSet.getByID TokenSet.tokens (Token.getID tk) = Some tk
  /\ is_control (Token.getID tk) = false.
Proof.
  exact (tokeniseOne_keyword TokenSet.tokens tokens_ids_ok tokens_names_ok
           tokens_control_ids tw c s1 w rest tk).
Qed.

Lemma X2_keyword_tokenised_witness :
  Tokeniser.tokeniseOne TokenSet.tokens (Tokeniser.mk IdentifierStore.init []) "Run 10"
  = Ok (Tokeniser.mk IdentifierStore.init [0xC1; 0x82], "10").
Proof.
  refine (eq_trans (proj1 (X2_keyword_tokenised (Tokeniser.mk IdentifierStore.init [])
                             "R" "un 10" "Run" "10" (Token.mk 0x182 "run" EmptyString)
                             _ _ _)) _);
    vm_compute; reflexivity.
Defined.

(** X3. In the table that [create] builds, identifiers and names
    correspond one to one: the token of an identifier carries that
    identifier, and its name, unless it is the empty name of a reserved
    slot, leads back to it; the token of a name carries the name, in lower
    case and without the white space around it, and its identifier leads
    back to it.  Every identifier is from 0x20 up to 0x2FF and none is
    between 0x40 and 0x7F, so that the first byte of a token is never taken
    for a pointer or for a constant. *)
Theorem X3_token_table (id : Z) (name : string) (tk : Token.t) :
  (TokenSet.getByID TokenSet.tokens id = Some tk ->
   Token.getID tk = id /\ 0x20 <= id < 0x300 /\ ~ (0x40 <= id < 0x80) /\
   (Token.getName tk <> EmptyString ->
    TokenSet.getByName TokenSet.tokens (Token.getName tk) = Some tk))
  /\
  (TokenSet.getByName TokenSet.tokens name = Some tk ->
   lower (strip name) <> EmptyString ->
   Token.getName tk = lower (strip name) /\
   TokenSet.getByID TokenSet.tokens (Token.getID tk) = Some tk).
Proof.
  split.
  - exact (table_id_facts TokenSet.tokens tokens_ids_ok id tk).
  - exact (table_name_facts TokenSet.tokens tokens_names_ok name tk).
Qed.

Lemma X3_token_table_witness :
  Token.getID (Token.mk 0xC6 "print" EmptyString) = 0xC6 /\
  TokenSet.getByName TokenSet.tokens "print" = Some (Token.mk 0xC6 "print" EmptyString) /\
  TokenSet.getByID TokenSet.tokens 0xC6 = Some (Token.mk 0xC6 "print" EmptyString).
Proof.
  pose proof (X3_token_table 0xC6 " Print " (Token.mk 0xC6 "print" EmptyString)) as [H1 H2].
  assert (E1 : TokenSet.getByID TokenSet.tokens 0xC6 = Some (Token.mk 0xC6 "print" EmptyString))
    by (vm_compute; reflexivity).
  assert (E2 : TokenSet.getByName TokenSet.tokens " Print "
               = Some (Token.mk 0xC6 "print" EmptyString))
    by (vm_compute; reflexivity).
  destruct (H1 E1) as (Ha & _ & _ & Hb).
  destruct (H2 E2 ltac:(vm_compute; discriminate)) as [_ Hc].
  split; [exact Ha | split; [apply Hb; discriminate | exact Hc]].
Defined.

(* ===================================================================== *)
(** * Proofs: constants, from text to bytes and back *)
(* ===================================================================== *)

Section NumberText.

Ltac digit_values :=
  repeat match goal with
  | |- context [digit_value ?c] =>
      let v := eval vm_compute in (digit_value c) in change (digit_value c) with v
  end.

Lemma span_full (f : ascii -> bool) (s : string) :
  Forall (fun c => f c = true) (list_ascii_of_string s) -> span f s = (s, EmptyString).
Proof.
  induction s as [| c r IH]; intros H; [reflexivity|].
  inversion H as [| ? ? Hc Hr]; subst. simpl. rewrite Hc, IH by assumption. reflexivity.
Qed.

(** ** Decimal *)

Lemma digit_char_cases (c : ascii) :
  is_digit c = true -> In c ["0"; "1"; "2"; "3"; "4"; "5"; "6"; "7"; "8"; "9"]%char.
Proof.
  destruct c as [[] [] [] [] [] [] [] []]; intros H; vm_compute in H;
    try discriminate H; simpl; tauto.
Qed.

Lemma digit_string_uint (d : string) :
  digit_string d -> exists u, DecimalString.NilEmpty.string_of_uint u = d.
Proof.
  induction d as [| c r IH]; intros H.
  - exists Decimal.Nil. reflexivity.
  - inversion H as [| ? ? Hc Hr]; subst. destruct (IH Hr) as [u <-].
    apply digit_char_cases in Hc. simpl in Hc.
    repeat (destruct Hc as [<- | Hc]);
      [ exists (Decimal.D0 u) | exists (Decimal.D1 u) | exists (Decimal.D2 u)
      | exists (Decimal.D3 u) | exists (Decimal.D4 u) | exists (Decimal.D5 u)
      | exists (Decimal.D6 u) | exists (Decimal.D7 u) | exists (Decimal.D8 u)
      | exists (Decimal.D9 u) | contradiction ]; reflexivity.
Qed.

Lemma int_go_uint_acc (u : Decimal.uint) (acc : positive) :
  int_go 10 (Z.pos acc) (DecimalString.NilEmpty.string_of_uint u)
  = Z.pos (Pos.of_uint_acc u acc).
Proof.
  revert acc. induction u; intros acc; simpl; [reflexivity | ..];
    digit_values; rewrite <- IHu; f_equal; lia.
Qed.

Lemma int_uint (u : Decimal.uint) :
  int (DecimalString.NilEmpty.string_of_uint u) = Z.of_uint u.
Proof.
  unfold int, Z.of_uint. induction u; simpl; [reflexivity | ..]; digit_values;
    [exact IHu | ..]; apply (int_go_uint_acc u).
Qed.

Lemma int_nonneg (d : string) : digit_string d -> 0 <= int d.
Proof.
  intros H. destruct (digit_string_uint d H) as [u <-]. rewrite int_uint.
  unfold Z.of_uint. lia.
Qed.

(** [str(int(d))] gives a number back as it was written. *)
Lemma str_int (d : string) :
  digit_string d -> d <> EmptyString -> no_leading_zero d -> str (int d) = d.
Proof.
  intros H Hne Hz. destruct (digit_string_uint d H) as [u <-].
  rewrite int_uint. unfold str.
  change (Z.of_uint u) with (Z.of_int (Decimal.Pos u)).
  rewrite DecimalZ.to_of. simpl.
  destruct u as [| u | u | u | u | u | u | u | u | u | u]; try reflexivity.
  - contradiction Hne. reflexivity.
  - destruct u; try contradiction Hz; reflexivity.
Qed.

(** ** Hexadecimal *)

Lemma hexdigit_cases (c : ascii) :
  is_hexdigit c = true ->
  In c ["0"; "1"; "2"; "3"; "4"; "5"; "6"; "7"; "8"; "9";
        "a"; "b"; "c"; "d"; "e"; "f"; "A"; "B"; "C"; "D"; "E"; "F"]%char.
Proof.
  destruct c as [[] [] [] [] [] [] [] []]; intros H; vm_compute in H;
    try discriminate H; simpl; tauto.
Qed.

Lemma hex_string_uint (h : string) :
  hex_string h ->
  exists u,
    HexadecimalString.NilEmpty.string_of_uint u = lower h /\
    (forall acc, int_go 16 (Z.pos acc) h = Z.pos (Pos.of_hex_uint_acc u acc)) /\
    int_go 16 0 h = Z.of_N (Pos.of_hex_uint u).
Proof.
  induction h as [| c r IH]; intros H.
  - exists Hexadecimal.Nil. repeat split.
  - inversion H as [| ? ? Hc Hr]; subst. destruct (IH Hr) as (u & Hs & Hacc & H0).
    apply hexdigit_cases in Hc. simpl in Hc.
    repeat (destruct Hc as [<- | Hc]);
      [ exists (Hexadecimal.D0 u) | exists (Hexadecimal.D1 u) | exists (Hexadecimal.D2 u)
      | exists (Hexadecimal.D3 u) | exists (Hexadecimal.D4 u) | exists (Hexadecimal.D5 u)
      | exists (Hexadecimal.D6 u) | exists (Hexadecimal.D7 u) | exists (Hexadecimal.D8 u)
      | exists (Hexadecimal.D9 u) | exists (Hexadecimal.Da u) | exists (Hexadecimal.Db u)
      | exists (Hexadecimal.Dc u) | exists (Hexadecimal.Dd u) | exists (Hexadecimal.De u)
      | exists (Hexadecimal.Df u) | exists (Hexadecimal.Da u) | exists (Hexadecimal.Db u)
      | exists (Hexadecimal.Dc u) | exists (Hexadecimal.Dd u) | exists (Hexadecimal.De u)
      | exists (Hexadecimal.Df u) | contradiction ];
      (split; [simpl; rewrite Hs; reflexivity|]);
      (split; [intros acc; simpl; digit_values; rewrite <- Hacc; f_equal; lia|]);
      simpl; digit_values; first [exact H0 | apply Hacc].
Qed.

Lemma int16_nonneg (h : string) : hex_string h -> 0 <= int16 h.
Proof.
  intros H. destruct (hex_string_uint h H) as (u & _ & _ & E). unfold int16.
  rewrite E. lia.
Qed.

Lemma lower_head (c : ascii) (r : string) : lower (String c r) = String (lower_char c) (lower r).
Proof. reflexivity. Qed.

(** The hexadecimal format gives a number back as it was written, in
    lower case. *)
Lemma hex_int16 (h : string) :
  hex_string h -> h <> EmptyString -> no_leading_zero h -> hex (int16 h) = lower h.
Proof.
  intros H Hne Hz. destruct (hex_string_uint h H) as (u & Hs & _ & E).
  unfold hex, int16. rewrite E, N2Z.id.
  change (Pos.of_hex_uint u) with (N.of_hex_uint u).
  rewrite HexadecimalN.Unsigned.to_of, <- Hs.
  destruct u as [| u | u | u | u | u | u | u | u | u | u | u | u | u | u | u | u];
    try reflexivity.
  - destruct h; [contradiction Hne; reflexivity | discriminate Hs].
  - destruct u; try reflexivity.
    all: destruct h as [| c [| c' r]]; try discriminate Hs.
    all: rewrite !lower_head in Hs; injection Hs as Hc _.
    all: destruct c as [[] [] [] [] [] [] [] []]; try discriminate Hc; contradiction Hz.
Qed.

End NumberText.

Section ConstantsRoundTrip.

Variable ts : TokenSet.t.
Hypothesis Hctl : control_ids ts.

Lemma decode_render (n b : Z) (rest : list Z) :
  0 <= n -> ~ digit_byte b ->
  NumberCodec.decodeInteger 0 (NumberCodec.renderConstant n ++ b :: rest)
  = Ok (n, length (NumberCodec.renderConstant n)).
Proof.
  intros Hn Hb. rewrite decodeInteger_digits by apply renderConstant_digits.
  rewrite accumulate_renderConstant by lia.
  rewrite decodeInteger_stop by assumption. simpl.
  rewrite Nat.add_0_r. reflexivity.
Qed.

(** A constant in the image is listed as the number it stands for. *)
Lemma listOneElement_constant (n b : Z) (pre post : list Z) (text : string) :
  0 <= n -> ~ digit_byte b ->
  ProgramLister.listOneElement ts (pre ++ NumberCodec.renderConstant n ++ b :: post)
                               text (length pre)
  = (text' ← ProgramLister.append text (str n);
     Ok (text', (length pre + length (NumberCodec.renderConstant n))%nat)).
Proof.
  intros Hn Hb.
  pose proof (decode_render n b post Hn Hb) as Hdec.
  pose proof (renderConstant_digits n) as Hdig.
  pose proof (renderConstant_nonempty n) as Hne.
  destruct (NumberCodec.renderConstant n) as [| n0 l]; [congruence|].
  inversion Hdig as [| ? ? H0 _]; subst. unfold digit_byte in H0.
  change ((n0 :: l) ++ b :: post) with (n0 :: l ++ b :: post) in *.
  unfold ProgramLister.listOneElement. rewrite at_app, Ok_bind.
  unfold ProgramLister.getTokenID.
  rewrite (id_str _ Hctl), (id_dec _ Hctl), !Ok_bind.
  replace ((0 <=? n0) && (n0 <? 32)) with false
    by (symmetry; apply andb_false_iff; right; apply Z.ltb_ge; lia).
  replace (n0 =? 128) with false by (symmetry; apply Z.eqb_neq; lia).
  replace (n0 =? 195) with false by (symmetry; apply Z.eqb_neq; lia).
  replace ((64 <=? n0) && (n0 <? 128)) with true
    by (symmetry; apply andb_true_iff; split; [apply Z.leb_le | apply Z.ltb_lt]; lia).
  rewrite drop_app_length, Hdec, Ok_bind. reflexivity.
Qed.

Lemma tokeniseOne_digits (tw : Tokeniser.t) (d : string) :
  digit_string d -> d <> EmptyString ->
  Tokeniser.tokeniseOne ts tw d = Ok (Tokeniser.renderConstant tw (int d), EmptyString).
Proof.
  intros Hd Hne. destruct d as [| c r]; [congruence|].
  pose proof Hd as Hd'. inversion Hd' as [| ? ? Hc _]; subst.
  unfold Tokeniser.tokeniseOne. rewrite Hc.
  unfold Tokeniser.match_number. rewrite (span_full _ _ Hd). reflexivity.
Qed.

Lemma tokeniseOne_hex (tw : Tokeniser.t) (h : string) :
  hex_string h -> h <> EmptyString ->
  Tokeniser.tokeniseOne ts tw (String "$" h)
  = Ok (Tokeniser.emit tw (0x81 :: NumberCodec.renderConstant (int16 h)), EmptyString).
Proof.
  intros Hh Hne. unfold Tokeniser.tokeniseOne.
  change (is_digit "$") with false. cbv iota.
  destruct (ascii_dec "$" "$") as [_ | Hx]; [| contradiction Hx; reflexivity].
  unfold Tokeniser.getTokenID. rewrite (id_dollar _ Hctl), Ok_bind.
  unfold Tokeniser.match_hex. rewrite (span_full _ _ Hh).
  destruct h as [| c r]; [congruence|]. cbn [is_empty lstrip span snd dot_star_end].
  cbn [mbind option_bind orRaise]. rewrite Ok_bind.
  unfold Tokeniser.renderConstant, Tokeniser.emit. simpl.
  rewrite <- app_assoc. reflexivity.
Qed.

End ConstantsRoundTrip.

(** X4. A number written in decimal digits is tokenised as the bytes of
    [renderConstant] for its value, and the lister, on these bytes followed
    by a byte that is none of a constant, prints the value in decimal and
    moves on by as many bytes: the number as it was written, when it was
    written without a zero in front. *)
Theorem X4_decimal_constant_round_trip (d : string) (tw : Tokeniser.t)
        (pre post : list Z) (b : Z) (text : string) :
  digit_string d -> d <> EmptyString -> ~ digit_byte b ->
  let bytes := NumberCodec.renderConstant (int d) in
  Tokeniser.tokeniseOne TokenSet.tokens tw d = Ok (Tokeniser.emit tw bytes, EmptyString) /\
  ProgramLister.listOneElement TokenSet.tokens (pre ++ bytes ++ b :: post) text (length pre)
    = (text' ← ProgramLister.append text (str (int d));
       Ok (text', (length pre + length bytes)%nat)) /\
  (no_leading_zero d -> str (int d) = d).
Proof.
  intros Hd Hne Hb bytes. split; [| split].
  - exact (tokeniseOne_digits TokenSet.tokens tw d Hd Hne).
  - apply (listOneElement_constant TokenSet.tokens tokens_control_ids);
      [apply int_nonneg; exact Hd | exact Hb].
  - intros Hz. apply str_int; assumption.
Qed.

Lemma X4_decimal_constant_round_trip_witness :
  Tokeniser.tokeniseOne TokenSet.tokens (Tokeniser.mk IdentifierStore.init []) "1000"
    = Ok (Tokeniser.mk IdentifierStore.init [0x4F; 0x68], EmptyString) /\
  ProgramLister.listOneElement TokenSet.tokens ([0xC6] ++ [0x4F; 0x68] ++ 0xC0 :: []) "print" 1
    = Ok ("print 1000", 3%nat).
Proof.
  assert (Hd : digit_string "1000") by (repeat constructor).
  assert (Hb : ~ digit_byte 0xC0) by (unfold digit_byte; lia).
  destruct (X4_decimal_constant_round_trip "1000" (Tokeniser.mk IdentifierStore.init [])
              [0xC6] [] 0xC0 "print" Hd ltac:(discriminate) Hb) as (H1 & H2 & _).
  split.
  - refine (eq_trans H1 _). vm_compute. reflexivity.
  - refine (eq_trans _ (eq_trans H2 _)); vm_compute; reflexivity.
Defined.

(** X5. A number written as $ and hexadecimal digits is tokenised as the
    token $ and the bytes of [renderConstant] for its value, and the
    lister, on these bytes followed by a byte that is none of a constant,
    prints a space, $ and the value in hexadecimal: the digits as they were
    written, in lower case, when they were written without a zero in
    front. *)
Theorem X5_hex_constant_round_trip (h : string) (tw : Tokeniser.t)
        (pre post : list Z) (b : Z) (text : string) :
  hex_string h -> h <> EmptyString -> ~ digit_byte b ->
  let bytes := NumberCodec.renderConstant (int16 h) in
  Tokeniser.tokeniseOne TokenSet.tokens tw (String "$" h)
    = Ok (Tokeniser.emit tw (0x81 :: bytes), EmptyString) /\
  ProgramLister.listOneElement TokenSet.tokens (pre ++ 0x81 :: bytes ++ b :: post)
                               text (length pre)
    = (text' ← ProgramLister.append text " $";
       text' ← ProgramLister.append text' (hex (int16 h));
       Ok (text', (length pre + 1 + length bytes)%nat)) /\
  (no_leading_zero h -> hex (int16 h) = lower h).
Proof.
  intros Hh Hne Hb bytes. split; [| split].
  - exact (tokeniseOne_hex TokenSet.tokens tokens_control_ids tw h Hh Hne).
  - rewrite (listOneElement_dollar TokenSet.tokens tokens_control_ids).
    subst bytes. rewrite decode_render; [reflexivity | apply int16_nonneg; exact Hh | exact Hb].
  - intros Hz. apply hex_int16; assumption.
Qed.

Lemma X5_hex_constant_round_trip_witness :
  Tokeniser.tokeniseOne TokenSet.tokens (Tokeniser.mk IdentifierStore.init []) "$FF"
    = Ok (Tokeniser.mk IdentifierStore.init [0x81; 0x43; 0x7F], EmptyString) /\
  ProgramLister.listOneElement TokenSet.tokens ([0x30] ++ 0x81 :: [0x43; 0x7F] ++ 0xC0 :: [])
                               "a=" 1
    = Ok ("a= $ff", 4%nat) /\
  hex (int16 "FF") = "ff".
Proof.
  assert (Hh : hex_string "FF") by (repeat constructor).
  assert (Hb : ~ digit_byte 0xC0) by (unfold digit_byte; lia).
  destruct (X5_hex_constant_round_trip "FF" (Tokeniser.mk IdentifierStore.init [])
              [0x30] [] 0xC0 "a=" Hh ltac:(discriminate) Hb) as (H1 & H2 & H3).
  split; [| split].
  - refine (eq_trans H1 _). vm_compute. reflexivity.
  - refine (eq_trans _ (eq_trans H2 _)); vm_compute; reflexivity.
  - exact (H3 I).
Defined.

(* ===================================================================== *)
(** * Proofs: string literals and comments *)
(* ===================================================================== *)

Section StringLiterals.

Variable ts : TokenSet.t.
Hypothesis Hctl : control_ids ts.

Lemma chars_ords (s : string) : ProgramLister.chars (ords s) = s.
Proof.
  induction s as [| c r IH]; [reflexivity|].
  change (ProgramLister.chars (ords (String c r)))
    with (String (chr (ord c)) (ProgramLister.chars (ords r))).
  rewrite chr_ord, IH. reflexivity.
Qed.

(** A string in the image: the token, the length byte, the characters. *)
Lemma listOneElement_string (body : string) (pre post : list Z) (text : string) :
  ProgramLister.listOneElement ts (pre ++ 0x80 :: slen body :: ords body ++ post)
                               text (length pre)
  = (text' ← ProgramLister.append text (String dquote (body +:+ String dquote EmptyString));
     Ok (text', (length pre + String.length body + 2)%nat)).
Proof.
  unfold ProgramLister.listOneElement. rewrite at_app, Ok_bind.
  change ((0 <=? 128) && (128 <? 32)) with false. cbv iota.
  unfold ProgramLister.getTokenID. rewrite (id_str _ Hctl), Ok_bind.
  change (128 =? 128) with true. cbv iota.
  replace (pre ++ 128 :: slen body :: ords body ++ post)
    with ((pre ++ [128]) ++ slen body :: ords body ++ post)
    by (rewrite <- app_assoc; reflexivity).
  replace (length pre + 1)%nat with (length (pre ++ [128]))
    by (rewrite length_app; reflexivity).
  rewrite at_app, Ok_bind. unfold slen. rewrite Nat2Z.id.
  rewrite <- (length_ords body).
  replace ((pre ++ [128]) ++ Z.of_nat (length (ords body)) :: ords body ++ post)
    with ((pre ++ [128; Z.of_nat (length (ords body))]) ++ ords body ++ post)
    by (rewrite <- !app_assoc; reflexivity).
  replace (length pre + 2)%nat
    with (length (pre ++ [128; Z.of_nat (length (ords body))]))
    by (rewrite length_app; reflexivity).
  rewrite slice_app, Ok_bind, chars_ords. reflexivity.
Qed.

Lemma until_quote_none (s : string) :
  Forall (fun c => c <> dquote) (list_ascii_of_string s) -> Tokeniser.until_quote s = None.
Proof.
  induction s as [| c r IH]; intros H; [reflexivity|].
  inversion H as [| ? ? Hc Hr]; subst. simpl.
  destruct (ascii_dec c dquote); [contradiction|].
  destruct (ascii_dec c LF); [reflexivity|].
  rewrite IH by assumption. reflexivity.
Qed.

(** A string literal that is not closed. *)
Lemma tokeniseOne_unterminated (tw : Tokeniser.t) (s : string) :
  Forall (fun c => c <> dquote) (list_ascii_of_string s) ->
  Tokeniser.tokeniseOne ts tw (String dquote s) = Raise AttributeError.
Proof.
  intros H. unfold Tokeniser.tokeniseOne.
  change (is_digit dquote) with false. cbv iota.
  destruct (ascii_dec dquote "$") as [E | _]; [discriminate E|].
  destruct (ascii_dec dquote dquote) as [_ | E]; [| congruence].
  unfold Tokeniser.getTokenID.
  change (TokenSet.getTokenID ts "!!str") with (TokenSet.getTokenID ts "!!STR").
  rewrite (id_str _ Hctl), Ok_bind.
  unfold Tokeniser.match_string.
  destruct (ascii_dec dquote dquote) as [_ | E]; [| congruence].
  rewrite (until_quote_none _ H). reflexivity.
Qed.

(** A $ that no hexadecimal digit follows. *)
Lemma tokeniseOne_bad_hex (tw : Tokeniser.t) (s : string) :
  (forall c r, s = String c r -> is_hexdigit c = false) ->
  Tokeniser.tokeniseOne ts tw (String "$" s) = Raise AttributeError.
Proof.
  intros H. unfold Tokeniser.tokeniseOne.
  change (is_digit "$") with false. cbv iota.
  destruct (ascii_dec "$" "$") as [_ | Hx]; [| contradiction Hx; reflexivity].
  unfold Tokeniser.getTokenID. rewrite (id_dollar _ Hctl), Ok_bind.
  unfold Tokeniser.match_hex. destruct s as [| c r]; [reflexivity|].
  simpl. rewrite (H c r eq_refl). reflexivity.
Qed.

End StringLiterals.

Section Stripping.

Lemma lstrip_cons_space (c : ascii) (r : string) :
  is_space c = true -> lstrip (String c r) = lstrip r.
Proof.
  intros Hc. unfold lstrip. simpl. rewrite Hc.
  destruct (span is_space r). reflexivity.
Qed.

Lemma lstrip_cons_other (c : ascii) (r : string) :
  is_space c = false -> lstrip (String c r) = String c r.
Proof. intros Hc. unfold lstrip. simpl. rewrite Hc. reflexivity. Qed.

Lemma rstrip_cons_other (c : ascii) (r : string) :
  is_space c = false -> rstrip (String c r) = String c (rstrip r).
Proof. intros Hc. simpl. rewrite Hc, andb_false_r. reflexivity. Qed.

Lemma is_empty_true (s : string) : is_empty s = true -> s = EmptyString.
Proof. destruct s; [reflexivity | discriminate]. Qed.

Lemma rstrip_idem (s : string) : rstrip (rstrip s) = rstrip s.
Proof.
  induction s as [| c r IH]; [reflexivity|]. simpl.
  destruct (is_empty (rstrip r) && is_space c) eqn:E; [reflexivity|].
  simpl. rewrite IH, E. reflexivity.
Qed.

(** Stripping the two ends of a text: the order does not matter. *)
Lemma lstrip_rstrip (s : string) : lstrip (rstrip s) = rstrip (lstrip s).
Proof.
  induction s as [| c r IH]; [reflexivity|].
  destruct (is_space c) eqn:Hc.
  - rewrite (lstrip_cons_space c r Hc). simpl. rewrite Hc, andb_true_r.
    destruct (is_empty (rstrip r)) eqn:E.
    + apply is_empty_true in E. rewrite <- IH, E. reflexivity.
    + rewrite (lstrip_cons_space _ _ Hc). exact IH.
  - rewrite (lstrip_cons_other c r Hc), (rstrip_cons_other c r Hc).
    apply lstrip_cons_other. exact Hc.
Qed.

Lemma strip_rstrip (s : string) : strip (rstrip s) = strip s.
Proof. unfold strip. rewrite lstrip_rstrip, rstrip_idem. reflexivity. Qed.

Lemma strip_cons_other (c : ascii) (r : string) :
  is_space c = false -> strip (String c r) = String c (rstrip r).
Proof.
  intros Hc. unfold strip. rewrite (lstrip_cons_other c r Hc).
  apply rstrip_cons_other. exact Hc.
Qed.

End Stripping.

Section Comments.

Variable ts : TokenSet.t.
Hypothesis Hctl : control_ids ts.
Variable quote : Z.
Hypothesis Hquote : TokenSet.getTokenID ts "'" = Ok quote.

(** The line of a comment. *)
Lemma tokenise_comment (st : IdentifierStore.t) (s : string) :
  Tokeniser.tokenise ts st (String "'" s)
  = Ok (st, quote :: (if is_empty (strip s) then []
                      else 0x80 :: slen (remove_char dquote (strip s))
                                :: ords (remove_char dquote (strip s)))).
Proof.
  unfold Tokeniser.tokenise.
  rewrite (strip_cons_other "'" s eq_refl).
  rewrite tokeniseLoop_unfold.
  change (is_empty (String "'" (rstrip s)) || startswith "//" (String "'" (rstrip s)))
    with false. cbv iota.
  cbn [String.length]. unfold Tokeniser.tokeniseOne.
  change (is_digit "'") with false. cbv iota.
  destruct (ascii_dec "'" "$") as [E | _]; [discriminate E|].
  destruct (ascii_dec "'" dquote) as [E | _]; [discriminate E|].
  destruct (ascii_dec "'" "'") as [_ | E]; [| congruence].
  rewrite strip_rstrip. unfold Tokeniser.getTokenID. rewrite Hquote, Ok_bind.
  destruct (is_empty (strip s)).
  - rewrite Ok_bind, tokeniseLoop_unfold. reflexivity.
  - change (TokenSet.getTokenID ts "!!str") with (TokenSet.getTokenID ts "!!STR").
    rewrite (id_str _ Hctl), !Ok_bind, tokeniseLoop_unfold. reflexivity.
Qed.

End Comments.

(** X6. A string literal whose text holds no double quote and no line feed
    is tokenised as the token !!STR, the length and the characters, and the
    lister turns these bytes into the literal again, double quotes
    included, and moves past them. *)
Theorem X6_string_literal_round_trip (body rest : string) (tw : Tokeniser.t)
        (pre post : list Z) (text : string) :
  plain_text body ->
  (String.length body < 256)%nat ->
  let bytes := 0x80 :: slen body :: ords body in
  Tokeniser.tokeniseOne TokenSet.tokens tw (String dquote (body +:+ String dquote rest))
    = Ok (Tokeniser.emit tw bytes, dot_star (lstrip rest)) /\
  ProgramLister.listOneElement TokenSet.tokens (pre ++ bytes ++ post) text (length pre)
    = (text' ← ProgramLister.append text (String dquote (body +:+ String dquote EmptyString));
       Ok (text', (length pre + length bytes)%nat)).
Proof.
  intros Hbody _ bytes. split.
  - apply (tokeniseOne_string TokenSet.tokens tw 0x80 body rest); [| exact Hbody].
    vm_compute. reflexivity.
  - subst bytes. change ((128 :: slen body :: ords body) ++ post)
      with (128 :: slen body :: ords body ++ post).
    rewrite (listOneElement_string TokenSet.tokens tokens_control_ids).
    simpl length. rewrite length_ords.
    replace (length pre + S (S (String.length body)))%nat
      with (length pre + String.length body + 2)%nat by lia.
    reflexivity.
Qed.

Lemma X6_string_literal_round_trip_witness :
  Tokeniser.tokeniseOne TokenSet.tokens (Tokeniser.mk IdentifierStore.init [0xC6])
    (String dquote ("HI" +:+ String dquote " ;"))
    = Ok (Tokeniser.mk IdentifierStore.init [0xC6; 0x80; 2; 72; 73], ";") /\
  ProgramLister.listOneElement TokenSet.tokens ([0xC6] ++ [0x80; 2; 72; 73] ++ [0xC0]) "print" 1
    = Ok ("print" +:+ String dquote ("HI" +:+ String dquote EmptyString), 5%nat).
Proof.
  assert (Hb : plain_text "HI") by (repeat constructor; discriminate).
  destruct (X6_string_literal_round_trip "HI" " ;" (Tokeniser.mk IdentifierStore.init [0xC6])
              [0xC6] [0xC0] "print" Hb ltac:(simpl; lia)) as [H1 H2].
  split.
  - refine (eq_trans H1 _). vm_compute. reflexivity.
  - refine (eq_trans _ (eq_trans H2 _)); vm_compute; reflexivity.
Defined.

(** X7. A string literal that is never closed, and a $ that no hexadecimal
    digit follows, make [tokeniseOne] raise AttributeError: the pattern
    does not match, and the match is used without a test. *)
Theorem X7_malformed_literals (tw : Tokeniser.t) (s : string) :
  (Forall (fun c => c <> dquote) (list_ascii_of_string s) ->
   Tokeniser.tokeniseOne TokenSet.tokens tw (String dquote s) = Raise AttributeError)
  /\
  ((forall c r, s = String c r -> is_hexdigit c = false) ->
   Tokeniser.tokeniseOne TokenSet.tokens tw (String "$" s) = Raise AttributeError).
Proof.
  split.
  - exact (tokeniseOne_unterminated TokenSet.tokens tokens_control_ids tw s).
  - exact (tokeniseOne_bad_hex TokenSet.tokens tokens_control_ids tw s).
Qed.

Lemma X7_malformed_literals_witness :
  Tokeniser.tokeniseOne TokenSet.tokens (Tokeniser.mk IdentifierStore.init [])
    (String dquote "HI") = Raise AttributeError /\
  Tokeniser.tokeniseOne TokenSet.tokens (Tokeniser.mk IdentifierStore.init []) "$" = Raise AttributeError /\
  Tokeniser.tokeniseOne TokenSet.tokens (Tokeniser.mk IdentifierStore.init []) "$G1" = Raise AttributeError.
Proof.
  split; [| split].
  - apply (proj1 (X7_malformed_literals _ "HI")). repeat constructor; discriminate.
  - apply (proj2 (X7_malformed_literals _ EmptyString)). intros c r H. discriminate H.
  - apply (proj2 (X7_malformed_literals _ "G1")). intros c r H. injection H as <- _. reflexivity.
Defined.

(** X8. Everything behind an apostrophe is a comment: the line is
    tokenised as the token of the apostrophe alone when only white space
    follows, and otherwise as that token and a string that holds the text
    without the white space around it and without any double quote.
    Nothing in the comment is tokenised, and the identifier store is left
    as it was. *)
Theorem X8_comment_line (st : IdentifierStore.t) (s : string) :
  Tokeniser.tokenise TokenSet.tokens st (String "'" s)
  = Ok (st, 0xCD :: (if is_empty (strip s) then []
                     else 0x80 :: slen (remove_char dquote (strip s))
                               :: ords (remove_char dquote (strip s)))).
Proof.
  apply (tokenise_comment TokenSet.tokens tokens_control_ids).
  vm_compute. reflexivity.
Qed.

(* ===================================================================== *)
(** * Proofs: the identifier store as a whole *)
(* ===================================================================== *)

Section StoreInvariants.
Import IdentifierStore.

Lemma markLast_nonempty (b : list Z) : b <> [] -> exists b', markLast b = Ok b'.
Proof.
  induction b as [| x r IH]; intros H; [congruence|].
  destruct r as [| y r]; [eexists; reflexivity|].
  destruct IH as [r' Hr']; [discriminate|].
  exists (x :: r').
  change (markLast (x :: y :: r)) with (r' ← markLast (y :: r); Ok (x :: r')).
  rewrite Hr'. reflexivity.
Qed.

Lemma upper_empty (name : string) : upper name = EmptyString -> name = EmptyString.
Proof. destruct name; [reflexivity | discriminate]. Qed.

(** How [add] ends: on a name the store knows, on the empty name, on a
    new name. *)
Lemma add_outcomes (st : t) (name : string) :
  store st <> [] ->
  match get st name with
  | Some _ => add st name = Raise AssertionError
  | None =>
      if is_empty name then add st name = Raise IndexError
      else exists st', add st name = Ok st'
  end.
Proof.
  intros Hne. unfold get, add.
  destruct (identifiers st !! upper name) as [ptr |] eqn:E.
  - rewrite bool_decide_eq_false_2 by congruence. reflexivity.
  - rewrite bool_decide_eq_true_2 by reflexivity. cbn [assert]. rewrite Ok_bind.
    destruct name as [| c r]; [reflexivity|]. cbn [is_empty].
    destruct (markLast_nonempty (ords (upper (String c r)))) as [b Hb]; [discriminate|].
    rewrite Hb, Ok_bind.
    destruct (_ && _); [| eexists; reflexivity].
    destruct (store st) as [| x s] eqn:Es; [congruence|].
    eexists. reflexivity.
Qed.

(** Looking a name up after another one was added. *)
Lemma get_add (st st' : t) (name other : string) :
  add st name = Ok st' ->
  get st' other =
    if decide (upper other = upper name)
    then Some (Z.of_nat (length (store st)) + 1)
    else get st other.
Proof.
  intros H. apply add_result in H as (b & pg & pg' & _ & _ & Hids & _).
  unfold get. rewrite Hids. destruct (decide (upper other = upper name)) as [-> | Hne].
  - apply lookup_insert_eq.
  - apply lookup_insert_ne. congruence.
Qed.

(** ** Every name of the store is read back through its pointer *)

Lemma readable_init : readable init.
Proof.
  split; [discriminate|]. intros key ptr H.
  change (identifiers init) with (∅ : gmap string Z) in H.
  rewrite lookup_empty in H. discriminate.
Qed.

Lemma tail_add (st st' : t) (name : string) (b : list Z) (pg : Z) :
  store st <> [] ->
  store st ++ slen (upper name) + 6 :: 0 :: 0 :: 0 :: 0 :: controlByte (upper name) :: b
    = pg :: tail (store st') ->
  tail (store st')
  = tail (store st) ++ slen (upper name) + 6 :: 0 :: 0 :: 0 :: 0 :: controlByte (upper name) :: b
  /\ length (tail (store st)) = (length (store st) - 1)%nat.
Proof.
  intros Hne Hs. destruct (store st) as [| x r]; [congruence|].
  injection Hs as _ Hs. split; [symmetry; exact Hs | simpl; lia].
Qed.

Lemma readable_add (st st' : t) (name : string) :
  ascii_name name -> readable st -> add st name = Ok st' -> readable st'.
Proof.
  intros Hascii [Hne Hread] Hadd.
  pose proof Hadd as Hadd'.
  apply add_result in Hadd as (b & pg & pg' & Hb & Hfresh & Hids & Hs & Hst' & _).
  destruct (tail_add st st' name b pg Hne Hs) as [Htail Hlen].
  split; [rewrite Hst'; discriminate|].
  intros key ptr Hkey. rewrite Hids in Hkey.
  destruct (decide (key = upper name)) as [-> | Hk].
  - rewrite lookup_insert_eq in Hkey. injection Hkey as <-.
    split; [lia|]. intros pages rest. rewrite Htail, <- app_assoc.
    assert (Hl : (0 < length (store st))%nat).
    { destruct (store st); [congruence | simpl; lia]. }
    replace (Z.to_nat (Z.of_nat (length (store st)) + 1 + 5))
      with (S (length (tail (store st)) + 6)) by lia.
    cbn [drop]. rewrite drop_app_add. simpl.
    apply (readName_markLast _ _ _ (upper_ascii _ Hascii) Hb).
  - rewrite lookup_insert_ne in Hkey by congruence.
    destruct (Hread key ptr Hkey) as [Hpos Hr].
    split; [exact Hpos|]. intros pages rest. rewrite Htail, <- app_assoc. apply Hr.
Qed.

Lemma readable_addAll (names : list string) (st st' : t) :
  Forall ascii_name names -> readable st -> addAll st names = Ok st' -> readable st'.
Proof.
  revert st. induction names as [| n names IH]; intros st Hn Hr H; simpl in H.
  - injection H as <-. exact Hr.
  - inversion Hn as [| ? ? Hn1 Hn2]; subst.
    apply bind_Ok in H as (st1 & H1 & H).
    apply (IH st1 Hn2); [| exact H]. exact (readable_add _ _ _ Hn1 Hr H1).
Qed.

(** ** The page count *)

Lemma land_128 (x : Z) : 0 <= x -> (Z.land x 128 =? 0) = (x mod 256 <? 128).
Proof.
  intros Hx.
  assert (H : Z.land x 128 = if Z.testbit x 7 then 128 else 0).
  { apply Z.bits_inj'. intros i Hi. rewrite Z.land_spec.
    change 128 with (2 ^ 7). rewrite Z.pow2_bits_eqb by lia.
    destruct (Z.eqb_spec 7 i) as [<- | Hne].
    - rewrite andb_true_r. destruct (Z.testbit x 7) eqn:E.
      + rewrite Z.pow2_bits_true by lia. reflexivity.
      + rewrite Z.bits_0. reflexivity.
    - rewrite andb_false_r. destruct (Z.testbit x 7).
      + rewrite Z.pow2_bits_false by lia. reflexivity.
      + rewrite Z.bits_0. reflexivity. }
  rewrite H. destruct (Z.testbit x 7) eqn:E.
  - apply Z.testbit_true in E; [| lia]. change (2 ^ 7) with 128 in E.
    change (128 =? 0) with false. symmetry. apply Z.ltb_ge.
    Z.div_mod_to_equations. lia.
  - apply Z.testbit_false in E; [| lia]. change (2 ^ 7) with 128 in E.
    change (0 =? 0) with true. symmetry. apply Z.ltb_lt.
    Z.div_mod_to_equations. lia.
Qed.

Lemma paged_init : paged init.
Proof. reflexivity. Qed.

Lemma pages_step (len k : Z) :
  0 <= len -> 0 < k <= 128 ->
  pages_for (len + k)
  = if (len mod 256 <? 128) && negb ((len + k) mod 256 <? 128)
    then pages_for len + 1 else pages_for len.
Proof.
  intros Hl Hk. unfold pages_for.
  destruct (Z.ltb_spec (len mod 256) 128) as [Ha | Ha];
    destruct (Z.ltb_spec ((len + k) mod 256) 128) as [Hb | Hb]; cbn [andb negb];
    Z.div_mod_to_equations; lia.
Qed.

Lemma paged_add (st st' : t) (name : string) :
  (String.length name <= 122)%nat -> paged st -> add st name = Ok st' -> paged st'.
Proof.
  intros Hshort Hp Hadd. unfold paged in *.
  pose proof (add_length _ _ _ Hadd) as Hlen.
  apply add_result in Hadd as (b & pg & pg' & Hb & _ & _ & Hs & Hst' & Hpg).
  assert (Hname : name <> EmptyString) by (intros ->; discriminate Hb).
  assert (Hk : (0 < String.length name)%nat) by (destruct name; [congruence | simpl; lia]).
  assert (Hold : pg = pages_for (Z.of_nat (length (store st)))).
  { destruct (store st) as [| x r]; [discriminate Hp|].
    injection Hs as Hx _. injection Hp as Hx'. rewrite <- Hx, Hx'. reflexivity. }
  assert (Hhead : head (store st') = Some pg') by (rewrite Hst'; reflexivity).
  rewrite Hhead. f_equal. rewrite Hpg, Hlen, Hold.
  rewrite !land_128 by lia.
  replace (Z.of_nat (length (store st) + 6 + String.length name))
    with (Z.of_nat (length (store st)) + (6 + Z.of_nat (String.length name))) by lia.
  symmetry. apply pages_step; lia.
Qed.

Lemma paged_addAll (names : list string) (st st' : t) :
  Forall (fun n => (String.length n <= 122)%nat) names ->
  paged st -> addAll st names = Ok st' -> paged st'.
Proof.
  revert st. induction names as [| n names IH]; intros st Hn Hp H; simpl in H.
  - injection H as <-. exact Hp.
  - inversion Hn as [| ? ? Hn1 Hn2]; subst.
    apply bind_Ok in H as (st1 & H1 & H).
    apply (IH st1 Hn2); [| exact H]. exact (paged_add _ _ _ Hn1 Hp H1).
Qed.

Lemma pages_room (len : Z) : 0 <= len -> len + 128 < pages_for len * 256.
Proof. intros H. unfold pages_for. Z.div_mod_to_equations. lia. Qed.

End StoreInvariants.

(** X9. How [add] ends, for a name of 7-bit characters, on a store that
    is not empty: with AssertionError when the store knows the name,
    whatever its case; with IndexError on the empty name, which has no last
    character to mark; and otherwise with a store in which the name has the
    pointer that follows the old length. *)
Theorem X9_add_outcomes (st : IdentifierStore.t) (name : string) :
  ascii_name name ->
  IdentifierStore.store st <> [] ->
  (IdentifierStore.get st name <> None ->
   IdentifierStore.add st name = Raise AssertionError) /\
  (IdentifierStore.get st name = None -> name = EmptyString ->
   IdentifierStore.add st name = Raise IndexError) /\
  (IdentifierStore.get st name = None -> name <> EmptyString ->
   exists st', IdentifierStore.add st name = Ok st' /\
               IdentifierStore.get st' name
               = Some (Z.of_nat (length (IdentifierStore.store st)) + 1)).
Proof.
  intros _ Hne. pose proof (add_outcomes st name Hne) as H.
  destruct (IdentifierStore.get st name) as [ptr |] eqn:E.
  - split; [intros _; exact H|]. split; intros Hx; discriminate Hx.
  - split; [intros Hx; contradiction Hx; reflexivity|].
    split; intros _ Hn.
    + subst name. exact H.
    + destruct name as [| c r]; [contradiction Hn; reflexivity|]. cbn [is_empty] in H.
      destruct H as [st' H]. exists st'. split; [exact H|].
      rewrite (get_add _ _ _ (String c r) H).
      destruct (decide _) as [_ | Hx]; [reflexivity | contradiction Hx; reflexivity].
Qed.

Lemma X9_add_outcomes_witness :
  IdentifierStore.add store_with_string "A$" = Raise AssertionError /\
  IdentifierStore.add store_with_string EmptyString = Raise IndexError /\
  exists st', IdentifierStore.add store_with_string "b" = Ok st' /\
              IdentifierStore.get st' "b" = Some 10.
Proof.
  assert (Ha : ascii_name "A$") by (repeat constructor).
  assert (He : ascii_name EmptyString) by constructor.
  assert (Hb : ascii_name "b") by (repeat constructor).
  destruct (X9_add_outcomes store_with_string "A$" Ha ltac:(discriminate)) as (H1 & _ & _).
  destruct (X9_add_outcomes store_with_string EmptyString He ltac:(discriminate))
    as (_ & H2 & _).
  destruct (X9_add_outcomes store_with_string "b" Hb ltac:(discriminate)) as (_ & _ & H3).
  split; [apply H1; vm_compute; discriminate|].
  split; [apply H2; vm_compute; reflexivity|].
  apply H3; [vm_compute; reflexivity | discriminate].
Defined.

(** X10. Among names of 7-bit characters: after [add], a look-up of the
    new name, in any case, gives the new pointer, the old length of the
    store plus 1, and the look-up of every other name gives what it gave
    before. *)
Theorem X10_get_after_add (st st' : IdentifierStore.t) (name other : string) :
  ascii_name name -> ascii_name other ->
  IdentifierStore.add st name = Ok st' ->
  IdentifierStore.get st' other =
    if decide (upper other = upper name)
    then Some (Z.of_nat (length (IdentifierStore.store st)) + 1)
    else IdentifierStore.get st other.
Proof. intros _ _. exact (get_add st st' name other). Qed.

Lemma X10_get_after_add_witness :
  IdentifierStore.get store_with_string "A$" = Some 2 /\
  IdentifierStore.get store_with_string "b" = None.
Proof.
  assert (H : IdentifierStore.add IdentifierStore.init "a$" = Ok store_with_string)
    by (vm_compute; reflexivity).
  assert (H1 : ascii_name "a$") by (repeat constructor).
  assert (H2 : ascii_name "A$") by (repeat constructor).
  assert (H3 : ascii_name "b") by (repeat constructor).
  split.
  - exact (X10_get_after_add _ _ "a$" "A$" H1 H2 H).
  - exact (X10_get_after_add _ _ "a$" "b" H1 H3 H).
Defined.

(** X11. In a store that was built by adding names of 7-bit characters to
    the empty store, every name the store knows is read back by the lister
    from the address its pointer stands for, pointer plus 5, whatever
    follows the store in the image; and two bytes that hold the pointer are
    listed as the name in lower case. *)
Theorem X11_every_name_read_back (names : list string) (st : IdentifierStore.t)
        (name : string) (ptr : Z) (rest : list Z) :
  Forall ascii_name names ->
  addAll IdentifierStore.init names = Ok st ->
  IdentifierStore.get st name = Some ptr ->
  0 < ptr /\
  ProgramLister.readName (drop (Z.to_nat (ptr + 5)) (IdentifierStore.store st ++ rest))
    = Ok (upper name) /\
  (forall ts text p,
      ptr < 0x2000 ->
      (IdentifierStore.store st ++ rest) !! p = Some (Z.shiftr ptr 8) ->
      (IdentifierStore.store st ++ rest) !! (p + 1)%nat = Some (Z.land ptr 0xFF) ->
      ProgramLister.listOneElement ts (IdentifierStore.store st ++ rest) text p
      = (text' ← ProgramLister.append text (lower (upper name)); Ok (text', (p + 2)%nat))).
Proof.
  intros Hnames Hadd Hget.
  destruct (readable_addAll names _ _ Hnames readable_init Hadd) as [Hne Hread].
  destruct (Hread _ _ Hget) as [Hpos Hr].
  assert (Hrd : ProgramLister.readName
                  (drop (Z.to_nat (ptr + 5)) (IdentifierStore.store st ++ rest))
                = Ok (upper name)).
  { destruct (IdentifierStore.store st) as [| pg r] eqn:Es; [congruence|].
    exact (Hr pg rest). }
  split; [exact Hpos|]. split; [exact Hrd|].
  intros ts text p Hptr Hp Hp1.
  unfold ProgramLister.listOneElement, ProgramLister.at_.
  rewrite Hp. simpl.
  pose proof (pointer_high_byte ptr ltac:(lia)) as Hhi.
  replace ((0 <=? Z.shiftr ptr 8) && (Z.shiftr ptr 8 <? 32)) with true
    by (symmetry; apply andb_true_iff; split; [apply Z.leb_le | apply Z.ltb_lt]; lia).
  rewrite Hp1. simpl.
  replace (Z.shiftl (Z.shiftr ptr 8) 8 + Z.land ptr 255 + 5) with (ptr + 5)
    by (rewrite pointer_bytes by lia; reflexivity).
  rewrite Hrd. simpl.
  destruct (ProgramLister.append text (lower (upper name))); reflexivity.
Qed.

Lemma X11_every_name_read_back_witness :
  exists st,
    addAll IdentifierStore.init ["A"; "O"; "P"; "X"; "Y"; "count$"] = Ok st /\
    IdentifierStore.get st "Count$" = Some 37 /\
    ProgramLister.readName (drop 42 (IdentifierStore.store st ++ [0; 0])) = Ok "COUNT$".
Proof.
  assert (Hn : Forall ascii_name ["A"; "O"; "P"; "X"; "Y"; "count$"]).
  { repeat constructor; vm_compute; discriminate. }
  destruct (addAll IdentifierStore.init ["A"; "O"; "P"; "X"; "Y"; "count$"])
    as [st | |] eqn:E; try (vm_compute in E; discriminate E).
  assert (Hg : IdentifierStore.get st "Count$" = Some 37).
  { vm_compute in E. injection E as <-. vm_compute. reflexivity. }
  exists st. split; [reflexivity|]. split; [exact Hg|].
  exact (proj1 (proj2 (X11_every_name_read_back _ st "Count$" 37 [0; 0] Hn E Hg))).
Defined.

(** X12. In a store that was built by adding names of 7-bit characters
    and of at most 122 characters to the empty store, the page count in the
    first byte is what the length of the store asks for, one page and one
    more for every half page reached: half a page at least is left behind
    the last record, and [render] pads the store with zeros to the full
    length of its pages. *)
Theorem X12_page_count_covers_store (names : list string) (st : IdentifierStore.t) :
  Forall ascii_name names ->
  Forall (fun n => (String.length n <= 122)%nat) names ->
  addAll IdentifierStore.init names = Ok st ->
  let len := Z.of_nat (length (IdentifierStore.store st)) in
  let pages := pages_for len in
  head (IdentifierStore.store st) = Some pages /\
  len + 128 < pages * 256 /\
  exists padding,
    IdentifierStore.render st = Ok (IdentifierStore.store st ++ padding) /\
    Forall (fun b => b = 0) padding /\
    Z.of_nat (length (IdentifierStore.store st ++ padding)) = pages * 256.
Proof.
  intros _ Hnames Hadd len pages.
  pose proof (paged_addAll names _ _ Hnames paged_init Hadd) as Hp. unfold paged in Hp.
  pose proof (pages_room len ltac:(lia)) as Hroom.
  split; [exact Hp|]. split; [exact Hroom|].
  exists (replicate (Z.to_nat (pages * 256 - len)) 0).
  split; [| split].
  - unfold IdentifierStore.render. rewrite Hp. reflexivity.
  - apply Forall_replicate. reflexivity.
  - rewrite length_app, length_replicate. fold len. subst pages. lia.
Qed.

Lemma X12_page_count_covers_store_witness :
  exists st, store_at_127 = Ok st /\
    head (IdentifierStore.store st) = Some (pages_for 127) /\
    pages_for 127 = 1.
Proof.
  assert (Hs : addAll IdentifierStore.init
                 (split "A O P X Y B C D E F G H I J K L M Q") = store_at_127)
    by (vm_compute; reflexivity).
  destruct store_at_127 as [st | |] eqn:E; try (vm_compute in E; discriminate E).
  exists st. split; [reflexivity|].
  assert (Hlen : length (IdentifierStore.store st) = 127%nat).
  { vm_compute in E. injection E as <-. reflexivity. }
  assert (Hn : Forall (fun n => (String.length n <= 122)%nat)
                 (split "A O P X Y B C D E F G H I J K L M Q")).
  { vm_compute. repeat constructor. }
  assert (Ha : Forall ascii_name (split "A O P X Y B C D E F G H I J K L M Q")).
  { vm_compute. repeat constructor. }
  destruct (X12_page_count_covers_store _ st Ha Hn Hs) as (H & _ & _).
  rewrite Hlen in H. split; [exact H | reflexivity].
Defined.

(** The bound on the names is needed: after a name of 250 characters the
    store is 257 bytes long and its page count still 1. *)
Example long_name_outgrows_page :
  (st ← IdentifierStore.add IdentifierStore.init (long_name 250);
   Ok (length (IdentifierStore.store st), head (IdentifierStore.store st)))
  = Ok (257%nat, Some 1).
Proof. vm_compute. reflexivity. Qed.

(* ===================================================================== *)
(** * Proofs: the store and the code of a program *)
(* ===================================================================== *)

Section ProgramStore.
Import IdentifierStore.

Lemma addAll_app (st st1 st2 : t) (l1 l2 : list string) :
  addAll st l1 = Ok st1 -> addAll st1 l2 = Ok st2 -> addAll st (l1 ++ l2) = Ok st2.
Proof.
  revert st. induction l1 as [| n l1 IH]; intros st H1 H2; simpl in *.
  - injection H1 as <-. exact H2.
  - apply bind_Ok in H1 as (st' & Ha & H1). rewrite Ha, Ok_bind. eapply IH; eassumption.
Qed.

Lemma extends_refl (st : t) : extends st st.
Proof. exists []. split; [constructor | reflexivity]. Qed.

Lemma extends_trans (a b c : t) : extends a b -> extends b c -> extends a c.
Proof.
  intros (l1 & H1 & A1) (l2 & H2 & A2). exists (l1 ++ l2).
  split; [apply Forall_app; split; assumption | eapply addAll_app; eassumption].
Qed.

Lemma extends_add (st st' : t) (name : string) :
  ascii_name name -> add st name = Ok st' -> extends st st'.
Proof.
  intros Hn H. exists [name]. split; [repeat constructor; exact Hn|].
  simpl. rewrite H. reflexivity.
Qed.

Lemma wordchar_ascii (c : ascii) : Tokeniser.is_wordchar c = true -> ord c < 128.
Proof.
  destruct c as [[] [] [] [] [] [] [] []]; intros H; vm_compute in H;
    try discriminate H; reflexivity.
Qed.

Lemma ascii_name_app (a b : string) : ascii_name a -> ascii_name b -> ascii_name (a +:+ b).
Proof.
  unfold ascii_name. intros Ha Hb. induction a as [| c a IH]; [exact Hb|].
  rewrite sapp_cons. simpl. inversion Ha; subst. constructor; [assumption | apply IH; assumption].
Qed.

Lemma optional_ascii (c : ascii) (s a b : string) :
  ord c < 128 -> Tokeniser.optional c s = (a, b) -> ascii_name a.
Proof.
  intros Hc H. unfold Tokeniser.optional in H.
  destruct s as [| d r]; [injection H as <- <-; constructor|].
  destruct (ascii_dec c d); injection H as <- <-; repeat constructor. assumption.
Qed.

(** The names the tokeniser finds are made of 7-bit characters. *)
Lemma match_word_ascii (s w rest : string) :
  Tokeniser.match_word s = Some (w, rest) -> ascii_name w.
Proof.
  unfold Tokeniser.match_word. intros H.
  destruct (span Tokeniser.is_wordchar s) as [w0 r0] eqn:E.
  destruct (is_empty w0); [discriminate|].
  destruct (Tokeniser.optional "$" r0) as [d r1] eqn:E1.
  destruct (Tokeniser.optional "(" r1) as [p r2] eqn:E2.
  destruct (dot_star_end (lstrip r2)); [|discriminate].
  injection H as <- <-.
  apply ascii_name_app; [| apply ascii_name_app].
  - apply span_all in E. unfold ascii_name.
    induction w0 as [| c w0 IH]; [constructor|].
    inversion E; subst. constructor; [apply wordchar_ascii; assumption | apply IH; assumption].
  - eapply optional_ascii; [|exact E1]. reflexivity.
  - eapply optional_ascii; [|exact E2]. reflexivity.
Qed.

Section WithTokens.
Variable ts : TokenSet.t.

(** One step of the tokeniser adds one name of 7-bit characters to the
    store, or none. *)
Lemma tokeniseOne_extends (tw tw' : Tokeniser.t) (s r : string) :
  Tokeniser.tokeniseOne ts tw s = Ok (tw', r) ->
  extends (Tokeniser.iStore tw) (Tokeniser.iStore tw').
Proof.
  unfold Tokeniser.tokeniseOne. intros H.
  destruct s as [| c0 s1]; [discriminate|].
  repeat match type of H with
         | (if ?b then _ else _) = _ => destruct b eqn:?
         | (match ?x with _ => _ end) = _ => destruct x eqn:?
         | (?m ≫= _) = Ok _ =>
             let a := fresh "a" in let Ha := fresh "Ha" in
             apply bind_Ok in H as (a & Ha & H)
         | Ok _ = Ok _ => injection H as <- <-
         | Raise _ = Ok _ => discriminate H
         | OutOfFuel = Ok _ => discriminate H
         end;
    try apply extends_refl.
  all: simpl.
  all: repeat match goal with
         | Hx : (if ?b then _ else _) = Ok _ |- _ => destruct b eqn:?
         | Hx : (?m ≫= _) = Ok _ |- _ =>
             let a := fresh "a" in let Ha := fresh "Ha" in
             apply bind_Ok in Hx as (a & Ha & Hx)
         | Hx : Ok _ = Ok _ |- _ => injection Hx as <-
         end;
    try apply extends_refl.
  all: match goal with
       | Hm : orRaise AttributeError (Tokeniser.match_word _) = Ok _,
         Hadd : add _ _ = Ok _ |- _ =>
           apply orRaise_Ok, match_word_ascii in Hm;
           exact (extends_add _ _ _ Hm Hadd)
       end.
Qed.

Lemma tokeniseLoop_extends (fuel : nat) (tw tw' : Tokeniser.t) (s : string) :
  Tokeniser.tokeniseLoop ts fuel tw s = Ok tw' ->
  extends (Tokeniser.iStore tw) (Tokeniser.iStore tw').
Proof.
  revert tw s. induction fuel as [| fuel IH]; intros tw s H;
    rewrite tokeniseLoop_unfold in H;
    (destruct (is_empty s || startswith "//" s);
     [injection H as <-; apply extends_refl|]).
  - discriminate.
  - apply bind_Ok in H as ([tw1 r] & H1 & H).
    eapply extends_trans; [exact (tokeniseOne_extends _ _ _ _ H1)|].
    eapply IH. exact H.
Qed.

Lemma tokenise_extends (st st' : t) (s : string) (toks : list Z) :
  Tokeniser.tokenise ts st s = Ok (st', toks) -> extends st st'.
Proof.
  unfold Tokeniser.tokenise. intros H.
  apply bind_Ok in H as (tw & Hl & H). injection H as <- <-.
  apply (tokeniseLoop_extends _ (Tokeniser.mk st []) _ _ Hl).
Qed.

(** What [addLine] does to a program, when the text is not blank. *)
Lemma addLine_result (p p' : Program.t) (number : option Z) (text : string) (e : Z) :
  TokenSet.getTokenID ts "!!end" = Ok e ->
  Program.addLine ts p number text = Ok p' ->
  if is_empty (strip text) then p' = p else
  exists st toks,
    Tokeniser.tokenise ts (Program.store p) text = Ok (st, toks) /\
    let n := default (Program.nextLine p) number in
    let lineNo := if Program.libraryMode p then 0 else n in
    p' = Program.mk (n + Program.lineStep p) (Program.lineStep p)
           (Program.code p
            ++ Z.of_nat (length toks + 4) :: Z.land lineNo 0xFF :: Z.shiftr lineNo 8
               :: toks ++ [e])
           st (Program.identifiers p) (Program.libraryMode p).
Proof.
  intros He H. unfold Program.addLine in H.
  destruct (is_empty (strip text)); [injection H as <-; reflexivity|].
  apply bind_Ok in H as ([st toks] & Ht & H). rewrite He, Ok_bind in H.
  injection H as <-. exists st, toks. split; [exact Ht|]. cbv zeta.
  f_equal. f_equal. unfold Program.setLength. cbn [insert list_insert].
  cbn [length]. rewrite length_app. cbn [length]. f_equal. lia.
Qed.

End WithTokens.

End ProgramStore.

Section ProgramInvariants.
Import IdentifierStore.

Variable ts : TokenSet.t.
Hypothesis Hctl : control_ids ts.

Lemma addLine_extends (p p' : Program.t) (number : option Z) (text : string) :
  Program.addLine ts p number text = Ok p' ->
  extends (Program.store p) (Program.store p').
Proof.
  intros H. pose proof (addLine_result ts p p' number text 0xC0 (id_end _ Hctl) H) as R.
  destruct (is_empty (strip text)); [subst p'; apply extends_refl|].
  destruct R as (st & toks & Ht & ->). cbn [Program.store].
  exact (tokenise_extends _ _ _ _ _ Ht).
Qed.

Lemma command_code (p p' : Program.t) (c : string) :
  Program.command p c = Ok p' -> Program.code p' = Program.code p.
Proof.
  unfold Program.command. intros H.
  destruct (startswith "define" c).
  { destruct (find_char " " (strip (sdrop 6 c))); simpl in H;
      injection H as <-; reflexivity. }
  destruct (string_dec c "library"); [injection H as <-; reflexivity|].
  destruct (string_dec c "nolibrary"); [injection H as <-; reflexivity|].
  discriminate.
Qed.

(** What one line of the file does to the store and to the code: a
    directive leaves both, a line of text goes through [addLine]. *)
Lemma addSourceLine_addLine (p p' : Program.t) (s : string) :
  Program.addSourceLine ts p s = Ok p' ->
  exists p1,
    Program.store p1 = Program.store p /\ Program.code p1 = Program.code p /\
    (p' = p1 \/ exists number text, Program.addLine ts p1 number text = Ok p').
Proof.
  unfold Program.addSourceLine. intros H.
  apply bind_Ok in H as ([p1 s1] & H1 & H).
  exists p1.
  assert (Hp1 : Program.store p1 = Program.store p /\ Program.code p1 = Program.code p).
  { destruct (startswith "#" (strip s)).
    - apply bind_Ok in H1 as (p2 & Hc & H1). injection H1 as <- _.
      split; [apply (command_store _ _ _ Hc) | apply (command_code _ _ _ Hc)].
    - injection H1 as <- _. split; reflexivity. }
  destruct Hp1 as [Hs Hc]. split; [exact Hs|]. split; [exact Hc|].
  destruct (Program.processIdentifiers p1 (strip s1)) as [| c0 s2].
  { injection H as <-. left. reflexivity. }
  right. destruct (is_digit c0).
  - apply bind_Ok in H as ([g1 g2] & _ & H). eauto.
  - eauto.
Qed.

Lemma addSourceLine_extends (p p' : Program.t) (s : string) :
  Program.addSourceLine ts p s = Ok p' ->
  extends (Program.store p) (Program.store p').
Proof.
  intros H. apply addSourceLine_addLine in H as (p1 & Hs & _ & [-> | (n & t & H)]).
  - rewrite Hs. apply extends_refl.
  - rewrite <- Hs. exact (addLine_extends _ _ _ _ H).
Qed.

Lemma addLines_extends (lines : list string) (p p' : Program.t) :
  Program.addLines ts p lines = Ok p' ->
  extends (Program.store p) (Program.store p').
Proof.
  revert p. induction lines as [| s lines IH]; intros p H; simpl in H.
  - injection H as <-. apply extends_refl.
  - apply bind_Ok in H as (p1 & H1 & H).
    eapply extends_trans; [exact (addSourceLine_extends _ _ _ H1) | exact (IH _ H)].
Qed.

Lemma init_extends (p0 : Program.t) :
  Program.init = Ok p0 ->
  extends IdentifierStore.init (Program.store p0) /\ Program.code p0 = [].
Proof.
  unfold Program.init. intros H.
  apply bind_Ok in H as (s1 & H1 & H). apply bind_Ok in H as (s2 & H2 & H).
  apply bind_Ok in H as (s3 & H3 & H). apply bind_Ok in H as (s4 & H4 & H).
  apply bind_Ok in H as (s5 & H5 & H).
  injection H as <-. split; [|reflexivity].
  exists ["A"; "O"; "P"; "X"; "Y"]. split.
  - repeat constructor; vm_compute; discriminate.
  - simpl. rewrite H1, Ok_bind, H2, Ok_bind, H3, Ok_bind, H4, Ok_bind, H5. reflexivity.
Qed.

(** ** The code is a chain of line records *)

Lemma line_record_exact (r : list Z) : line_record r -> exact_record r.
Proof.
  intros (lo & hi & toks & ->). unfold exact_record. cbn [head length].
  rewrite length_app. cbn [length]. f_equal. lia.
Qed.

Lemma addLine_records (p p' : Program.t) (number : option Z) (text : string)
      (records : list (list Z)) :
  Program.code p = concat records ->
  Program.addLine ts p number text = Ok p' ->
  Program.code p' = concat records
  \/ exists r, line_record r /\ Program.code p' = concat (records ++ [r]).
Proof.
  intros Hc H. pose proof (addLine_result ts p p' number text 0xC0 (id_end _ Hctl) H) as R.
  destruct (is_empty (strip text)); [subst p'; left; exact Hc|].
  destruct R as (st & toks & _ & ->). cbn [Program.code]. right.
  eexists. split; [eexists _, _, toks; reflexivity|].
  rewrite concat_app, Hc. cbn [concat]. rewrite app_nil_r. reflexivity.
Qed.

Lemma addLines_records (lines : list string) (p p' : Program.t) (records : list (list Z)) :
  Program.code p = concat records ->
  Forall line_record records ->
  Program.addLines ts p lines = Ok p' ->
  exists records', Program.code p' = concat records' /\ Forall line_record records'.
Proof.
  revert p records. induction lines as [| s lines IH]; intros p records Hc Hr H; simpl in H.
  - injection H as <-. eauto.
  - apply bind_Ok in H as (p1 & H1 & H).
    apply addSourceLine_addLine in H1 as (p2 & _ & Hc2 & [-> | (n & t & H1)]).
    + apply (IH p2 records); [congruence | exact Hr | exact H].
    + rewrite <- Hc2 in Hc.
      destruct (addLine_records _ _ _ _ _ Hc H1) as [Hc1 | (r & Hrec & Hc1)].
      * apply (IH p1 records); assumption.
      * apply (IH p1 (records ++ [r])); [exact Hc1 | | exact H].
        apply Forall_app. split; [exact Hr | repeat constructor; exact Hrec].
Qed.

(** ** The names of a store and its keys *)

Lemma extends_nonempty (st st' : t) : store st <> [] -> extends st st' -> store st' <> [].
Proof.
  intros Hne (names & _ & H). revert st Hne H.
  induction names as [| n names IH]; intros st Hne H; simpl in H.
  - injection H as <-. exact Hne.
  - apply bind_Ok in H as (st1 & H1 & H). apply (IH st1); [| exact H].
    apply add_grows in H1; [apply H1 | exact Hne].
Qed.

Lemma addAll_grows (names : list string) (st st' : t) :
  store st <> [] -> addAll st names = Ok st' -> grows st st'.
Proof.
  revert st. induction names as [| n names IH]; intros st Hne H; simpl in H.
  - injection H as <-. apply grows_refl. exact Hne.
  - apply bind_Ok in H as (st1 & H1 & H).
    pose proof (add_grows _ _ _ Hne H1) as G1.
    eapply grows_trans; [exact G1 | apply IH; [apply G1 | exact H]].
Qed.

(** Every name that was added is a key of the store, in upper case. *)
Lemma addAll_keys (names : list string) (st st' : t) :
  store st <> [] -> addAll st names = Ok st' ->
  Forall (fun n => is_Some (identifiers st' !! upper n)) names.
Proof.
  revert st. induction names as [| n names IH]; intros st Hne H; simpl in H; [constructor|].
  apply bind_Ok in H as (st1 & H1 & H).
  pose proof (add_grows _ _ _ Hne H1) as G1.
  constructor; [| apply (IH st1); [apply G1 | exact H]].
  pose proof (addAll_grows _ _ _ (proj1 G1) H) as (_ & _ & Hsub).
  apply add_result in H1 as (b & pg & pg' & _ & _ & Hids & _).
  exists (Z.of_nat (length (store st)) + 1).
  eapply lookup_weaken; [| exact Hsub]. rewrite Hids. apply lookup_insert_eq.
Qed.

End ProgramInvariants.

(** X13. The code of a program that was built from a file is a chain of
    line records: each is its length, the two bytes of its line number, the
    tokens of the line and the end token 0xC0, the length counting all of
    them, so that the first byte of a record leads to the next record. *)
Theorem X13_code_is_chain_of_records (text : string) (p0 p : Program.t) :
  Program.init = Ok p0 ->
  Program.addFile TokenSet.tokens p0 text = Ok p ->
  exists records,
    Program.code p = concat records /\
    Forall line_record records /\
    Forall exact_record records.
Proof.
  intros Hinit Hadd. apply (init_extends ) in Hinit as [_ Hc0].
  destruct (addLines_records TokenSet.tokens tokens_control_ids _ p0 p [] Hc0
              ltac:(constructor) Hadd) as (records & Hc & Hr).
  exists records. split; [exact Hc|]. split; [exact Hr|].
  eapply Forall_impl; [exact Hr | apply line_record_exact].
Qed.

Lemma two_lines_code :
  (p0 ← Program.init;
   p ← Program.addFile TokenSet.tokens p0 ("10 A=5" +:+ String LF "20 A=6");
   Ok (Program.code p))
  = Ok (concat [record_a_is_5; record_a_is_6]).
Proof. vm_compute. reflexivity. Qed.

Lemma X13_code_is_chain_of_records_witness :
  exists p0 p,
    Program.init = Ok p0 /\
    Program.addFile TokenSet.tokens p0 ("10 A=5" +:+ String LF "20 A=6") = Ok p /\
    Program.code p = concat [record_a_is_5; record_a_is_6] /\
    exists records, Program.code p = concat records /\ Forall line_record records.
Proof.
  pose proof two_lines_code as D.
  destruct Program.init as [p0 | |] eqn:E0; [| discriminate D | discriminate D].
  rewrite Ok_bind in D.
  destruct (Program.addFile TokenSet.tokens p0 ("10 A=5" +:+ String LF "20 A=6"))
    as [p | |] eqn:E; [| discriminate D | discriminate D].
  rewrite Ok_bind in D. injection D as D.
  exists p0, p. split; [reflexivity|]. split; [exact E|]. split; [exact D|].
  destruct (X13_code_is_chain_of_records _ p0 p E0 E) as (records & Hc & Hr & _).
  exists records. split; assumption.
Defined.

(** X14. In a program that was built from a file, whatever the file,
    every identifier the store knows has a positive pointer, and its name
    is read back in the rendered image from the address the lister
    computes, pointer plus 5. *)
Theorem X14_program_names_read_back (text : string) (p0 p : Program.t) (img : list Z)
        (name : string) (ptr : Z) :
  Program.init = Ok p0 ->
  Program.addFile TokenSet.tokens p0 text = Ok p ->
  Program.render p = Ok img ->
  IdentifierStore.get (Program.store p) name = Some ptr ->
  0 < ptr /\
  ProgramLister.readName (drop (Z.to_nat (ptr + 5)) img) = Ok (upper name).
Proof.
  intros Hinit Hadd Hrender Hget.
  apply init_extends in Hinit as [E0 _].
  pose proof (addLines_extends TokenSet.tokens tokens_control_ids _ _ _ Hadd) as E1.
  destruct (extends_trans _ _ _ E0 E1) as (names & Hnames & Hall).
  destruct (readable_addAll names _ _ Hnames readable_init Hall) as [Hne Hread].
  destruct (Hread _ _ Hget) as [Hpos Hr]. split; [exact Hpos|].
  unfold Program.render, IdentifierStore.render in Hrender.
  apply bind_Ok in Hrender as (r & Hr0 & Hrender).
  apply bind_Ok in Hr0 as (pages & Hpg & Hr0). injection Hr0 as <-.
  unfold Program.bytes in Hrender.
  destruct (forallb _ _); [injection Hrender as <- | discriminate].
  destruct (IdentifierStore.store (Program.store p)) as [| pg s] eqn:Es; [congruence|].
  rewrite <- !app_assoc. exact (Hr pg _).
Qed.

Lemma total_demo :
  (p0 ← Program.init;
   p ← Program.addFile TokenSet.tokens p0 "10 total=total+1";
   img ← Program.render p;
   Ok (IdentifierStore.get (Program.store p) "total",
       forallb (fun '(key, _) => (String.length key <=? 122)%nat)
               (map_to_list (IdentifierStore.identifiers (Program.store p))),
       length img))
  = Ok (Some 37, true, 268%nat).
Proof. vm_compute. reflexivity. Qed.

Lemma X14_program_names_read_back_witness :
  exists p0 p img,
    Program.init = Ok p0 /\
    Program.addFile TokenSet.tokens p0 "10 total=total+1" = Ok p /\
    Program.render p = Ok img /\
    IdentifierStore.get (Program.store p) "total" = Some 37 /\
    ProgramLister.readName (drop 42 img) = Ok "TOTAL".
Proof.
  pose proof total_demo as D.
  destruct Program.init as [p0 | |] eqn:E0; [| discriminate D | discriminate D].
  rewrite Ok_bind in D.
  destruct (Program.addFile TokenSet.tokens p0 "10 total=total+1") as [p | |] eqn:E;
    [| discriminate D | discriminate D].
  rewrite Ok_bind in D.
  destruct (Program.render p) as [img | |] eqn:Er; [| discriminate D | discriminate D].
  rewrite Ok_bind in D. injection D as Hg _ _.
  exists p0, p, img. repeat (split; [first [reflexivity | assumption]|]).
  exact (proj2 (X14_program_names_read_back _ p0 p img "total" 37 E0 E Er Hg)).
Defined.

(** X15. When no identifier of a program has more than 122 characters, the
    image [render] writes is the identifier region, the store padded with
    zeros to exactly 256 bytes for every page its first byte counts,
    followed by the chain of line records and a final zero: the address the
    lister starts from, the page count times 256, is the first line
    record. *)
Theorem X15_image_layout (text : string) (p0 p : Program.t) (img : list Z) :
  Program.init = Ok p0 ->
  Program.addFile TokenSet.tokens p0 text = Ok p ->
  (forall key ptr,
      IdentifierStore.identifiers (Program.store p) !! key = Some ptr ->
      (String.length key <= 122)%nat) ->
  Program.render p = Ok img ->
  exists pages padding records,
    img = (IdentifierStore.store (Program.store p) ++ padding) ++ concat records ++ [0] /\
    Forall (fun b => b = 0) padding /\
    head img = Some pages /\
    length (IdentifierStore.store (Program.store p) ++ padding) = Z.to_nat (Z.shiftl pages 8) /\
    Forall line_record records /\
    Forall exact_record records.
Proof.
  intros Hinit Hadd Hshort Hrender.
  destruct (addLines_records TokenSet.tokens tokens_control_ids _ p0 p []
              (proj2 (init_extends _ Hinit)) ltac:(constructor) Hadd) as (records & Hc & Hr).
  apply init_extends in Hinit as [E0 _].
  pose proof (addLines_extends TokenSet.tokens tokens_control_ids _ _ _ Hadd) as E1.
  destruct (extends_trans _ _ _ E0 E1) as (names & Hnames & Hall).
  assert (Hlen : Forall (fun n => (String.length n <= 122)%nat) names).
  { pose proof (addAll_keys names IdentifierStore.init _ ltac:(discriminate) Hall) as Hk.
    eapply Forall_impl; [exact Hk|]. intros n [ptr Hn]. simpl in Hn.
    apply Hshort in Hn. unfold upper in Hn. rewrite length_smap in Hn. exact Hn. }
  pose proof (paged_addAll names _ _ Hlen paged_init Hall) as Hp. unfold paged in Hp.
  set (st := IdentifierStore.store (Program.store p)) in *.
  set (len := Z.of_nat (length st)) in *.
  pose proof (pages_room len ltac:(lia)) as Hroom.
  unfold Program.render, IdentifierStore.render in Hrender. fold st in Hrender.
  rewrite Hp in Hrender. cbn [orRaise] in Hrender. rewrite !Ok_bind in Hrender.
  unfold Program.bytes in Hrender.
  destruct (forallb _ _); [injection Hrender as <- | discriminate].
  exists (pages_for len), (replicate (Z.to_nat (pages_for len * 256 - len)) 0), records.
  split; [rewrite Hc; reflexivity|].
  split; [apply Forall_replicate; reflexivity|].
  split.
  { destruct st as [| x s]; [discriminate Hp | exact Hp]. }
  split.
  { rewrite length_app, length_replicate. rewrite Z.shiftl_mul_pow2 by lia.
    change (2 ^ 8) with 256. lia. }
  split; [exact Hr|].
  eapply Forall_impl; [exact Hr | apply line_record_exact].
Qed.

Lemma X15_image_layout_witness :
  exists p0 p img,
    Program.init = Ok p0 /\
    Program.addFile TokenSet.tokens p0 "10 total=total+1" = Ok p /\
    Program.render p = Ok img /\
    length img = 268%nat /\
    exists pages padding records,
      img = (IdentifierStore.store (Program.store p) ++ padding) ++ concat records ++ [0] /\
      length (IdentifierStore.store (Program.store p) ++ padding)
      = Z.to_nat (Z.shiftl pages 8).
Proof.
  pose proof total_demo as D.
  destruct Program.init as [p0 | |] eqn:E0; [| discriminate D | discriminate D].
  rewrite Ok_bind in D.
  destruct (Program.addFile TokenSet.tokens p0 "10 total=total+1") as [p | |] eqn:E;
    [| discriminate D | discriminate D].
  rewrite Ok_bind in D.
  destruct (Program.render p) as [img | |] eqn:Er; [| discriminate D | discriminate D].
  rewrite Ok_bind in D. injection D as _ Hkeys Hlen.
  assert (Hshort : forall key ptr,
             IdentifierStore.identifiers (Program.store p) !! key = Some ptr ->
             (String.length key <= 122)%nat).
  { intros key ptr H. apply elem_of_map_to_list, list_elem_of_In in H.
    apply (proj1 (forallb_forall _ _) Hkeys) in H. apply Nat.leb_le in H. exact H. }
  exists p0, p, img. repeat (split; [first [reflexivity | assumption]|]).
  destruct (X15_image_layout _ p0 p img E0 E Hshort Er)
    as (pages & padding & records & H1 & _ & _ & H2 & _).
  exists pages, padding, records. split; assumption.
Defined.

(* ===================================================================== *)
(** * Proofs: the listing, line by line *)
(* ===================================================================== *)

Section ListingChain.
Import ProgramLister.

Variable ts : TokenSet.t.
Variable showLineNumbers : bool.

Lemma exact_record_head (r : list Z) :
  exact_record r -> exists r', r = Z.of_nat (length r) :: r'.
Proof.
  unfold exact_record. destruct r as [| x r']; [discriminate|].
  intros H. injection H as ->. eauto.
Qed.

Lemma length_records (records : list (list Z)) :
  Forall exact_record records -> (length records <= length (concat records))%nat.
Proof.
  induction 1 as [| r records Hr _ IH]; [reflexivity|].
  apply exact_record_head in Hr as [r' Hr].
  cbn [concat length]. rewrite length_app. rewrite Hr. cbn [length]. lia.
Qed.

(** The walk over a chain of records that ends in a zero. *)
Lemma listLines_chain (records : list (list Z)) (junk : list Z) :
  Forall exact_record records ->
  forall (fuel : nat) (listing : string) (pre : list Z),
    (length records < fuel)%nat ->
    listLines ts (pre ++ concat records ++ 0 :: junk) showLineNumbers fuel listing
              (length pre)
    = (texts ← mapM (listLine ts (pre ++ concat records ++ 0 :: junk) showLineNumbers)
                    (offsets (length pre) records);
       Ok (listing +:+ join (map (fun t => t +:+ String LF EmptyString) texts))).
Proof.
  induction 1 as [| r records Hr Hrs IH]; intros fuel listing pre Hfuel.
  - destruct fuel as [| fuel]; [simpl in Hfuel; lia|].
    rewrite listLines_unfold. cbn [concat app]. rewrite at_app, Ok_bind.
    change (0 =? 0) with true. cbv iota. cbn [offsets mapM]. rewrite Ok_bind.
    cbn [map join foldr]. rewrite sapp_nil_r. reflexivity.
  - destruct fuel as [| fuel]; [simpl in Hfuel; lia|].
    rewrite listLines_unfold.
    pose proof Hr as Hr'. apply exact_record_head in Hr' as [r' Hhead].
    assert (Hbin : pre ++ concat (r :: records) ++ 0 :: junk
                   = pre ++ Z.of_nat (length r) :: r' ++ concat records ++ 0 :: junk).
    { cbn [concat]. rewrite <- app_assoc. rewrite Hhead at 1. reflexivity. }
    rewrite Hbin at 1. rewrite at_app, Ok_bind.
    replace (Z.of_nat (length r) =? 0) with false
      by (symmetry; apply Z.eqb_neq; rewrite Hhead; cbn [length]; lia).
    cbv iota. rewrite Nat2Z.id.
    cbn [offsets mapM].
    destruct (listLine ts (pre ++ concat (r :: records) ++ 0 :: junk) showLineNumbers
                       (length pre)) as [text | e |]; [| reflexivity | reflexivity].
    rewrite !Ok_bind.
    assert (Hbin' : pre ++ concat (r :: records) ++ 0 :: junk
                    = (pre ++ r) ++ concat records ++ 0 :: junk).
    { cbn [concat]. rewrite <- !app_assoc. reflexivity. }
    rewrite Hbin'. replace (length pre + length r)%nat with (length (pre ++ r))
      by apply length_app.
    rewrite (IH fuel _ (pre ++ r)) by (simpl in Hfuel; lia).
    destruct (mapM _ _) as [texts | e |]; [| reflexivity | reflexivity].
    rewrite !Ok_bind. cbn [map join foldr]. rewrite !sapp_assoc. reflexivity.
Qed.

Lemma list_code_chain (pages : Z) (region : list Z) (records : list (list Z))
      (junk : list Z) :
  head region = Some pages ->
  length region = Z.to_nat (Z.shiftl pages 8) ->
  Forall exact_record records ->
  list_code ts (region ++ concat records ++ 0 :: junk) showLineNumbers
  = (texts ← mapM (listLine ts (region ++ concat records ++ 0 :: junk) showLineNumbers)
                  (offsets (length region) records);
     Ok (join (map (fun t => t +:+ String LF EmptyString) texts))).
Proof.
  intros Hhead Hlen Hrec. unfold list_code.
  destruct region as [| x region']; [discriminate|]. injection Hhead as ->.
  change (at_ ((pages :: region') ++ concat records ++ 0 :: junk) 0) with (Ok pages).
  rewrite Ok_bind, <- Hlen.
  rewrite listLines_chain; [reflexivity | exact Hrec |].
  pose proof (length_records _ Hrec). rewrite !length_app. lia.
Qed.

End ListingChain.

(** X16. On an image made of an identifier region of the length its page
    count gives, a chain of line records whose first bytes are their
    lengths, and a zero, the listing is the text of the records, each
    followed by a line feed, in the order of the chain: one line for a
    record, the first error of a line being the error of the listing.
    Whatever follows the zero is not taken for a line. *)
Theorem X16_listing_follows_chain (ts : TokenSet.t) (showLineNumbers : bool) (pages : Z)
        (region : list Z) (records : list (list Z)) (junk : list Z) :
  head region = Some pages ->
  length region = Z.to_nat (Z.shiftl pages 8) ->
  Forall exact_record records ->
  let image := region ++ concat records ++ 0 :: junk in
  ProgramLister.list_code ts image showLineNumbers
  = (texts ← mapM (ProgramLister.listLine ts image showLineNumbers)
                  (offsets (length region) records);
     Ok (join (map (fun t => t +:+ String LF EmptyString) texts))).
Proof.
  intros Hhead Hlen Hrec image.
  exact (list_code_chain ts showLineNumbers pages region records junk Hhead Hlen Hrec).
Qed.

Lemma X16_listing_follows_chain_witness :
  ProgramLister.list_code TokenSet.tokens
    (region_one_page ++ concat [record_a_is_5; record_a_is_6] ++ 0 :: [8; 30; 0]) true
  = Ok ("10 a=5" +:+ String LF ("20 a=6" +:+ String LF EmptyString)).
Proof.
  refine (eq_trans (X16_listing_follows_chain TokenSet.tokens true 1 region_one_page
                      [record_a_is_5; record_a_is_6] [8; 30; 0] _ _ _) _).
  - reflexivity.
  - reflexivity.
  - repeat constructor.
  - vm_compute. reflexivity.
Defined.

(** X17. The listing of a rendered program, when no identifier has more
    than 122 characters: the code of the program is a chain of line
    records, and the lister gives the text of each, in order, one line for
    every line that was added. *)
Theorem X17_program_listed_line_by_line (text : string) (p0 p : Program.t) (img : list Z)
        (showLineNumbers : bool) :
  Program.init = Ok p0 ->
  Program.addFile TokenSet.tokens p0 text = Ok p ->
  (forall key ptr,
      IdentifierStore.identifiers (Program.store p) !! key = Some ptr ->
      (String.length key <= 122)%nat) ->
  Program.render p = Ok img ->
  exists records,
    Program.code p = concat records /\
    Forall line_record records /\
    ProgramLister.list_code TokenSet.tokens img showLineNumbers
    = (texts ← mapM (ProgramLister.listLine TokenSet.tokens img showLineNumbers)
                    (offsets (length img - length (Program.code p) - 1) records);
       Ok (join (map (fun t => t +:+ String LF EmptyString) texts))).
Proof.
  intros Hinit Hadd Hshort Hrender.
  destruct (addLines_records TokenSet.tokens tokens_control_ids _ p0 p []
              (proj2 (init_extends _ Hinit)) ltac:(constructor) Hadd) as (records & Hc & Hr).
  apply init_extends in Hinit as [E0 _].
  pose proof (addLines_extends TokenSet.tokens tokens_control_ids _ _ _ Hadd) as E1.
  destruct (extends_trans _ _ _ E0 E1) as (names & Hnames & Hall).
  assert (Hlen : Forall (fun n => (String.length n <= 122)%nat) names).
  { pose proof (addAll_keys names IdentifierStore.init _ ltac:(discriminate) Hall) as Hk.
    eapply Forall_impl; [exact Hk|]. intros n [ptr Hn]. simpl in Hn.
    apply Hshort in Hn. unfold upper in Hn. rewrite length_smap in Hn. exact Hn. }
  pose proof (paged_addAll names _ _ Hlen paged_init Hall) as Hp. unfold paged in Hp.
  set (st := IdentifierStore.store (Program.store p)) in *.
  set (len := Z.of_nat (length st)) in *.
  pose proof (pages_room len ltac:(lia)) as Hroom.
  unfold Program.render, IdentifierStore.render in Hrender. fold st in Hrender.
  rewrite Hp in Hrender. cbn [orRaise] in Hrender. rewrite !Ok_bind in Hrender.
  unfold Program.bytes in Hrender.
  destruct (forallb _ _); [injection Hrender as <- | discriminate].
  exists records. split; [exact Hc|]. split; [exact Hr|].
  rewrite Hc.
  set (region := st ++ replicate _ 0).
  replace (length (region ++ concat records ++ [0%Z]) - length (concat records) - 1)%nat
    with (length region) by (rewrite !length_app; simpl; lia).
  apply (list_code_chain TokenSet.tokens showLineNumbers (pages_for len) region records []).
  - subst region. destruct st as [| x s]; [discriminate Hp | exact Hp].
  - subst region. rewrite length_app, length_replicate, Z.shiftl_mul_pow2 by lia.
    change (2 ^ 8) with 256. lia.
  - eapply Forall_impl; [exact Hr | apply line_record_exact].
Qed.

Lemma X17_program_listed_line_by_line_witness :
  exists p0 p img,
    Program.init = Ok p0 /\
    Program.addFile TokenSet.tokens p0 "10 total=total+1" = Ok p /\
    Program.render p = Ok img /\
    exists records,
      Program.code p = concat records /\
      ProgramLister.list_code TokenSet.tokens img true
      = (texts ← mapM (ProgramLister.listLine TokenSet.tokens img true)
                      (offsets (length img - length (Program.code p) - 1) records);
         Ok (join (map (fun t => t +:+ String LF EmptyString) texts))).
Proof.
  pose proof total_demo as D.
  destruct Program.init as [p0 | |] eqn:E0; [| discriminate D | discriminate D].
  rewrite Ok_bind in D.
  destruct (Program.addFile TokenSet.tokens p0 "10 total=total+1") as [p | |] eqn:E;
    [| discriminate D | discriminate D].
  rewrite Ok_bind in D.
  destruct (Program.render p) as [img | |] eqn:Er; [| discriminate D | discriminate D].
  rewrite Ok_bind in D. injection D as _ Hkeys Hlen.
  assert (Hshort : forall key ptr,
             IdentifierStore.identifiers (Program.store p) !! key = Some ptr ->
             (String.length key <= 122)%nat).
  { intros key ptr H. apply elem_of_map_to_list, list_elem_of_In in H.
    apply (proj1 (forallb_forall _ _) Hkeys) in H. apply Nat.leb_le in H. exact H. }
  exists p0, p, img. repeat (split; [first [reflexivity | assumption]|]).
  destruct (X17_program_listed_line_by_line _ p0 p img true E0 E Hshort Er)
    as (records & H1 & _ & H2).
  exists records. split; assumption.
Defined.

(* ===================================================================== *)
(** * Proofs: makelibrary *)
(* ===================================================================== *)

Section MakeLibrary.

Lemma index_inside {A} (l : list A) (i : nat) :
  (i < length l)%nat -> index l (Z.of_nat i) = Ok i.
Proof.
  intros H. unfold index.
  replace ((0 <=? Z.of_nat i) && (Z.of_nat i <? Z.of_nat (length l))) with true
    by (symmetry; apply andb_true_iff; split; [apply Z.leb_le | apply Z.ltb_lt]; lia).
  rewrite Nat2Z.id. reflexivity.
Qed.

Lemma getitem_inside {A} (l : list A) (i : nat) (x : A) :
  l !! i = Some x -> getitem l (Z.of_nat i) = Ok x.
Proof.
  intros H. unfold getitem. rewrite index_inside by (eapply lookup_lt_Some; exact H).
  rewrite Ok_bind, H. reflexivity.
Qed.

Lemma setitem_inside {A} (l : list A) (i : nat) (x : A) :
  (i < length l)%nat -> setitem l (Z.of_nat i) x = Ok (<[i := x]> l).
Proof. intros H. unfold setitem. rewrite index_inside by exact H. reflexivity. Qed.

Lemma length_zero_number (r : list Z) : length (zero_number r) = length r.
Proof. unfold zero_number. rewrite !length_insert. reflexivity. Qed.

Lemma makelibraryLoop_unfold (fuel : nat) (code : list Z) (p : Z) :
  Program.makelibraryLoop fuel code p =
    if p =? Z.of_nat (length code) then Ok code else
    match fuel with
    | O => OutOfFuel
    | S fuel' =>
        code ← setitem code (p + 1) 0;
        code ← setitem code (p + 2) 0;
        step ← getitem code p;
        Program.makelibraryLoop fuel' code (p + step)
    end.
Proof. destruct fuel; reflexivity. Qed.

(** The walk over a chain of records. *)
Lemma makelibraryLoop_chain (records : list (list Z)) :
  Forall exact_record records ->
  Forall (fun r => (3 <= length r)%nat) records ->
  forall (fuel : nat) (pre : list Z),
    (length records <= fuel)%nat ->
    Program.makelibraryLoop fuel (pre ++ concat records) (Z.of_nat (length pre))
    = Ok (pre ++ concat (map zero_number records)).
Proof.
  induction 1 as [| r records Hr _ IH]; intros Hlen fuel pre Hfuel.
  - rewrite makelibraryLoop_unfold. cbn [concat map]. rewrite app_nil_r.
    rewrite Z.eqb_refl. reflexivity.
  - inversion Hlen as [| ? ? Hr3 Hlen']; subst.
    destruct fuel as [| fuel]; [simpl in Hfuel; lia|].
    rewrite makelibraryLoop_unfold.
    pose proof Hr as Hhead. unfold exact_record in Hhead.
    destruct r as [| l0 [| a [| b r']]]; try (simpl in Hr3; lia).
    cbn [head] in Hhead. injection Hhead as Hl0.
    cbn [concat].
    replace (Z.of_nat (length pre) =? Z.of_nat (length (pre ++ (l0 :: a :: b :: r') ++ concat records)))
      with false
      by (symmetry; apply Z.eqb_neq; rewrite !length_app; cbn [length]; lia).
    replace (Z.of_nat (length pre) + 1) with (Z.of_nat (length pre + 1)) by lia.
    replace (Z.of_nat (length pre) + 2) with (Z.of_nat (length pre + 2)) by lia.
    rewrite setitem_inside by (rewrite !length_app; cbn [length]; lia).
    rewrite Ok_bind.
    rewrite setitem_inside by (rewrite length_insert, !length_app; cbn [length]; lia).
    rewrite Ok_bind.
    rewrite insert_app_r_alt by lia.
    replace (length pre + 1 - length pre)%nat with 1%nat by lia.
    rewrite insert_app_r_alt by lia.
    replace (length pre + 2 - length pre)%nat with 2%nat by lia.
    cbn [app insert list_insert].
    rewrite (getitem_inside _ (length pre) l0)
      by (rewrite lookup_app_r by lia; rewrite Nat.sub_diag; reflexivity).
    rewrite Ok_bind.
    replace (pre ++ l0 :: 0 :: 0 :: r' ++ concat records)
      with ((pre ++ l0 :: 0 :: 0 :: r') ++ concat records)
      by (rewrite <- app_assoc; reflexivity).
    replace (Z.of_nat (length pre) + l0)
      with (Z.of_nat (length (pre ++ l0 :: 0 :: 0 :: r')))
      by (rewrite length_app, Hl0; cbn [length]; lia).
    rewrite (IH Hlen' fuel) by (simpl in Hfuel; lia).
    cbn [map concat]. rewrite <- !app_assoc. reflexivity.
Qed.

(** A length byte of zero, where the walk arrives, holds it for ever. *)
Lemma makelibraryLoop_stuck (fuel : nat) :
  forall (code : list Z) (p : nat),
    (p + 2 < length code)%nat ->
    code !! p = Some 0 ->
    Program.makelibraryLoop fuel code (Z.of_nat p) = OutOfFuel.
Proof.
  induction fuel as [| fuel IH]; intros code p Hp H0; rewrite makelibraryLoop_unfold;
    (replace (Z.of_nat p =? Z.of_nat (length code)) with false
      by (symmetry; apply Z.eqb_neq; lia)); [reflexivity|].
  replace (Z.of_nat p + 1) with (Z.of_nat (p + 1)) by lia.
  replace (Z.of_nat p + 2) with (Z.of_nat (p + 2)) by lia.
  rewrite setitem_inside by lia. rewrite Ok_bind.
  rewrite setitem_inside by (rewrite length_insert; lia). rewrite Ok_bind.
  assert (H0' : <[(p + 2)%nat := 0]> (<[(p + 1)%nat := 0]> code) !! p = Some 0).
  { rewrite !list_lookup_insert_ne by lia. exact H0. }
  rewrite (getitem_inside _ p 0 H0'), Ok_bind.
  replace (Z.of_nat p + 0) with (Z.of_nat p) by lia.
  apply IH; [rewrite !length_insert; exact Hp | exact H0'].
Qed.

End MakeLibrary.

(** X18. On a program whose code is a chain of records of three bytes or
    more, each beginning with its length, [makelibrary] sets the two bytes
    of every line number to zero and leaves everything else as it is; on a
    program without code, which is what it is called on before any file is
    read, it changes nothing.  On a code of three bytes or more whose first
    byte is zero it never ends: no budget of iterations is enough. *)
Theorem X18_makelibrary (p : Program.t) (records : list (list Z)) :
  (Program.code p = concat records ->
   Forall exact_record records ->
   Forall (fun r => (3 <= length r)%nat) records ->
   Program.makelibrary p
   = Ok (Program.mk (Program.nextLine p) (Program.lineStep p)
           (concat (map zero_number records))
           (Program.store p) (Program.identifiers p) (Program.libraryMode p)))
  /\
  (forall fuel a b rest, Program.makelibraryLoop fuel (0 :: a :: b :: rest) 0 = OutOfFuel).
Proof.
  split.
  - intros Hc Hr Hlen. unfold Program.makelibrary. rewrite Hc.
    rewrite (makelibraryLoop_chain records Hr Hlen _ []); [reflexivity|].
    pose proof (length_records _ Hr). lia.
  - intros fuel a b rest. apply (makelibraryLoop_stuck fuel (0 :: a :: b :: rest) 0).
    + simpl. lia.
    + reflexivity.
Qed.

Lemma X18_makelibrary_witness :
  Program.makelibrary (Program.mk 120 10 (concat [record_a_is_5; record_a_is_6])
                         IdentifierStore.init ∅ false)
  = Ok (Program.mk 120 10 [8; 0; 0; 0; 2; 0x30; 0x45; 0xC0; 8; 0; 0; 0; 2; 0x30; 0x46; 0xC0]
          IdentifierStore.init ∅ false).
Proof.
  refine (eq_trans (proj1 (X18_makelibrary
                             (Program.mk 120 10 (concat [record_a_is_5; record_a_is_6])
                                IdentifierStore.init ∅ false)
                             [record_a_is_5; record_a_is_6]) _ _ _) _).
  - reflexivity.
  - repeat constructor.
  - repeat constructor; simpl; lia.
  - reflexivity.
Defined.

(* ===================================================================== *)
(** * Proofs: dump *)
(* ===================================================================== *)

Section Dump.
Import IdentifierStore.

Lemma land_low (x : Z) : 0 <= x < 128 -> Z.land x 128 = 0 /\ Z.land x 127 = x.
Proof.
  intros Hx. split.
  - pose proof (land_128 x ltac:(lia)) as H.
    rewrite Z.mod_small in H by lia.
    replace (x <? 128) with true in H by (symmetry; apply Z.ltb_lt; lia).
    apply Z.eqb_eq in H. exact H.
  - change 127 with (Z.ones 7). rewrite Z.land_ones by lia.
    apply Z.mod_small. change (2 ^ 7) with 128. lia.
Qed.

Lemma land_marked (x : Z) :
  0 <= x < 128 -> Z.land (Z.lor x 128) 128 = 128 /\ Z.land (Z.lor x 128) 127 = x.
Proof.
  intros Hx. destruct (land_low x Hx) as [H1 H2].
  rewrite !Z.land_lor_distr_l, H1, H2. split; [reflexivity|].
  change (Z.land 128 127) with 0. apply Z.lor_0_r.
Qed.

(** [dump] reads a marked name as the lister does. *)
Lemma dumpName_markLast (name : string) (b rest : list Z) :
  ascii_name name ->
  markLast (ords name) = Ok b ->
  dumpName (b ++ rest) = Ok name.
Proof.
  unfold ascii_name. revert b.
  induction name as [| c s IH]; intros b Hascii H; [discriminate|].
  inversion Hascii as [| ? ? Hc Hs]; subst.
  pose proof (ord_range c) as Hr.
  destruct s as [| d s].
  - simpl in H. injection H as <-. cbn [app dumpName].
    destruct (land_marked (ord c) ltac:(lia)) as [H1 H2].
    rewrite H1, H2, chr_ord. reflexivity.
  - change (markLast (ords (String c (String d s))))
      with (r' ← markLast (ords (String d s)); Ok (ord c :: r')) in H.
    apply bind_Ok in H as (r' & Hr' & H). injection H as <-.
    cbn [app dumpName].
    destruct (land_low (ord c) ltac:(lia)) as [H1 H2].
    rewrite H1, H2, chr_ord. change (0 =? 0) with true. cbv iota.
    rewrite (IH r' Hs Hr'). reflexivity.
Qed.

(** The records of the names, behind what the store held. *)
Lemma addAll_records (names : list string) (st st' : t) :
  store st <> [] ->
  addAll st names = Ok st' ->
  exists recs,
    tail (store st') = tail (store st) ++ concat recs /\
    Forall2 name_record names recs.
Proof.
  revert st. induction names as [| n names IH]; intros st Hne H; simpl in H.
  - injection H as <-. exists []. split; [rewrite app_nil_r; reflexivity | constructor].
  - apply bind_Ok in H as (st1 & H1 & H).
    pose proof (add_grows _ _ _ Hne H1) as (Hne1 & _ & _).
    apply add_result in H1 as (b & pg & pg' & Hb & _ & _ & Hs & _ & _).
    destruct (tail_add st st1 n b pg Hne Hs) as [Htail _].
    destruct (IH st1 Hne1 H) as (recs & Ht & Hrecs).
    eexists (_ :: recs). split.
    + rewrite Ht, Htail. cbn [concat]. rewrite <- app_assoc. reflexivity.
    + constructor; [| exact Hrecs]. exists b. split; [exact Hb | reflexivity].
Qed.

Lemma from_inside (l : list Z) (i : nat) : from_ l (Z.of_nat i) = drop i l.
Proof.
  unfold from_. replace (0 <=? Z.of_nat i) with true by (symmetry; apply Z.leb_le; lia).
  rewrite Nat2Z.id. reflexivity.
Qed.

Lemma dumpLoop_unfold (fuel : nat) (data : list Z) (pos : Z) :
  dumpLoop fuel data pos =
    match fuel with
    | O => ([], OutOfFuel)
    | S fuel' =>
        match getitem data pos with
        | Ok len =>
            if len =? 0 then ([], Ok tt) else
            match dumpRecord data pos with
            | Ok line =>
                let '(lines, r) := dumpLoop fuel' data (pos + len) in (line :: lines, r)
            | Raise e => ([], Raise e)
            | OutOfFuel => ([], OutOfFuel)
            end
        | Raise e => ([], Raise e)
        | OutOfFuel => ([], OutOfFuel)
        end
    end.
Proof. destruct fuel; reflexivity. Qed.

(** The walk of [dump] over the records of a store, up to the first
    zero behind them. *)
Lemma dumpLoop_chain (names : list string) (recs : list (list Z)) (rest : list Z) :
  Forall2 name_record names recs ->
  Forall ascii_name names ->
  forall (fuel : nat) (pre : list Z),
    (length names < fuel)%nat ->
    dumpLoop fuel (pre ++ concat recs ++ 0 :: rest) (Z.of_nat (length pre))
    = (dump_lines (Z.of_nat (length pre)) names, Ok tt).
Proof.
  induction 1 as [| name rec names recs Hrec _ IH]; intros Hascii fuel pre Hfuel;
    (destruct fuel as [| fuel]; [simpl in Hfuel; lia|]); rewrite dumpLoop_unfold.
  - cbn [concat app].
    rewrite (getitem_inside _ (length pre) 0)
      by (rewrite lookup_app_r by lia; rewrite Nat.sub_diag; reflexivity).
    reflexivity.
  - inversion Hascii as [| ? ? Hname Hnames]; subst.
    destruct Hrec as (b & Hb & ->).
    set (len := slen (upper name) + 6).
    set (ctrl := controlByte (upper name)).
    assert (Hlen : len = slen name + 6).
    { subst len. unfold slen, upper. rewrite length_smap. reflexivity. }
    assert (Hlenb : length b = String.length name).
    { apply markLast_length in Hb. rewrite Hb, length_ords. unfold upper.
      apply length_smap. }
    cbn [concat]. rewrite <- (app_assoc (len :: 0 :: 0 :: 0 :: 0 :: ctrl :: b)).
    set (data := pre ++ (len :: 0 :: 0 :: 0 :: 0 :: ctrl :: b) ++ concat recs ++ 0 :: rest).
    assert (Hat : forall k x,
               (len :: 0 :: 0 :: 0 :: 0 :: ctrl :: b) !! k = Some x ->
               getitem data (Z.of_nat (length pre) + Z.of_nat k) = Ok x).
    { intros k x Hk. rewrite <- Nat2Z.inj_add. apply getitem_inside.
      subst data. rewrite lookup_app_r by lia.
      replace (length pre + k - length pre)%nat with k by lia.
      rewrite lookup_app_l by (eapply lookup_lt_Some; exact Hk). exact Hk. }
    replace (getitem data (Z.of_nat (length pre))) with (Ok len : result Z)
      by (symmetry; rewrite <- (Z.add_0_r (Z.of_nat (length pre)));
          apply (Hat 0%nat); reflexivity).
    replace (len =? 0) with false
      by (symmetry; apply Z.eqb_neq; rewrite Hlen; unfold slen; lia).
    unfold dumpRecord.
    replace (Z.of_nat (length pre) + 6) with (Z.of_nat (length pre + 6)) by lia.
    rewrite from_inside.
    replace (drop (length pre + 6) data) with (b ++ concat recs ++ 0 :: rest)
      by (subst data; rewrite drop_app_add; reflexivity).
    rewrite (dumpName_markLast _ _ _ (upper_ascii _ Hname) Hb), Ok_bind.
    change 5 with (Z.of_nat 5). rewrite (Hat 5%nat ctrl eq_refl), Ok_bind.
    change 1 with (Z.of_nat 1). rewrite (Hat 1%nat 0 eq_refl), Ok_bind.
    change (Z.land 0 192 =? 0) with true. cbv iota.
    replace data with ((pre ++ len :: 0 :: 0 :: 0 :: 0 :: ctrl :: b) ++ concat recs ++ 0 :: rest)
      by (subst data; rewrite <- app_assoc; reflexivity).
    replace (Z.of_nat (length pre) + len)
      with (Z.of_nat (length (pre ++ len :: 0 :: 0 :: 0 :: 0 :: ctrl :: b)))
      by (rewrite length_app, Hlen; cbn [length]; unfold slen; lia).
    rewrite (IH Hnames fuel) by (simpl in Hfuel; lia).
    cbn [dump_lines]. rewrite sapp_nil_r.
    replace (Z.of_nat (length (pre ++ len :: 0 :: 0 :: 0 :: 0 :: ctrl :: b)))
      with (Z.of_nat (length pre) + (slen name + 6))
      by (rewrite length_app; cbn [length]; unfold slen; lia).
    reflexivity.
Qed.

End Dump.

(** X19. For a store that was built by adding names of 7-bit characters
    and of at most 122 characters to the empty store, [dump] prints one
    line for every name, in the order in which the names were added: the
    offset of the record, the control byte and the name in lower case.  It
    ends at the first zero behind the records without an error, and never
    prints the $ that the format reserves for a string variable, the byte
    it tests being always zero. *)
Theorem X19_dump_lists_names (names : list string) (st : IdentifierStore.t) :
  Forall ascii_name names ->
  Forall (fun n => (String.length n <= 122)%nat) names ->
  addAll IdentifierStore.init names = Ok st ->
  IdentifierStore.dump st = (dump_lines 1 names, Ok tt).
Proof.
  intros Hascii Hshort Hall.
  pose proof (paged_addAll names _ _ Hshort paged_init Hall) as Hp. unfold paged in Hp.
  destruct (addAll_records names IdentifierStore.init _ ltac:(discriminate) Hall)
    as (recs & Htail & Hrecs).
  cbn [IdentifierStore.store IdentifierStore.init tail app] in Htail.
  set (len := Z.of_nat (length (IdentifierStore.store st))) in *.
  pose proof (pages_room len ltac:(lia)) as Hroom.
  unfold IdentifierStore.dump, IdentifierStore.render. rewrite Hp. cbn [orRaise].
  rewrite Ok_bind. fold len.
  destruct (IdentifierStore.store st) as [| pg s] eqn:Es; [discriminate Hp|].
  cbn [tail] in Htail. subst s.
  destruct (Z.to_nat (pages_for len * 256 - len)) as [| k] eqn:Ek; [lia|].
  cbn [replicate].
  change (pg :: concat recs) with ([pg] ++ concat recs). rewrite <- app_assoc.
  apply (dumpLoop_chain names recs (replicate k 0) Hrecs Hascii _ [pg]).
  rewrite !length_app. cbn [length].
  assert (Hn : (length names <= length (concat recs))%nat).
  { clear -Hrecs. induction Hrecs as [| n r names recs (b & _ & ->) _ IH]; [reflexivity|].
    cbn [concat length]. rewrite length_app. cbn [length]. lia. }
  lia.
Qed.

Lemma X19_dump_lists_names_witness :
  exists st,
    addAll IdentifierStore.init ["a"; "count$"; "m("] = Ok st /\
    IdentifierStore.dump st
    = (["Record $0001 : $00 a"; "Record $0008 : $80 count$"; "Record $0014 : $10 m("],
       Ok tt).
Proof.
  destruct (addAll IdentifierStore.init ["a"; "count$"; "m("]) as [st | |] eqn:E;
    try (vm_compute in E; discriminate E).
  exists st. split; [reflexivity|].
  refine (eq_trans (X19_dump_lists_names ["a"; "count$"; "m("] st _ _ E) _).
  - repeat constructor; vm_compute; discriminate.
  - repeat constructor; simpl; lia.
  - vm_compute. reflexivity.
Defined.

(* ===================================================================== *)
(** * Proofs: getRange and Token *)
(* ===================================================================== *)

Section GetRange.
Import TokenSet.

Variable ts : TokenSet.t.

Lemma getRangeLoop_unfold (fuel : nat) (start : Z) :
  getRangeLoop ts fuel start =
    match idToToken ts !! start with
    | None => Ok []
    | Some tk =>
        match fuel with
        | O => OutOfFuel
        | S fuel' => ids ← getRangeLoop ts fuel' (start + 1); Ok (tk :: ids)
        end
    end.
Proof. destruct fuel; reflexivity. Qed.

(** What the loop returns: the tokens of the identifiers from [start]
    on, up to the first identifier that has none. *)
Lemma getRangeLoop_run (fuel : nat) (start : Z) (l : list Token.t) :
  getRangeLoop ts fuel start = Ok l ->
  (forall i : nat, (i < length l)%nat -> idToToken ts !! (start + Z.of_nat i) = l !! i) /\
  idToToken ts !! (start + Z.of_nat (length l)) = None.
Proof.
  revert start l. induction fuel as [| fuel IH]; intros start l H;
    rewrite getRangeLoop_unfold in H;
    destruct (idToToken ts !! start) as [tk |] eqn:E; try discriminate H.
  - injection H as <-. split; [intros i Hi; simpl in Hi; lia|].
    simpl. rewrite Z.add_0_r. exact E.
  - apply bind_Ok in H as (ids & Hids & H). injection H as <-.
    destruct (IH _ _ Hids) as [Hin Hout]. split.
    + intros [| i] Hi; [simpl; rewrite Z.add_0_r; exact E|].
      simpl in Hi. change ((tk :: ids) !! S i) with (ids !! i).
      rewrite <- (Hin i) by lia. f_equal. lia.
    + rewrite <- Hout. f_equal. simpl length. lia.
  - injection H as <-. split; [intros i Hi; simpl in Hi; lia|].
    simpl. rewrite Z.add_0_r. exact E.
Qed.

(** A budget that runs out has met an identifier at every step. *)
Lemma getRangeLoop_exhausted (fuel : nat) (start : Z) :
  getRangeLoop ts fuel start = OutOfFuel ->
  forall k, start <= k < start + Z.of_nat (S fuel) -> is_Some (idToToken ts !! k).
Proof.
  revert start. induction fuel as [| fuel IH]; intros start H k Hk;
    rewrite getRangeLoop_unfold in H;
    destruct (idToToken ts !! start) as [tk |] eqn:E; try discriminate H.
  - replace k with start by lia. rewrite E. eauto.
  - destruct (Z.eq_dec k start) as [-> | Hne]; [rewrite E; eauto|].
    destruct (getRangeLoop ts fuel (start + 1)) as [ids | e |] eqn:E'; try discriminate H.
    apply (IH _ E'). lia.
Qed.

(** The table holds no more identifiers in a row than it holds
    identifiers. *)
Lemma getRangeLoop_fuel (start : Z) :
  getRangeLoop ts (size (idToToken ts)) start <> OutOfFuel.
Proof.
  intros H. pose proof (getRangeLoop_exhausted _ _ H) as Hall.
  set (n := size (idToToken ts)) in *.
  assert (Hsub : list_to_set (seqZ start (Z.of_nat (S n))) ⊆ dom (idToToken ts)).
  { intros k Hk. apply elem_of_list_to_set, elem_of_seqZ in Hk.
    apply elem_of_dom. apply Hall. exact Hk. }
  apply subseteq_size in Hsub.
  rewrite size_dom in Hsub. fold n in Hsub.
  rewrite size_list_to_set in Hsub by apply NoDup_seqZ.
  rewrite length_seqZ in Hsub. lia.
Qed.

Lemma getRange_outcomes (start : Z) :
  match idToToken ts !! start with
  | None => getRange ts start = Raise AssertionError
  | Some tk =>
      exists l,
        getRange ts start = Ok (tk :: l) /\
        (forall i : nat, (i < length (tk :: l))%nat ->
                         idToToken ts !! (start + Z.of_nat i) = (tk :: l) !! i) /\
        idToToken ts !! (start + Z.of_nat (length (tk :: l))) = None
  end.
Proof.
  unfold getRange. destruct (idToToken ts !! start) as [tk |] eqn:E.
  - rewrite bool_decide_eq_true_2 by eauto. cbn [assert]. rewrite Ok_bind.
    destruct (getRangeLoop ts (size (idToToken ts)) start) as [l | e |] eqn:El.
    + pose proof (getRangeLoop_run _ _ _ El) as [Hin Hout].
      destruct l as [| tk' l].
      { simpl in Hout. rewrite Z.add_0_r, E in Hout. discriminate. }
      assert (tk' = tk).
      { specialize (Hin 0%nat ltac:(simpl; lia)). simpl in Hin.
        rewrite Z.add_0_r, E in Hin. congruence. }
      subst tk'. exists l. split; [reflexivity|]. split; assumption.
    + exfalso. clear -El.
      set (fuel := size (idToToken ts)) in El. clearbody fuel.
      revert start e El. induction fuel as [| fuel IH]; intros start e El;
        rewrite getRangeLoop_unfold in El;
        destruct (idToToken ts !! start); try discriminate El.
      destruct (getRangeLoop ts fuel (start + 1)) eqn:E'; try discriminate El.
      eapply IH. exact E'.
    + exfalso. exact (getRangeLoop_fuel _ El).
  - rewrite bool_decide_eq_false_2; [reflexivity|]. intros [x Hx]. discriminate.
Qed.

End GetRange.

(** X20. [getRange] fails its assertion when the identifier it is to start
    from has no token; otherwise it returns, for every table, the tokens of
    the identifiers from there on, one after the other, up to the first
    identifier that has no token. *)
Theorem X20_getRange (ts : TokenSet.t) (start : Z) :
  (TokenSet.getByID ts start = None -> TokenSet.getRange ts start = Raise AssertionError)
  /\
  (forall tk, TokenSet.getByID ts start = Some tk ->
     exists l,
       TokenSet.getRange ts start = Ok (tk :: l) /\
       (forall i : nat, (i < length (tk :: l))%nat ->
                        TokenSet.getByID ts (start + Z.of_nat i) = (tk :: l) !! i) /\
       TokenSet.getByID ts (start + Z.of_nat (length (tk :: l))) = None).
Proof.
  pose proof (getRange_outcomes ts start) as H. unfold TokenSet.getByID.
  destruct (TokenSet.idToToken ts !! start) as [tk |] eqn:E.
  - split; [discriminate|]. intros tk' Htk. injection Htk as <-. exact H.
  - split; [intros _; exact H | discriminate].
Qed.

Lemma tokens_range_demo :
  TokenSet.getByID TokenSet.tokens 0x31 = None /\
  (Token.getName <$> TokenSet.getByID TokenSet.tokens 0x20) = Some "+".
Proof. split; vm_compute; reflexivity. Qed.

Lemma X20_getRange_witness :
  TokenSet.getRange TokenSet.tokens 0x31 = Raise AssertionError /\
  exists tk l, TokenSet.getRange TokenSet.tokens 0x20 = Ok (tk :: l) /\
               TokenSet.getByID TokenSet.tokens (0x20 + Z.of_nat (length (tk :: l))) = None.
Proof.
  pose proof tokens_range_demo as [D1 D2].
  split; [exact (proj1 (X20_getRange TokenSet.tokens 0x31) D1)|].
  pose proof (proj2 (X20_getRange TokenSet.tokens 0x20)) as H.
  destruct (TokenSet.getByID TokenSet.tokens 0x20) as [tk |]; [| discriminate D2].
  destruct (H tk eq_refl) as (l & H1 & _ & H2).
  exists tk, l. split; assumption.
Defined.

Section TokenInit.

Lemma find_char_split (c : ascii) (s : string) (i : nat) :
  find_char c s = Some i ->
  s = stake i s +:+ String c (sdrop (S i) s) /\ find_char c (stake i s) = None.
Proof.
  revert i. induction s as [| d r IH]; intros i H; [discriminate|].
  simpl in H. destruct (ascii_dec c d) as [<- | Hne].
  - injection H as <-. split; reflexivity.
  - destruct (find_char c r) as [j |] eqn:E; [| discriminate].
    injection H as <-. destruct (IH j eq_refl) as [Hs Hn].
    split.
    + cbn [stake sdrop]. rewrite sapp_cons. f_equal. exact Hs.
    + cbn [stake find_char]. destruct (ascii_dec c d); [contradiction|].
      rewrite Hn. reflexivity.
Qed.

End TokenInit.

(** X21. A token made from the identifier and a text carries the
    identifier.  A text with a colon, other than the colon itself, is cut
    at its first colon: the name is what stands before, and holds no
    colon, the modifier is what follows, and the two with a colon between
    them make up the text.  Any other text is the name as it is, and the
    modifier is empty. *)
Theorem X21_token_name_and_modifier (id : Z) (text : string) :
  let tk := Token.init id text in
  Token.getID tk = id /\
  (text <> ":" -> find_char ":" text <> None ->
   Token.getName tk +:+ ":" +:+ Token.getModifier tk = text /\
   find_char ":" (Token.getName tk) = None) /\
  (text = ":" \/ find_char ":" text = None ->
   Token.getName tk = text /\ Token.getModifier tk = EmptyString).
Proof.
  unfold Token.init. destruct (string_dec text ":") as [-> | Hne].
  - split; [reflexivity|]. split; [intros H; contradiction H; reflexivity|].
    intros _. split; reflexivity.
  - destruct (find_char ":" text) as [i |] eqn:E.
    + apply find_char_split in E as [Hs Hn].
      split; [reflexivity|]. split.
      * intros _ _. cbn [Token.getName Token.getModifier Token.token Token.modifier].
        split; [symmetry; exact Hs | exact Hn].
      * intros [H | H]; [contradiction | discriminate].
    + split; [reflexivity|]. split; [intros _ H; contradiction H; reflexivity|].
      intros _. split; reflexivity.
Qed.

Lemma X21_token_name_and_modifier_witness :
  Token.getName (Token.init 0xB0 "while:+") = "while" /\
  Token.getModifier (Token.init 0xB0 "while:+") = "+" /\
  Token.getName (Token.init 0xCC ":") = ":".
Proof.
  destruct (X21_token_name_and_modifier 0xB0 "while:+") as (_ & H1 & _).
  destruct (X21_token_name_and_modifier 0xCC ":") as (_ & _ & H2).
  destruct (H1 ltac:(discriminate) ltac:(vm_compute; discriminate)) as [_ _].
  destruct (H2 (or_introl eq_refl)) as [H3 _].
  split; [reflexivity|]. split; [reflexivity | exact H3].
Defined.

(* ===================================================================== *)
(** * Proofs: defines *)
(* ===================================================================== *)

Section Defines.
Import Program.

Lemma join_consFirst (c : ascii) (l : list string) :
  join (consFirst c l) = String c (join l).
Proof. destruct l; reflexivity. Qed.

(** Cutting a text into pieces and joining the pieces gives the text. *)
Lemma join_splitGo (inword : bool) (s : string) : join (splitGo inword s) = s.
Proof.
  revert inword. induction s as [| c r IH]; intros inword; [destruct inword; reflexivity|].
  simpl. destruct inword; [destruct (is_identchar c) | destruct (is_alpha c)];
    cbn [join fold_right]; rewrite ?sapp_nil_l, join_consFirst;
    unfold join in IH; unfold join; rewrite IH; reflexivity.
Qed.

Lemma map_substitute_none (ids : gmap string string) (l : list string) :
  Forall (fun w => ids !! w = None) l -> map (substitute ids) l = l.
Proof.
  induction 1 as [| w l Hw Hl IH]; [reflexivity|].
  simpl. unfold substitute at 1. rewrite Hw, IH. reflexivity.
Qed.

Lemma processIdentifiers_none (p : t) (s : string) :
  Forall (fun w => identifiers p !! w = None) (reSplit s) -> processIdentifiers p s = s.
Proof.
  intros H. unfold processIdentifiers. rewrite (map_substitute_none _ _ H).
  apply join_splitGo.
Qed.

(** ** The define directive *)

Lemma rstrip_app (a b : string) :
  is_empty (rstrip b) = false -> rstrip (a +:+ b) = a +:+ rstrip b.
Proof.
  intros Hb. induction a as [| c a IH]; [rewrite !sapp_nil_l; reflexivity|].
  rewrite !sapp_cons. simpl. rewrite IH.
  destruct (a +:+ rstrip b) eqn:E; [| reflexivity].
  destruct a; [rewrite sapp_nil_l in E; rewrite E in Hb; discriminate | discriminate E].
Qed.

Lemma length_rstrip (s : string) : (String.length (rstrip s) <= String.length s)%nat.
Proof.
  induction s as [| c r IH]; [reflexivity|]. simpl.
  destruct (is_empty (rstrip r) && is_space c); simpl; lia.
Qed.

Lemma length_lstrip (s : string) : (String.length (lstrip s) <= String.length s)%nat.
Proof.
  induction s as [| c r IH]; [reflexivity|].
  destruct (is_space c) eqn:Hc.
  - rewrite (lstrip_cons_space c r Hc). simpl. lia.
  - rewrite (lstrip_cons_other c r Hc). reflexivity.
Qed.

(** A text that [strip] leaves as it is has no blank at either end. *)
Lemma strip_fixed (s : string) :
  strip s = s -> s <> EmptyString ->
  rstrip s = s /\ exists c r, s = String c r /\ is_space c = false.
Proof.
  intros H Hne. destruct s as [| c r]; [contradiction Hne; reflexivity|].
  destruct (is_space c) eqn:Hc.
  - exfalso. unfold strip in H. rewrite (lstrip_cons_space c r Hc) in H.
    pose proof (length_rstrip (lstrip r)) as H1. pose proof (length_lstrip r) as H2.
    rewrite H in H1. simpl in H1. lia.
  - split; [| exists c, r; split; [reflexivity | exact Hc]].
    unfold strip in H. rewrite (lstrip_cons_other c r Hc) in H. exact H.
Qed.

Lemma find_char_app (c : ascii) (a b : string) :
  Forall (fun x => x <> c) (list_ascii_of_string a) ->
  find_char c (a +:+ String c b) = Some (String.length a) /\
  stake (String.length a) (a +:+ String c b) = a /\
  sdrop (S (String.length a)) (a +:+ String c b) = b.
Proof.
  induction a as [| x a IH]; intros H.
  - rewrite sapp_nil_l. simpl. destruct (ascii_dec c c); [| congruence].
    repeat split; reflexivity.
  - inversion H as [| ? ? Hx Ha]; subst. destruct (IH Ha) as (H1 & H2 & H3).
    rewrite sapp_cons. cbn [find_char String.length stake sdrop].
    destruct (ascii_dec c x); [congruence|]. rewrite H1, H2.
    split; [reflexivity | split; [reflexivity | exact H3]].
Qed.

Lemma find_char_none (c : ascii) (a : string) :
  Forall (fun x => x <> c) (list_ascii_of_string a) -> find_char c a = None.
Proof.
  induction a as [| x a IH]; intros H; [reflexivity|].
  inversion H as [| ? ? Hx Ha]; subst. simpl.
  destruct (ascii_dec c x); [congruence|]. rewrite (IH Ha). reflexivity.
Qed.

Lemma no_space_no_blank (s : string) :
  no_space s -> Forall (fun x => x <> " "%char) (list_ascii_of_string s).
Proof.
  intros H. eapply Forall_impl; [exact H|]. intros x Hx ->. discriminate Hx.
Qed.

Lemma define_text (s : string) :
  "define " +:+ s
  = String "d" (String "e" (String "f" (String "i" (String "n" (String "e" (String " " s)))))).
Proof. reflexivity. Qed.

Lemma command_define (p : t) (N R : string) :
  N <> EmptyString -> no_space N -> R <> EmptyString -> strip R = R ->
  command p ("define " +:+ N +:+ " " +:+ R)
  = Ok (mk (nextLine p) (lineStep p) (code p) (store p) (<[N := R]> (identifiers p))
           (libraryMode p)).
Proof.
  intros HN Hsp HR HsR. destruct (strip_fixed R HsR HR) as (HrR & c & r & -> & Hc).
  destruct N as [| n N']; [contradiction HN; reflexivity|].
  inversion Hsp as [| ? ? Hn Hsp']; subst.
  unfold command. rewrite define_text. cbn [startswith sdrop].
  repeat (destruct (ascii_dec _ _) as [_ | Hne]; [| contradiction Hne; reflexivity]).
  change (" " +:+ String c r) with (String " " (String c r)).
  assert (Hstrip : strip (String " " (String n N' +:+ String " " (String c r)))
                   = String n N' +:+ String " " (String c r)).
  { unfold strip. rewrite lstrip_cons_space by reflexivity.
    rewrite sapp_cons, (lstrip_cons_other n _ Hn), <- sapp_cons.
    assert (Hb : rstrip (String " " (String c r)) = String " " (String c r)).
    { change (rstrip (String " " (String c r)))
        with (if is_empty (rstrip (String c r)) && is_space " "
              then EmptyString else String " " (rstrip (String c r))).
      rewrite HrR. reflexivity. }
    rewrite rstrip_app; rewrite Hb; reflexivity. }
  rewrite Hstrip.
  destruct (find_char_app " " (String n N') (String c r) (no_space_no_blank _ Hsp))
    as (H1 & H2 & H3).
  rewrite H1. cbv beta iota zeta. rewrite H2.
  change (match String n N' +:+ String " " (String c r) with
          | EmptyString => EmptyString
          | String _ r0 => sdrop (String.length (String n N')) r0
          end)
    with (sdrop (S (String.length (String n N'))) (String n N' +:+ String " " (String c r))).
  rewrite H3, HsR. reflexivity.
Qed.

Lemma command_define_no_value (p : t) (N : string) :
  N <> EmptyString -> no_space N ->
  command p ("define " +:+ N)
  = Ok (mk (nextLine p) (lineStep p) (code p) (store p) (<[dropLast N := N]> (identifiers p))
           (libraryMode p)).
Proof.
  intros HN Hsp. unfold command. rewrite define_text. cbn [startswith sdrop].
  repeat (destruct (ascii_dec _ _) as [_ | Hne]; [| contradiction Hne; reflexivity]).
  assert (Hstrip : strip (String " " N) = N).
  { unfold strip. rewrite lstrip_cons_space by reflexivity.
    apply strip_no_space. exact Hsp. }
  rewrite Hstrip, (find_char_none " " N (no_space_no_blank _ Hsp)).
  rewrite (strip_no_space N Hsp). reflexivity.
Qed.

End Defines.

(** X22. The substitution of defines cuts the line into pieces and joins
    what it has put for them: a line none of whose pieces is a defined name
    goes to the tokeniser as it is, character for character, and so does
    every line of a program that has no define. *)
Theorem X22_line_without_defined_names (p : Program.t) (s : string) :
  (Forall (fun w => Program.identifiers p !! w = None) (Program.reSplit s) ->
   Program.processIdentifiers p s = s) /\
  (Program.identifiers p = ∅ -> Program.processIdentifiers p s = s).
Proof.
  split; [apply processIdentifiers_none|].
  intros He. apply processIdentifiers_none. rewrite He.
  apply Forall_forall. intros w _. apply lookup_empty.
Qed.

Lemma X22_line_without_defined_names_witness :
  Program.processIdentifiers (program_defining "N" "R") "10 print m,n1.x_2" = "10 print m,n1.x_2".
Proof.
  apply (proj1 (X22_line_without_defined_names (program_defining "N" "R") "10 print m,n1.x_2")).
  vm_compute. repeat constructor.
Defined.

(** X23. The define directive.  With a name and a value after it, the
    name being what stands before the first space and the value the rest
    without the blanks around it, the value is recorded for the name.  With
    a name alone, the name is recorded as the value of the name without its
    last character: a name of one letter becomes the value of the empty
    text, and the directive line itself, empty after the directive, is then
    replaced by that letter and added to the program as a line. *)
Theorem X23_define_directive (ts : TokenSet.t) (p : Program.t) (N R : string) (c : ascii) :
  N <> EmptyString -> no_space N ->
  (R <> EmptyString -> strip R = R ->
   Program.command p ("define " +:+ N +:+ " " +:+ R) = Ok (defining p N R)) /\
  Program.command p ("define " +:+ N) = Ok (defining p (Program.dropLast N) N) /\
  (N = String c EmptyString -> is_digit c = false ->
   Program.addSourceLine ts p ("#define " +:+ N)
   = Program.addLine ts (defining p EmptyString N) None N).
Proof.
  intros HN Hsp. split; [| split].
  - intros HR HsR. exact (command_define p N R HN Hsp HR HsR).
  - exact (command_define_no_value p N HN Hsp).
  - intros -> Hd. inversion Hsp as [| ? ? Hc _]; subst.
    unfold Program.addSourceLine.
    assert (Hs : strip ("#define " +:+ String c EmptyString) = "#define " +:+ String c EmptyString).
    { change ("#define " +:+ String c EmptyString)
        with (String "#" ("define " +:+ String c EmptyString)).
      rewrite strip_cons_other by reflexivity. f_equal.
      rewrite rstrip_app; simpl; rewrite Hc; reflexivity. }
    rewrite Hs.
    change ("#define " +:+ String c EmptyString)
      with (String "#" ("define " +:+ String c EmptyString)).
    cbn [startswith sdrop].
    destruct (ascii_dec "#" "#") as [_ | Hne]; [| contradiction Hne; reflexivity].
    rewrite (command_define_no_value p _ HN Hsp). rewrite !Ok_bind.
    cbn [Program.dropLast]. change (strip EmptyString) with EmptyString.
    unfold Program.processIdentifiers, Program.reSplit. cbn [Program.splitGo map].
    unfold Program.substitute. cbn [defining Program.identifiers].
    rewrite lookup_insert_eq. cbn [default join fold_right String.append].
    change (id (String c EmptyString) +:+ EmptyString) with (String c EmptyString).
    cbv beta iota. rewrite Hd. reflexivity.
Qed.

Lemma X23_define_directive_witness :
  Program.command (program_defining "N" "R") "define limit 10 + 1"
  = Ok (defining (program_defining "N" "R") "limit" "10 + 1") /\
  Program.command (program_defining "N" "R") "define debug"
  = Ok (defining (program_defining "N" "R") "debu" "debug") /\
  Program.addSourceLine TokenSet.tokens (program_defining "N" "R") "#define k"
  = Program.addLine TokenSet.tokens (defining (program_defining "N" "R") EmptyString "k") None "k".
Proof.
  assert (Hl : no_space "limit") by (repeat constructor).
  assert (Hd : no_space "debug") by (repeat constructor).
  assert (Hk : no_space "k") by (repeat constructor).
  split; [| split].
  - exact (proj1 (X23_define_directive TokenSet.tokens (program_defining "N" "R") "limit"
                    "10 + 1" "k" ltac:(discriminate) Hl) ltac:(discriminate) eq_refl).
  - exact (proj1 (proj2 (X23_define_directive TokenSet.tokens (program_defining "N" "R")
                           "debug" EmptyString "k" ltac:(discriminate) Hd))).
  - exact (proj2 (proj2 (X23_define_directive TokenSet.tokens (program_defining "N" "R")
                           "k" EmptyString "k" ltac:(discriminate) Hk)) eq_refl eq_refl).
Defined.

(* ===================================================================== *)
(** * Proofs: line numbers *)
(* ===================================================================== *)

Section LineNumbers.
Import Program.

Variable ts : TokenSet.t.
Hypothesis Hctl : control_ids ts.

Lemma lstrip_head (s : string) :
  lstrip s = EmptyString \/ exists c r, lstrip s = String c r /\ is_space c = false.
Proof.
  induction s as [| c r IH]; [left; reflexivity|].
  destruct (is_space c) eqn:Hc.
  - rewrite (lstrip_cons_space c r Hc). exact IH.
  - right. exists c, r. split; [apply lstrip_cons_other; exact Hc | exact Hc].
Qed.

Lemma rstrip_head (c : ascii) (r : string) :
  is_space c = false -> exists r', rstrip (String c r) = String c r'.
Proof. intros Hc. rewrite (rstrip_cons_other c r Hc). eauto. Qed.

Lemma strip_idem (s : string) : strip (strip s) = strip s.
Proof.
  unfold strip at 2 3. destruct (lstrip_head s) as [-> | (c & r & -> & Hc)]; [reflexivity|].
  rewrite (rstrip_cons_other c r Hc), (strip_cons_other c _ Hc), rstrip_idem.
  reflexivity.
Qed.

Lemma span_app (f : ascii -> bool) (a b : string) :
  Forall (fun c => f c = true) (list_ascii_of_string a) ->
  (forall c r, b = String c r -> f c = false) ->
  span f (a +:+ b) = (a, b).
Proof.
  intros Ha Hb. induction a as [| x a IH].
  - rewrite sapp_nil_l. destruct b as [| c r]; [reflexivity|].
    simpl. rewrite (Hb c r eq_refl). reflexivity.
  - inversion Ha as [| ? ? Hx Ha']; subst. rewrite sapp_cons. simpl.
    rewrite Hx, (IH Ha'). reflexivity.
Qed.

Lemma dot_star_end_plain (s : string) :
  Forall (fun c => c <> LF) (list_ascii_of_string s) -> dot_star_end s = Some s.
Proof.
  induction s as [| c r IH]; intros H; [reflexivity|].
  inversion H as [| ? ? Hc Hr]; subst. simpl.
  destruct (ascii_dec c LF); [contradiction|]. rewrite (IH Hr). reflexivity.
Qed.

(** A line that starts with a number goes to [addLine] with the number
    and what follows it. *)
Lemma addSourceLine_numbered (p : t) (s d rest : string) :
  strip s = d +:+ rest ->
  digit_string d -> d <> EmptyString ->
  (forall c r, rest = String c r -> is_digit c = false) ->
  Forall (fun c => c <> LF) (list_ascii_of_string rest) ->
  processIdentifiers p (d +:+ rest) = d +:+ rest ->
  addSourceLine ts p s = addLine ts p (Some (int d)) rest.
Proof.
  intros Hs Hd Hne Hrest Hlf Hsub. unfold addSourceLine. rewrite Hs.
  destruct d as [| c0 d']; [contradiction Hne; reflexivity|].
  inversion Hd as [| ? ? Hc0 Hd']; subst.
  assert (Hhash : startswith "#" (String c0 d' +:+ rest) = false).
  { rewrite sapp_cons. cbn [startswith].
    destruct (ascii_dec "#" c0) as [<- | _]; [discriminate Hc0 | reflexivity]. }
  assert (Hstrip : strip (String c0 d' +:+ rest) = String c0 d' +:+ rest).
  { rewrite <- Hs. apply strip_idem. }
  rewrite Hhash, Ok_bind. cbv beta iota zeta. rewrite Hstrip, Hsub.
  change (String c0 d' +:+ rest) with (String c0 (d' +:+ rest)).
  cbv beta iota. rewrite Hc0.
  change (String c0 (d' +:+ rest)) with (String c0 d' +:+ rest).
  unfold match_lineNumber. rewrite (span_app is_digit _ _ Hd Hrest).
  cbn [is_empty]. rewrite (dot_star_end_plain _ Hlf). reflexivity.
Qed.

Lemma land_shiftr_byte (n : Z) : Z.land n 0xFF + Z.shiftr n 8 * 256 = n.
Proof.
  change 0xFF with (Z.ones 8). rewrite Z.land_ones, Z.shiftr_div_pow2 by lia.
  change (2 ^ 8) with 256. pose proof (Z.div_mod n 256 ltac:(lia)). lia.
Qed.

(** ** What cannot be rendered *)

Lemma bytes_out_of_range (l : list Z) (b : Z) :
  In b l -> ~ (0 <= b < 256) -> bytes l = Raise ValueError.
Proof.
  intros Hin Hb. unfold bytes. destruct (forallb _ l) eqn:E; [| reflexivity].
  exfalso. rewrite forallb_forall in E. specialize (E b Hin).
  apply andb_prop in E as [E1 E2]. apply Z.leb_le in E1. apply Z.ltb_lt in E2. lia.
Qed.

Lemma render_outcomes (p : t) :
  IdentifierStore.store (store p) <> [] ->
  render p = Raise ValueError \/ exists img, render p = Ok img.
Proof.
  intros Hne. unfold render, IdentifierStore.render.
  destruct (IdentifierStore.store (store p)) as [| pg s]; [contradiction Hne; reflexivity|].
  cbn [head orRaise]. rewrite !Ok_bind. unfold bytes.
  destruct (forallb _ _); [right; eauto | left; reflexivity].
Qed.

Lemma render_out_of_range (p : t) (b : Z) :
  IdentifierStore.store (store p) <> [] ->
  In b (code p) -> ~ (0 <= b < 256) -> render p = Raise ValueError.
Proof.
  intros Hne Hin Hb. unfold render, IdentifierStore.render.
  destruct (IdentifierStore.store (store p)) as [| pg s]; [contradiction Hne; reflexivity|].
  cbn [head orRaise]. rewrite !Ok_bind.
  apply (bytes_out_of_range _ b); [| exact Hb].
  apply in_or_app. right. apply in_or_app. left. exact Hin.
Qed.

Lemma numbered_line (p : t) (s d rest : string) :
  strip s = d +:+ rest ->
  digit_string d -> d <> EmptyString ->
  (forall c r, rest = String c r -> is_digit c = false) ->
  Forall (fun c => c <> LF) (list_ascii_of_string rest) ->
  processIdentifiers p (d +:+ rest) = d +:+ rest ->
  (is_empty (strip rest) = true -> addSourceLine ts p s = Ok p) /\
  (forall p', is_empty (strip rest) = false ->
     addSourceLine ts p s = Ok p' ->
     let lineNo := if libraryMode p then 0 else int d in
     nextLine p' = int d + lineStep p /\
     Z.land lineNo 0xFF + Z.shiftr lineNo 8 * 256 = lineNo /\
     exists toks,
       Tokeniser.tokenise ts (store p) rest = Ok (store p', toks) /\
       code p' = code p ++ Z.of_nat (length toks + 4) :: Z.land lineNo 0xFF
                          :: Z.shiftr lineNo 8 :: toks ++ [0xC0]).
Proof.
  intros Hs Hd Hne Hrest Hlf Hsub.
  rewrite (addSourceLine_numbered p s d rest Hs Hd Hne Hrest Hlf Hsub).
  split.
  - intros He. unfold addLine. rewrite He. reflexivity.
  - intros p' He H.
    pose proof (addLine_result ts p p' (Some (int d)) rest 0xC0 (id_end _ Hctl) H) as R.
    rewrite He in R. destruct R as (st & toks & Ht & ->).
    cbn [nextLine code store default]. split; [reflexivity|].
    split; [apply land_shiftr_byte|].
    exists toks. split; [exact Ht | reflexivity].
Qed.

Lemma render_refuses (p : t) :
  IdentifierStore.store (store p) <> [] ->
  (render p = Raise ValueError \/ exists img, render p = Ok img) /\
  (forall number line p',
     addLine ts p number line = Ok p' ->
     is_empty (strip line) = false ->
     (libraryMode p = false /\ 65536 <= default (nextLine p) number) \/
     (256 <= length (code p') - length (code p))%nat ->
     render p' = Raise ValueError).
Proof.
  intros Hne. split; [apply render_outcomes; exact Hne|].
  intros number line p' H He Hbig.
  pose proof (extends_nonempty _ _ Hne (addLine_extends ts Hctl _ _ _ _ H)) as Hne'.
  pose proof (addLine_result ts p p' number line 0xC0 (id_end _ Hctl) H) as R.
  rewrite He in R. destruct R as (st & toks & _ & ->). cbn [code] in *.
  destruct Hbig as [[Hl Hn] | Hlen].
  - apply (render_out_of_range _ (Z.shiftr (default (nextLine p) number) 8) Hne').
    + cbn [code]. rewrite Hl. apply in_or_app. right. right. right. left. reflexivity.
    + rewrite Z.shiftr_div_pow2 by lia. change (2 ^ 8) with 256.
      pose proof (Z.div_le_mono 65536 _ 256 ltac:(lia) Hn) as Hd.
      change (65536 / 256) with 256 in Hd. lia.
  - apply (render_out_of_range _ (Z.of_nat (length toks + 4)) Hne').
    + cbn [code]. apply in_or_app. right. left. reflexivity.
    + rewrite length_app in Hlen. cbn [length] in Hlen. rewrite length_app in Hlen.
      cbn [length] in Hlen. lia.
Qed.

End LineNumbers.

(** X24. A line of the file that is, without the blanks around it, a
    number followed by a text that no define changes: the number is the
    line number, whatever line the program would have numbered next.  When
    nothing but blanks follows the number, the line is dropped and the
    program is as before.  Otherwise one record is appended to the code:
    its length, then the number and 0xFF, then the number shifted right by
    8, zero standing for the number in library mode, then the tokens of
    the text that follows the number, then the end token.  The second byte
    plus 256 times the third, which is what the lister prints, is the
    number, and the next line without a number gets this number plus the
    step. *)
Theorem X24_numbered_line (p : Program.t) (s d rest : string) :
  strip s = d +:+ rest ->
  digit_string d -> d <> EmptyString ->
  (forall c r, rest = String c r -> is_digit c = false) ->
  Forall (fun c => c <> LF) (list_ascii_of_string rest) ->
  Program.processIdentifiers p (d +:+ rest) = d +:+ rest ->
  (is_empty (strip rest) = true -> Program.addSourceLine TokenSet.tokens p s = Ok p) /\
  (forall p', is_empty (strip rest) = false ->
     Program.addSourceLine TokenSet.tokens p s = Ok p' ->
     let lineNo := if Program.libraryMode p then 0 else int d in
     Program.nextLine p' = int d + Program.lineStep p /\
     Z.land lineNo 0xFF + Z.shiftr lineNo 8 * 256 = lineNo /\
     exists toks,
       Tokeniser.tokenise TokenSet.tokens (Program.store p) rest = Ok (Program.store p', toks) /\
       Program.code p' = Program.code p ++ Z.of_nat (length toks + 4) :: Z.land lineNo 0xFF
                                        :: Z.shiftr lineNo 8 :: toks ++ [0xC0]).
Proof. exact (numbered_line TokenSet.tokens tokens_control_ids p s d rest). Qed.

Lemma numbered_line_demo :
  (p0 ← Program.init;
   p ← Program.addSourceLine TokenSet.tokens p0 "  300 A=5  ";
   Ok (Program.nextLine p, Program.code p))
  = Ok (310, [8; 44; 1; 0; 2; 0x30; 0x45; 0xC0]).
Proof. vm_compute. reflexivity. Qed.

Lemma X24_numbered_line_witness :
  exists p0 p toks,
    Program.init = Ok p0 /\
    Program.addSourceLine TokenSet.tokens p0 "  300 A=5  " = Ok p /\
    Program.nextLine p = 310 /\
    Program.code p = [8; 44; 1; 0; 2; 0x30; 0x45; 0xC0] /\
    Program.code p = Program.code p0 ++ Z.of_nat (length toks + 4) :: Z.land 300 0xFF
                                     :: Z.shiftr 300 8 :: toks ++ [0xC0].
Proof.
  pose proof numbered_line_demo as D.
  destruct Program.init as [p0 | |] eqn:E0; [| discriminate D | discriminate D].
  rewrite Ok_bind in D.
  destruct (Program.addSourceLine TokenSet.tokens p0 "  300 A=5  ")
    as [p | |] eqn:E; [| discriminate D | discriminate D].
  rewrite Ok_bind in D. injection D as D1 D2.
  assert (Hl : Program.libraryMode p0 = false /\ Program.identifiers p0 = ∅).
  { unfold Program.init in E0.
    repeat (apply bind_Ok in E0 as (? & _ & E0)). injection E0 as <-. split; reflexivity. }
  destruct Hl as [Hl Hi].
  assert (Hrest : forall c r, " A=5" = String c r -> is_digit c = false).
  { intros c r Hc. injection Hc as <- _. reflexivity. }
  assert (Hsub : Program.processIdentifiers p0 ("300" +:+ " A=5") = "300" +:+ " A=5").
  { unfold Program.processIdentifiers. rewrite Hi. reflexivity. }
  destruct (X24_numbered_line p0 "  300 A=5  " "300" " A=5" eq_refl
              ltac:(repeat constructor) ltac:(discriminate) Hrest
              ltac:(repeat constructor; discriminate) Hsub) as [_ H].
  destruct (H p eq_refl E) as (_ & _ & toks & _ & Hc).
  rewrite Hl in Hc.
  exists p0, p, toks. repeat (split; [first [reflexivity | assumption]|]). exact Hc.
Defined.

(** X25. A program built from a file is rendered or refused with a
    ValueError, nothing else.  [addLine] takes a line number of 65536 or
    more, and a line whose record takes 256 bytes or more, without
    complaint: the high byte of that number, and the length byte of that
    record, is no byte, and the program can no longer be rendered. *)
Theorem X25_render_refuses (text : string) (p0 p : Program.t) :
  Program.init = Ok p0 ->
  Program.addFile TokenSet.tokens p0 text = Ok p ->
  (Program.render p = Raise ValueError \/ exists img, Program.render p = Ok img) /\
  (forall number line p',
     Program.addLine TokenSet.tokens p number line = Ok p' ->
     is_empty (strip line) = false ->
     (Program.libraryMode p = false /\ 65536 <= default (Program.nextLine p) number) \/
     (256 <= length (Program.code p') - length (Program.code p))%nat ->
     Program.render p' = Raise ValueError).
Proof.
  intros Hinit Hadd.
  apply init_extends in Hinit as [E0 _].
  pose proof (addLines_extends TokenSet.tokens tokens_control_ids _ _ _ Hadd) as E1.
  assert (Hinit0 : IdentifierStore.store IdentifierStore.init <> []) by discriminate.
  pose proof (extends_nonempty _ _ Hinit0 (extends_trans _ _ _ E0 E1)) as Hne.
  exact (render_refuses TokenSet.tokens tokens_control_ids p Hne).
Qed.

Lemma render_refuses_demo :
  (p0 ← Program.init;
   p ← Program.addFile TokenSet.tokens p0 "10 A=5";
   p' ← Program.addLine TokenSet.tokens p (Some 70000) "A=6";
   Ok (Program.libraryMode p, Program.render p'))
  = Ok (false, Raise ValueError).
Proof. vm_compute. reflexivity. Qed.

Lemma X25_render_refuses_witness :
  exists p0 p p',
    Program.init = Ok p0 /\
    Program.addFile TokenSet.tokens p0 "10 A=5" = Ok p /\
    Program.addLine TokenSet.tokens p (Some 70000) "A=6" = Ok p' /\
    Program.render p' = Raise ValueError.
Proof.
  pose proof render_refuses_demo as D.
  destruct Program.init as [p0 | |] eqn:E0; [| discriminate D | discriminate D].
  rewrite Ok_bind in D.
  destruct (Program.addFile TokenSet.tokens p0 "10 A=5") as [p | |] eqn:E;
    [| discriminate D | discriminate D].
  rewrite Ok_bind in D.
  destruct (Program.addLine TokenSet.tokens p (Some 70000) "A=6") as [p' | |] eqn:E';
    [| discriminate D | discriminate D].
  rewrite Ok_bind in D. injection D as Hl _.
  exists p0, p, p'. repeat (split; [first [reflexivity | assumption]|]).
  apply (proj2 (X25_render_refuses "10 A=5" p0 p E0 E) (Some 70000) "A=6" p' E' eq_refl).
  left. split; [exact Hl | simpl; lia].
Defined.

(* ===================================================================== *)
(** * Proofs: the loops come to an end *)
(* ===================================================================== *)

(** X26. The tokeniser and the lister come to an end on every input: each
    step of the tokeniser takes at least one character off the line, and
    each element and each line record of the lister moves on in the image
    by at least one byte.  Whatever the text and the program, [addFile]
    returns a program or raises; whatever the image, made of bytes,
    [list_code] returns a listing or raises. *)
Theorem X26_both_tools_come_to_an_end (p : Program.t) (text : string) (bin : list Z)
        (showLineNumbers : bool) :
  ((exists p', Program.addFile TokenSet.tokens p text = Ok p') \/
   (exists e, Program.addFile TokenSet.tokens p text = Raise e)) /\
  (Forall (fun b => 0 <= b < 256) bin ->
   (exists listing, ProgramLister.list_code TokenSet.tokens bin showLineNumbers = Ok listing) \/
   (exists e, ProgramLister.list_code TokenSet.tokens bin showLineNumbers = Raise e)).
Proof.
  split.
  - pose proof (addFile_fuel TokenSet.tokens p text) as H.
    destruct (Program.addFile TokenSet.tokens p text) as [p' | e |];
      [left; eauto | right; eauto | contradiction H; reflexivity].
  - intros Hb. pose proof (list_code_fuel TokenSet.tokens bin showLineNumbers Hb) as H.
    destruct (ProgramLister.list_code TokenSet.tokens bin showLineNumbers) as [l | e |];
      [left; eauto | right; eauto | contradiction H; reflexivity].
Qed.

Lemma X26_both_tools_come_to_an_end_witness :
  (exists listing, ProgramLister.list_code TokenSet.tokens [1; 7; 9] true = Ok listing) \/
  (exists e, ProgramLister.list_code TokenSet.tokens [1; 7; 9] true = Raise e).
Proof.
  apply (proj2 (X26_both_tools_come_to_an_end (program_defining "N" "R") "10 A=5" [1; 7; 9] true)).
  repeat constructor; lia.
Defined.

(* ===================================================================== *)
(** * Proofs: bytes that are no token *)
(* ===================================================================== *)

Lemma tokens_unused_ok : unused_ok TokenSet.tokens = true.
Proof. vm_compute. reflexivity. Qed.

Section UnknownTokens.
Import ProgramLister.

Variable ts : TokenSet.t.
Hypothesis Hctl : control_ids ts.
Hypothesis Hunused : unused_ok ts = true.

Lemma unused_none (id : Z) :
  0x31 <= id <= 0x3F \/ 0xE8 <= id <= 0xFF \/ 0x100 <= id < 0x180 \/
  0x1C7 <= id <= 0x1FF \/ 0x200 <= id < 0x280 ->
  TokenSet.getByID ts id = None.
Proof.
  intros H. unfold unused_ok in Hunused. rewrite forallb_forall in Hunused.
  specialize (Hunused id). unfold TokenSet.getByID.
  destruct (TokenSet.idToToken ts !! id); [| reflexivity].
  assert (Hin : In id unused_ids).
  { unfold unused_ids. rewrite !in_app_iff, <- !list_elem_of_In, !elem_of_seqZ. lia. }
  discriminate (Hunused Hin).
Qed.

Ltac range_tests :=
  repeat match goal with
  | |- context [Z.eqb ?a ?b] =>
      first [ replace (Z.eqb a b) with true by (symmetry; apply Z.eqb_eq; lia)
            | replace (Z.eqb a b) with false by (symmetry; apply Z.eqb_neq; lia) ]
  | |- context [Z.leb ?a ?b] =>
      first [ replace (Z.leb a b) with true by (symmetry; apply Z.leb_le; lia)
            | replace (Z.leb a b) with false by (symmetry; apply Z.leb_gt; lia) ]
  | |- context [Z.ltb ?a ?b] =>
      first [ replace (Z.ltb a b) with true by (symmetry; apply Z.ltb_lt; lia)
            | replace (Z.ltb a b) with false by (symmetry; apply Z.ltb_ge; lia) ]
  end; cbn [andb orb negb].

Ltac enter bin p Hn :=
  unfold listOneElement; rewrite Hn, Ok_bind; unfold getTokenID;
  rewrite (id_str _ Hctl), (id_dec _ Hctl), (id_dollar _ Hctl),
    (id_sh1 _ Hctl), (id_sh2 _ Hctl), !Ok_bind.

Lemma listOneElement_unused (bin : list Z) (text : string) (p : nat) (n : Z) :
  at_ bin p = Ok n ->
  0x31 <= n <= 0x3F \/ 0xE8 <= n <= 0xFF ->
  listOneElement ts bin text p = Raise AttributeError.
Proof.
  intros Hn Hr. enter bin p Hn.
  assert (Hnone : TokenSet.getByID ts n = None) by (apply unused_none; lia).
  destruct Hr; range_tests; rewrite ?Ok_bind; range_tests; rewrite ?Ok_bind;
    cbv beta iota; rewrite Hnone; reflexivity.
Qed.

Lemma listOneElement_shift1 (bin : list Z) (text : string) (p : nat) (b : Z) :
  at_ bin p = Ok 0xC1 -> at_ bin (p + 1) = Ok b ->
  0 <= b < 0x80 \/ 0xC7 <= b <= 0xFF ->
  listOneElement ts bin text p = Raise AttributeError.
Proof.
  intros Hn Hb Hr. enter bin p Hn. cbn [Z.leb Z.ltb Z.eqb Z.compare Pos.compare
    Pos.compare_cont Pos.eqb andb orb]. cbv beta iota.
  rewrite Hb, !Ok_bind. cbv beta iota.
  assert (Hnone : TokenSet.getByID ts (b + 256) = None) by (apply unused_none; lia).
  range_tests. rewrite !Ok_bind. cbv beta iota. rewrite Hnone. reflexivity.
Qed.

Lemma listOneElement_shift2 (bin : list Z) (text : string) (p : nat) (b : Z) :
  at_ bin p = Ok 0xC2 -> at_ bin (p + 1) = Ok b ->
  0 <= b < 0x80 ->
  listOneElement ts bin text p = Raise AttributeError.
Proof.
  intros Hn Hb Hr. enter bin p Hn. cbn [Z.leb Z.ltb Z.eqb Z.compare Pos.compare
    Pos.compare_cont Pos.eqb andb orb]. cbv beta iota.
  rewrite !Ok_bind. cbv beta iota. rewrite Hb, !Ok_bind. cbv beta iota.
  assert (Hnone : TokenSet.getByID ts (b + 512) = None) by (apply unused_none; lia).
  change (194 =? 194) with true. cbv beta iota. rewrite Ok_bind. cbv beta iota.
  rewrite Hnone. reflexivity.
Qed.

End UnknownTokens.

(** X27. The lister on a byte that is no token.  The bytes 0x31 to 0x3F
    and 0xE8 to 0xFF, the first shift followed by a byte that is below
    0x80 or above 0xC6, and the second shift followed by a byte below 0x80
    are identifiers of nothing: the element fails with an AttributeError,
    whatever the text so far, and nothing is written for it. *)
Theorem X27_byte_that_is_no_token (bin : list Z) (text : string) (p : nat) (n : Z) :
  ProgramLister.at_ bin p = Ok n ->
  (0x31 <= n <= 0x3F \/ 0xE8 <= n <= 0xFF) \/
  (exists b, ProgramLister.at_ bin (p + 1) = Ok b /\
             ((n = 0xC1 /\ (0 <= b < 0x80 \/ 0xC7 <= b <= 0xFF)) \/
              (n = 0xC2 /\ 0 <= b < 0x80))) ->
  ProgramLister.listOneElement TokenSet.tokens bin text p = Raise AttributeError.
Proof.
  intros Hn [Hr | (b & Hb & [[-> Hr] | [-> Hr]])].
  - exact (listOneElement_unused TokenSet.tokens tokens_control_ids tokens_unused_ok
             bin text p n Hn Hr).
  - exact (listOneElement_shift1 TokenSet.tokens tokens_control_ids tokens_unused_ok
             bin text p b Hn Hb Hr).
  - exact (listOneElement_shift2 TokenSet.tokens tokens_control_ids tokens_unused_ok
             bin text p b Hn Hb Hr).
Qed.

Lemma X27_byte_that_is_no_token_witness :
  ProgramLister.listOneElement TokenSet.tokens [0x33; 0xC0] "10 " 0 = Raise AttributeError /\
  ProgramLister.listOneElement TokenSet.tokens [0xC1; 0x45; 0xC0] EmptyString 0
  = Raise AttributeError.
Proof.
  split.
  - apply (X27_byte_that_is_no_token [0x33; 0xC0] "10 " 0 0x33 eq_refl). left. lia.
  - apply (X27_byte_that_is_no_token [0xC1; 0x45; 0xC0] EmptyString 0 0xC1 eq_refl).
    right. exists 0x45. split; [reflexivity|]. left. split; [reflexivity | lia].
Defined.

(* ===================================================================== *)
(** * Proofs: the pointer, from the store to the token stream *)
(* ===================================================================== *)

Section PointerInStream.
Import IdentifierStore.

Variable ts : TokenSet.t.




End PointerInStream.




(* ===================================================================== *)
(** * Proofs: decimal fractions, from the text to the listing *)
(* ===================================================================== *)

Section FractionTokens.

Variable ts : TokenSet.t.
Hypothesis Hctl : control_ids ts.

Lemma lstrip_plain (P : ascii -> Prop) (s : string) :
  Forall P (list_ascii_of_string s) -> Forall P (list_ascii_of_string (lstrip s)).
Proof.
  induction s as [| c r IH]; intros H; [exact H|].
  inversion H as [| ? ? Hc Hr]; subst. destruct (is_space c) eqn:E.
  - rewrite (lstrip_cons_space c r E). exact (IH Hr).
  - rewrite (lstrip_cons_other c r E). exact H.
Qed.

Lemma dot_star_plain (s : string) :
  Forall (fun c => c <> LF) (list_ascii_of_string s) -> dot_star s = s.
Proof.
  induction s as [| c r IH]; intros H; [reflexivity|].
  inversion H as [| ? ? Hc Hr]; subst. simpl.
  destruct (ascii_dec c LF); [contradiction|]. rewrite (IH Hr). reflexivity.
Qed.

Lemma digits_plain (s : string) :
  digit_string s -> Forall (fun c => c <> LF) (list_ascii_of_string s).
Proof.
  intros H. eapply Forall_impl; [exact H|]. intros c Hc ->. discriminate Hc.
Qed.

Lemma plain_app (P : ascii -> Prop) (a b : string) :
  Forall P (list_ascii_of_string a) -> Forall P (list_ascii_of_string b) ->
  Forall P (list_ascii_of_string (a +:+ b)).
Proof.
  intros Ha Hb. induction a as [| c a IH]; [exact Hb|].
  inversion Ha; subst. rewrite sapp_cons. constructor; [assumption | apply IH; assumption].
Qed.

(** The tokeniser on a number with a fraction: the constant, the decimal
    token, the length byte and the packed digits. *)
Lemma tokeniseOne_fraction (tw : Tokeniser.t) (d s rest : string) (frac : list Z) :
  digit_string d -> d <> EmptyString ->
  digit_string s -> s <> EmptyString ->
  (forall c r, rest = String c r -> is_digit c = false) ->
  Forall (fun c => c <> LF) (list_ascii_of_string rest) ->
  Tokeniser.encodeFraction s = Ok frac ->
  Tokeniser.tokeniseOne ts tw (d +:+ "." +:+ s +:+ rest)
  = Ok (Tokeniser.emit tw (NumberCodec.renderConstant (int d) ++ 0xC3 :: frac), lstrip rest).
Proof.
  intros Hd Hdne Hs Hsne Hrest Hlf Hfrac.
  change ("." +:+ s +:+ rest) with (String "." (s +:+ rest)).
  destruct d as [| c0 d']; [contradiction Hdne; reflexivity|].
  pose proof Hd as Hd0. inversion Hd0 as [| ? ? Hc0 _]; subst.
  assert (Hpoint : forall c r, String "." (s +:+ rest) = String c r -> is_digit c = false).
  { intros c r Hc. injection Hc as <- _. reflexivity. }
  assert (Hplain : Forall (fun c => c <> LF)
                          (list_ascii_of_string (String "." (s +:+ rest)))).
  { constructor; [discriminate|]. apply plain_app; [apply digits_plain; exact Hs | exact Hlf]. }
  unfold Tokeniser.tokeniseOne.
  change (String c0 d' +:+ String "." (s +:+ rest))
    with (String c0 (d' +:+ String "." (s +:+ rest))).
  cbv beta iota. rewrite Hc0.
  change (String c0 (d' +:+ String "." (s +:+ rest)))
    with (String c0 d' +:+ String "." (s +:+ rest)).
  unfold Tokeniser.match_number. rewrite (span_app is_digit _ _ Hd Hpoint).
  cbn [is_empty]. rewrite (lstrip_cons_other "." _ eq_refl).
  rewrite (dot_star_end_plain _ Hplain).
  cbn [mbind option_bind orRaise]. rewrite Ok_bind. cbv beta iota zeta.
  unfold Tokeniser.match_fraction. rewrite (span_app is_digit _ _ Hs Hrest).
  destruct s as [| c1 s']; [contradiction Hsne; reflexivity|]. cbn [is_empty].
  change (Tokeniser.getTokenID ts "!!dec") with (TokenSet.getTokenID ts "!!DEC").
  rewrite (id_dec _ Hctl), Ok_bind, Hfrac, Ok_bind.
  rewrite (dot_star_plain _ (lstrip_plain _ _ Hlf)).
  unfold Tokeniser.renderConstant. rewrite !emit_emit. reflexivity.
Qed.

End FractionTokens.

(** C7. For every string s of digits, of length 1 to 8 in particular:
    the tokeniser, on a number that has s behind its point, writes the
    constant, the decimal token 0xC3 and the bytes of [encodeFraction] for
    s; and the lister, on the decimal token followed by these bytes,
    renders the point followed by s exactly, high half of each byte first,
    a half of 15 giving no character. *)
Theorem C7_fraction_round_trip (s : string) (pre post : list Z) (text : string) :
  digit_string s ->
  (1 <= String.length s <= 8)%nat ->
  exists frac,
    Tokeniser.encodeFraction s = Ok frac /\
    (forall tw d rest,
        digit_string d -> d <> EmptyString ->
        (forall c r, rest = String c r -> is_digit c = false) ->
        Forall (fun c => c <> LF) (list_ascii_of_string rest) ->
        Tokeniser.tokeniseOne TokenSet.tokens tw (d +:+ "." +:+ s +:+ rest)
        = Ok (Tokeniser.emit tw (NumberCodec.renderConstant (int d) ++ 0xC3 :: frac),
              lstrip rest)) /\
    ProgramLister.listOneElement TokenSet.tokens (pre ++ 0xC3 :: frac ++ post)
                                 text (length pre)
    = (text' ← ProgramLister.append text (String "." s);
       Ok (text', (length pre + 1 + length frac)%nat)).
Proof.
  intros Hs Hlen.
  destruct (packDigits_fraction s Hs) as (packed & Hp & Hpl & _ & _ & Hdec).
  destruct (encodeFraction_length_byte s Hs packed Hp Hpl) as [Hfrac _].
  assert (Hne : s <> EmptyString) by (intros ->; simpl in Hlen; lia).
  exists (Z.of_nat (length packed) :: packed).
  assert (He : Tokeniser.encodeFraction s = Ok (Z.of_nat (length packed) :: packed)).
  { rewrite Hfrac, Hpl. reflexivity. }
  split; [exact He|]. split.
  - intros tw d rest Hd Hdne Hrest Hlf.
    exact (tokeniseOne_fraction TokenSet.tokens tokens_control_ids tw d s rest _
             Hd Hdne Hs Hne Hrest Hlf He).
  - change ((Z.of_nat (length packed) :: packed) ++ post)
      with (Z.of_nat (length packed) :: packed ++ post).
    rewrite (listOneElement_fraction _ tokens_control_ids), Hdec.
    simpl length.
    replace (length pre + 1 + S (length packed))%nat with (length pre + length packed + 2)%nat
      by lia.
    reflexivity.
Qed.

Lemma C7_fraction_round_trip_witness :
  exists frac,
    Tokeniser.encodeFraction "25" = Ok frac /\
    Tokeniser.tokeniseOne TokenSet.tokens (Tokeniser.mk IdentifierStore.init []) "5.25 :"
    = Ok (Tokeniser.mk IdentifierStore.init (0x45 :: 0xC3 :: frac), ":") /\
    ProgramLister.listOneElement TokenSet.tokens ([0x45] ++ 0xC3 :: frac ++ [0xC0]) "5" 1
    = Ok ("5.25", (1 + 1 + length frac)%nat).
Proof.
  destruct (C7_fraction_round_trip "25" [0x45] [0xC0] "5") as (frac & He & Ht & Hl).
  - repeat constructor.
  - simpl. lia.
  - exists frac. split; [exact He|]. split; [| exact Hl].
    refine (eq_trans (Ht (Tokeniser.mk IdentifierStore.init []) "5" " :" _ _ _ _) _).
    + repeat constructor.
    + discriminate.
    + intros c r Hc. injection Hc as <- _. reflexivity.
    + repeat constructor; discriminate.
    + reflexivity.
Defined.

(* ===================================================================== *)
(** * Proofs: a defined name as a word of its own *)
(* ===================================================================== *)

Section DefinedWord.
Import Program.






End DefinedWord.



